(** * A two-pass assembler for a 10-bit word machine: shallow embedding

    The development follows the C sources: the bit-field encoder
    (encoder.c), the code and data images (instruction_memory.c,
    data_memory.c), relocation and deferred label resolution
    (addresses.c, second_pass.c), the externals list (externals.c), the
    data directives (directives.c) and the macro preprocessor
    (pre_processor.c).

    C integers are modelled as [Z] with the wrap-around of their width
    written out; the singly linked lists of the program, which are always
    appended at the tail, are modelled as [list]s in the same order;
    C strings are [string]s (without the terminating NUL). *)

From Stdlib Require Import ZArith List String Ascii Bool Lia.
Import ListNotations.
Local Open Scope string_scope.
Local Open Scope list_scope.
Local Open Scope Z_scope.

(** ** Machine integers *)

Definition uint (x : Z) : Z := x mod 2 ^ 32.
Definition ushort (x : Z) : Z := x mod 2 ^ 16.

(** ** config.h *)

Module Config.

(** Modelled from the spec: config.h is not part of the source tree. The
    bit layout is the one of the spec's data model: main word = opcode in
    bits 9..6, source mode in bits 5..4, destination mode in bits 3..2,
    ERA in bits 1..0; operand word = data in bits 9..2, ERA in bits 1..0;
    register word = source register in bits 9..6, destination register in
    bits 5..2. *)
Definition WORD_BIT_SIZE : Z := 10.
Definition OPCODE_BITS : Z := 4.
Definition SRC_ADDR_MODE_BITS : Z := 2.
Definition DEST_ADDR_MODE_BITS : Z := 2.
Definition E_R_A_BITS : Z := 2.
Definition OPERAND_DATA_BITS : Z := 8.
Definition OPERAND_DATA_SRC_REG_BITS : Z := 4.
Definition OPERAND_DATA_DEST_REG_BITS : Z := 4.

Definition OPCODE_BITS_SHIFT : Z := 6.
Definition SRC_ADDR_MODE_BITS_SHIFT : Z := 4.
Definition DEST_ADDR_MODE_BITS_SHIFT : Z := 2.
Definition E_R_A_BITS_SHIFT : Z := 0.
Definition OPERAND_DATA_BITS_SHIFT : Z := 2.
Definition OPERAND_DATA_SRC_REG_SHIFT : Z := 6.
Definition OPERAND_DATA_DEST_REG_SHIFT : Z := 2.

Definition SRC_ADDR_MODE_BITS_MASK : Z := 48.   (* 0x030 *)
Definition DEST_ADDR_MODE_BITS_MASK : Z := 12.  (* 0x00C *)
Definition E_R_A_BITS_MASK : Z := 3.            (* 0x003 *)
Definition OPERAND_DATA_BITS_MASK : Z := 1020.  (* 0x3FC *)
Definition WORD_BIT_MASK : Z := 1023.           (* 0x3FF *)

(** Modelled from the spec: the range macros of config.h. The spec gives
    -128..127 for the signed 8-bit data field and a signed 10-bit range
    for data words; unsigned fields hold 0..2^bits-1. *)
Definition U_MAX_NUM (bits : Z) : Z := 2 ^ bits - 1.
Definition U_MIN_NUM : Z := 0.
Definition MAX_NUM (bits : Z) : Z := 2 ^ (bits - 1) - 1.
Definition MIN_NUM (bits : Z) : Z := - 2 ^ (bits - 1).

(** Modelled from the spec: an external label is committed at address 0. *)
Definition EXTERNAL_TEMP_ADDR : Z := 0.

End Config.
Import Config.

(** ** instructions.h *)

Inductive encoding_type := ABSOLUTE | EXTERNAL | RELOCATABLE | UNKNOWN.

Definition encoding_val (e : encoding_type) : Z :=
  match e with ABSOLUTE => 0 | EXTERNAL => 1 | RELOCATABLE => 2 | UNKNOWN => 3 end.

Inductive addr_Mode :=
  IMMEDIATE_ACCESS | DIRECT_ACCESS | MATRIX_ACCESS | REGISTER_ACCESS.

Definition addr_Mode_val (m : addr_Mode) : Z :=
  match m with
  | IMMEDIATE_ACCESS => 0 | DIRECT_ACCESS => 1
  | MATRIX_ACCESS => 2 | REGISTER_ACCESS => 3
  end.

Definition AM_BIT (m : addr_Mode) : Z := Z.shiftl 1 (addr_Mode_val m).

(** addr_mode_group *)
Definition AM_1_2 : Z := Z.lor (AM_BIT DIRECT_ACCESS) (AM_BIT MATRIX_ACCESS).
Definition AM_1_2_3 : Z := Z.lor AM_1_2 (AM_BIT REGISTER_ACCESS).
Definition ALL : Z := Z.lor AM_1_2_3 (AM_BIT IMMEDIATE_ACCESS).
Definition NONE : Z := 0.

Record opcode := {
  opcode_code : Z;            (* int opcode *)
  name : string;
  operands_amount : Z;
  opcode_source : Z;
  opcode_dest : Z;
  opcode_encoding : encoding_type
}.

(** The operand struct is a tagged union: the tag [type] is determined by
    the member of [operand_val] the parser filled. *)
Inductive operand_val :=
| U_matrix (label : string) (reg_1 reg_2 : Z) (reg_encoding : encoding_type)
| U_label (label : string)
| U_val (val : Z)
| U_reg (reg : Z).

Record operand := {
  op_val : operand_val;
  op_encoding : encoding_type;
  file_line : Z
}.

Definition type (o : operand) : addr_Mode :=
  match op_val o with
  | U_matrix _ _ _ _ => MATRIX_ACCESS
  | U_label _ => DIRECT_ACCESS
  | U_val _ => IMMEDIATE_ACCESS
  | U_reg _ => REGISTER_ACCESS
  end.

Definition set_op_encoding (e : encoding_type) (o : operand) : operand :=
  {| op_val := op_val o; op_encoding := e; file_line := file_line o |}.

(** ** tables.c *)

Definition opcode_table : list opcode :=
  [ Build_opcode 0 "mov" 2 ALL AM_1_2_3 ABSOLUTE;
    Build_opcode 1 "cmp" 2 ALL ALL ABSOLUTE;
    Build_opcode 2 "add" 2 ALL AM_1_2_3 ABSOLUTE;
    Build_opcode 3 "sub" 2 ALL AM_1_2_3 ABSOLUTE;
    Build_opcode 4 "lea" 2 AM_1_2 AM_1_2_3 ABSOLUTE;
    Build_opcode 5 "clr" 1 NONE AM_1_2_3 ABSOLUTE;
    Build_opcode 6 "not" 1 NONE AM_1_2_3 ABSOLUTE;
    Build_opcode 7 "inc" 1 NONE AM_1_2_3 ABSOLUTE;
    Build_opcode 8 "dec" 1 NONE AM_1_2_3 ABSOLUTE;
    Build_opcode 9 "jmp" 1 NONE AM_1_2_3 ABSOLUTE;
    Build_opcode 10 "bne" 1 NONE AM_1_2_3 ABSOLUTE;
    Build_opcode 11 "jsr" 1 NONE AM_1_2_3 ABSOLUTE;
    Build_opcode 12 "red" 1 NONE AM_1_2_3 ABSOLUTE;
    Build_opcode 13 "prn" 1 NONE ALL ABSOLUTE;
    Build_opcode 14 "rts" 0 NONE NONE ABSOLUTE;
    Build_opcode 15 "stop" 0 NONE NONE ABSOLUTE ].

Definition registers : list string :=
  ["r0"; "r1"; "r2"; "r3"; "r4"; "r5"; "r6"; "r7"].

Definition data_directives_table : list string := [".data"; ".string"; ".mat"].
Definition attributes_directives_table : list string := [".entry"; ".extern"].
Definition macro_declaration : list string := ["mcro"; "mcroend"].

(** ** List nodes (instruction_memory.h, data_memory.h, labels.h,
       externals.h, memory_relocation.h, pre_processor.h, lines_map.h) *)

Record inst_mem := { inst_value : Z; inst_address : Z }.
Record data_mem := { data_value : Z; data_address : Z }.

Inductive def_type := NORMAL | EXTERN.
Inductive addr_type := CODE | DATA | UNKNOWN_ADDR_TYPE.

Record label := {
  label_name : string;
  label_address : Z;
  label_type : addr_type;
  label_definition : def_type;
  is_entry : bool
}.

Record external := { ext_label_name : string; mem_address : Z }.

Record address_update_request := { req_operand : operand; req_address : Z }.

Record macro := {
  macro_name : string;
  macro_content : string;
  macro_lines : Z;
  define_line : Z
}.

Record lines_LUT := { orign_line_num : Z; new_line_num : Z }.

(** ** errors.c: what is printed *)

Inductive diagnostic :=
| External_error (code : Z)     (* print_external_error(ERROR_CODE_<code>) *)
| Internal_error (code : Z).    (* print_internal_error(ERROR_CODE_<code>, _) *)

(** ** context.h

    The fields of [assembler_context] the modelled functions use, with
    two effects that live outside the struct in C: the diagnostics
    printed on stdout, in order, and the content written to the .am
    file, if it was created. *)

Record assembler_context := {
  as_file_line : Z;
  second_pass_error_line : Z;
  DC : Z;
  IC : Z;
  memory_usage : Z;
  preproc_error : bool;
  second_pass_error : bool;
  data_memory : list data_mem;
  instruction_memory : list inst_mem;
  external_labels : list external;
  labels : list label;
  macros : list macro;
  address_update_requests : list address_update_request;
  lines_maper : list lines_LUT;
  printed : list diagnostic;
  am_file : option string
}.

(** Field updates. *)

Definition set_as_file_line (v : Z) (c : assembler_context) : assembler_context :=
  {| as_file_line := v; second_pass_error_line := second_pass_error_line c;
     DC := DC c; IC := IC c; memory_usage := memory_usage c;
     preproc_error := preproc_error c;
     second_pass_error := second_pass_error c; data_memory := data_memory c;
     instruction_memory := instruction_memory c;
     external_labels := external_labels c; labels := labels c;
     macros := macros c;
     address_update_requests := address_update_requests c;
     lines_maper := lines_maper c; printed := printed c;
     am_file := am_file c |}.

Definition set_second_pass_error_line (v : Z) (c : assembler_context) : assembler_context :=
  {| as_file_line := as_file_line c; second_pass_error_line := v; DC := DC c;
     IC := IC c; memory_usage := memory_usage c;
     preproc_error := preproc_error c;
     second_pass_error := second_pass_error c; data_memory := data_memory c;
     instruction_memory := instruction_memory c;
     external_labels := external_labels c; labels := labels c;
     macros := macros c;
     address_update_requests := address_update_requests c;
     lines_maper := lines_maper c; printed := printed c;
     am_file := am_file c |}.

Definition set_DC (v : Z) (c : assembler_context) : assembler_context :=
  {| as_file_line := as_file_line c;
     second_pass_error_line := second_pass_error_line c; DC := v; IC := IC c;
     memory_usage := memory_usage c; preproc_error := preproc_error c;
     second_pass_error := second_pass_error c; data_memory := data_memory c;
     instruction_memory := instruction_memory c;
     external_labels := external_labels c; labels := labels c;
     macros := macros c;
     address_update_requests := address_update_requests c;
     lines_maper := lines_maper c; printed := printed c;
     am_file := am_file c |}.

Definition set_IC (v : Z) (c : assembler_context) : assembler_context :=
  {| as_file_line := as_file_line c;
     second_pass_error_line := second_pass_error_line c; DC := DC c; IC := v;
     memory_usage := memory_usage c; preproc_error := preproc_error c;
     second_pass_error := second_pass_error c; data_memory := data_memory c;
     instruction_memory := instruction_memory c;
     external_labels := external_labels c; labels := labels c;
     macros := macros c;
     address_update_requests := address_update_requests c;
     lines_maper := lines_maper c; printed := printed c;
     am_file := am_file c |}.

Definition set_memory_usage (v : Z) (c : assembler_context) : assembler_context :=
  {| as_file_line := as_file_line c;
     second_pass_error_line := second_pass_error_line c; DC := DC c;
     IC := IC c; memory_usage := v; preproc_error := preproc_error c;
     second_pass_error := second_pass_error c; data_memory := data_memory c;
     instruction_memory := instruction_memory c;
     external_labels := external_labels c; labels := labels c;
     macros := macros c;
     address_update_requests := address_update_requests c;
     lines_maper := lines_maper c; printed := printed c;
     am_file := am_file c |}.

Definition set_preproc_error (v : bool) (c : assembler_context) : assembler_context :=
  {| as_file_line := as_file_line c;
     second_pass_error_line := second_pass_error_line c; DC := DC c;
     IC := IC c; memory_usage := memory_usage c; preproc_error := v;
     second_pass_error := second_pass_error c; data_memory := data_memory c;
     instruction_memory := instruction_memory c;
     external_labels := external_labels c; labels := labels c;
     macros := macros c;
     address_update_requests := address_update_requests c;
     lines_maper := lines_maper c; printed := printed c;
     am_file := am_file c |}.

Definition set_second_pass_error (v : bool) (c : assembler_context) : assembler_context :=
  {| as_file_line := as_file_line c;
     second_pass_error_line := second_pass_error_line c; DC := DC c;
     IC := IC c; memory_usage := memory_usage c;
     preproc_error := preproc_error c; second_pass_error := v;
     data_memory := data_memory c;
     instruction_memory := instruction_memory c;
     external_labels := external_labels c; labels := labels c;
     macros := macros c;
     address_update_requests := address_update_requests c;
     lines_maper := lines_maper c; printed := printed c;
     am_file := am_file c |}.

Definition set_data_memory (v : list data_mem) (c : assembler_context) : assembler_context :=
  {| as_file_line := as_file_line c;
     second_pass_error_line := second_pass_error_line c; DC := DC c;
     IC := IC c; memory_usage := memory_usage c;
     preproc_error := preproc_error c;
     second_pass_error := second_pass_error c; data_memory := v;
     instruction_memory := instruction_memory c;
     external_labels := external_labels c; labels := labels c;
     macros := macros c;
     address_update_requests := address_update_requests c;
     lines_maper := lines_maper c; printed := printed c;
     am_file := am_file c |}.

Definition set_instruction_memory (v : list inst_mem) (c : assembler_context) : assembler_context :=
  {| as_file_line := as_file_line c;
     second_pass_error_line := second_pass_error_line c; DC := DC c;
     IC := IC c; memory_usage := memory_usage c;
     preproc_error := preproc_error c;
     second_pass_error := second_pass_error c; data_memory := data_memory c;
     instruction_memory := v; external_labels := external_labels c;
     labels := labels c; macros := macros c;
     address_update_requests := address_update_requests c;
     lines_maper := lines_maper c; printed := printed c;
     am_file := am_file c |}.

Definition set_external_labels (v : list external) (c : assembler_context) : assembler_context :=
  {| as_file_line := as_file_line c;
     second_pass_error_line := second_pass_error_line c; DC := DC c;
     IC := IC c; memory_usage := memory_usage c;
     preproc_error := preproc_error c;
     second_pass_error := second_pass_error c; data_memory := data_memory c;
     instruction_memory := instruction_memory c; external_labels := v;
     labels := labels c; macros := macros c;
     address_update_requests := address_update_requests c;
     lines_maper := lines_maper c; printed := printed c;
     am_file := am_file c |}.

Definition set_labels (v : list label) (c : assembler_context) : assembler_context :=
  {| as_file_line := as_file_line c;
     second_pass_error_line := second_pass_error_line c; DC := DC c;
     IC := IC c; memory_usage := memory_usage c;
     preproc_error := preproc_error c;
     second_pass_error := second_pass_error c; data_memory := data_memory c;
     instruction_memory := instruction_memory c;
     external_labels := external_labels c; labels := v; macros := macros c;
     address_update_requests := address_update_requests c;
     lines_maper := lines_maper c; printed := printed c;
     am_file := am_file c |}.

Definition set_macros (v : list macro) (c : assembler_context) : assembler_context :=
  {| as_file_line := as_file_line c;
     second_pass_error_line := second_pass_error_line c; DC := DC c;
     IC := IC c; memory_usage := memory_usage c;
     preproc_error := preproc_error c;
     second_pass_error := second_pass_error c; data_memory := data_memory c;
     instruction_memory := instruction_memory c;
     external_labels := external_labels c; labels := labels c; macros := v;
     address_update_requests := address_update_requests c;
     lines_maper := lines_maper c; printed := printed c;
     am_file := am_file c |}.

Definition set_address_update_requests (v : list address_update_request) (c : assembler_context) : assembler_context :=
  {| as_file_line := as_file_line c;
     second_pass_error_line := second_pass_error_line c; DC := DC c;
     IC := IC c; memory_usage := memory_usage c;
     preproc_error := preproc_error c;
     second_pass_error := second_pass_error c; data_memory := data_memory c;
     instruction_memory := instruction_memory c;
     external_labels := external_labels c; labels := labels c;
     macros := macros c; address_update_requests := v;
     lines_maper := lines_maper c; printed := printed c;
     am_file := am_file c |}.

Definition set_lines_maper (v : list lines_LUT) (c : assembler_context) : assembler_context :=
  {| as_file_line := as_file_line c;
     second_pass_error_line := second_pass_error_line c; DC := DC c;
     IC := IC c; memory_usage := memory_usage c;
     preproc_error := preproc_error c;
     second_pass_error := second_pass_error c; data_memory := data_memory c;
     instruction_memory := instruction_memory c;
     external_labels := external_labels c; labels := labels c;
     macros := macros c;
     address_update_requests := address_update_requests c; lines_maper := v;
     printed := printed c; am_file := am_file c |}.

Definition set_printed (v : list diagnostic) (c : assembler_context) : assembler_context :=
  {| as_file_line := as_file_line c;
     second_pass_error_line := second_pass_error_line c; DC := DC c;
     IC := IC c; memory_usage := memory_usage c;
     preproc_error := preproc_error c;
     second_pass_error := second_pass_error c; data_memory := data_memory c;
     instruction_memory := instruction_memory c;
     external_labels := external_labels c; labels := labels c;
     macros := macros c;
     address_update_requests := address_update_requests c;
     lines_maper := lines_maper c; printed := v; am_file := am_file c |}.

Definition set_am_file (v : option string) (c : assembler_context) : assembler_context :=
  {| as_file_line := as_file_line c;
     second_pass_error_line := second_pass_error_line c; DC := DC c;
     IC := IC c; memory_usage := memory_usage c;
     preproc_error := preproc_error c;
     second_pass_error := second_pass_error c; data_memory := data_memory c;
     instruction_memory := instruction_memory c;
     external_labels := external_labels c; labels := labels c;
     macros := macros c;
     address_update_requests := address_update_requests c;
     lines_maper := lines_maper c; printed := printed c; am_file := v |}.

(** An update of a context written out field by field is computed. *)
Arguments set_as_file_line v !c /.
Arguments set_second_pass_error_line v !c /.
Arguments set_DC v !c /.
Arguments set_IC v !c /.
Arguments set_memory_usage v !c /.
Arguments set_preproc_error v !c /.
Arguments set_second_pass_error v !c /.
Arguments set_data_memory v !c /.
Arguments set_instruction_memory v !c /.
Arguments set_external_labels v !c /.
Arguments set_labels v !c /.
Arguments set_macros v !c /.
Arguments set_address_update_requests v !c /.
Arguments set_lines_maper v !c /.
Arguments set_printed v !c /.
Arguments set_am_file v !c /.

(** ** assembler.c: init_assembler *)

Definition init_assembler : assembler_context :=
  {| as_file_line := 0; second_pass_error_line := 0; DC := 0; IC := 0;
     memory_usage := 0; preproc_error := false; second_pass_error := false;
     data_memory := []; instruction_memory := []; external_labels := [];
     labels := []; macros := []; address_update_requests := [];
     lines_maper := []; printed := []; am_file := None |}.

(** ** errors.c

    [print_external_error] and [print_internal_error] (the variant of
    Source_Files/errors.c) print and return; [print_system_error] prints
    and calls exit(1), which the callers below model by an [Exit] result. *)

Definition print_external_error (code : Z) (c : assembler_context) : assembler_context :=
  set_printed (printed c ++ [External_error code]) c.

Definition print_internal_error (code : Z) (c : assembler_context) : assembler_context :=
  set_printed (printed c ++ [Internal_error code]) c.

(** ** addresses.c: add_addr_update_request *)

Definition add_addr_update_request (IC_addr : Z) (op : operand)
    (request_list : list address_update_request) : list address_update_request :=
  request_list ++ [ {| req_operand := op; req_address := IC_addr |} ].

(** ** encoder.c: instruction_encoder *)

(** Bit operations on an [unsigned short] variable: the operands are
    promoted to [int], the result is converted back on assignment. *)
Definition clear_bits (word mask : Z) : Z := ushort (Z.land word (Z.lnot mask)).
Definition insert_bits (word val shift : Z) : Z := ushort (Z.lor word (Z.shiftl val shift)).

Inductive operand_type := DESTINATION | SOURCE.

(** The local variables of [instruction_encoder] that live across the
    operand loop. [machine_code_buff] holds the first [words_count] cells
    of the C array. *)
Record encoder_locals := {
  machine_word : Z;
  mat_regs_machine_word : Z;
  machine_code_buff : list Z;
  local_IC : Z
}.

(** How a piece of a C function body ends: it falls through, it executes
    [return false], or [print_system_error] ends the program. *)
Inductive flow (A : Type) :=
| Continue (a : A) (c : assembler_context)
| Return_false (c : assembler_context)
| Exit (code : Z).
Arguments Continue {A} a c.
Arguments Return_false {A} c.
Arguments Exit {A} code.

Definition out_of_range (v lo hi : Z) : bool := (v >? hi) || (v <? lo).

(** The [switch (operand->type)] of the operand loop. *)
Definition encode_operand_data (op_type : operand_type) (o : operand)
    (l : encoder_locals) (c : assembler_context) : flow encoder_locals :=
  match op_val o with
  | U_val val =>
      if out_of_range val (MIN_NUM OPERAND_DATA_BITS) (MAX_NUM OPERAND_DATA_BITS)
      then Return_false (print_external_error 143 c)
      else Continue
             {| machine_word := insert_bits (machine_word l) val OPERAND_DATA_BITS_SHIFT;
                mat_regs_machine_word := mat_regs_machine_word l;
                machine_code_buff := machine_code_buff l;
                local_IC := local_IC l |} c
  | U_reg reg =>
      match op_type with
      | DESTINATION =>
          if out_of_range reg (MIN_NUM OPERAND_DATA_DEST_REG_BITS)
                              (MAX_NUM OPERAND_DATA_DEST_REG_BITS)
          then Exit 6
          else Continue
                 {| machine_word := insert_bits (machine_word l) reg OPERAND_DATA_DEST_REG_SHIFT;
                    mat_regs_machine_word := mat_regs_machine_word l;
                    machine_code_buff := machine_code_buff l;
                    local_IC := local_IC l |} c
      | SOURCE =>
          if out_of_range reg (MIN_NUM OPERAND_DATA_SRC_REG_BITS)
                              (MAX_NUM OPERAND_DATA_SRC_REG_BITS)
          then Exit 7
          else Continue
                 {| machine_word := insert_bits (machine_word l) reg OPERAND_DATA_SRC_REG_SHIFT;
                    mat_regs_machine_word := mat_regs_machine_word l;
                    machine_code_buff := machine_code_buff l;
                    local_IC := local_IC l |} c
      end
  | U_label _ =>
      Continue l
        (set_address_update_requests
           (add_addr_update_request (local_IC l) o (address_update_requests c)) c)
  | U_matrix _ reg_1 reg_2 _ =>
      let c := set_address_update_requests
                 (add_addr_update_request (local_IC l) o (address_update_requests c)) c in
      let m := clear_bits (mat_regs_machine_word l) OPERAND_DATA_BITS_MASK in
      if out_of_range reg_1 (MIN_NUM OPERAND_DATA_SRC_REG_BITS)
                            (MAX_NUM OPERAND_DATA_SRC_REG_BITS)
         || out_of_range reg_2 (MIN_NUM OPERAND_DATA_DEST_REG_BITS)
                               (MAX_NUM OPERAND_DATA_DEST_REG_BITS)
      then Exit 8
      else
        let m := insert_bits m reg_1 OPERAND_DATA_SRC_REG_SHIFT in
        let m := insert_bits m reg_2 OPERAND_DATA_DEST_REG_SHIFT in
        Continue
          {| machine_word := machine_word l;
             mat_regs_machine_word := m;
             machine_code_buff := machine_code_buff l;
             local_IC := local_IC l |} c
  end.

(** [words_count--; buff[words_count-1] = buff[words_count] | buff[words_count-1]] *)
Definition merge_last_two (buff : list Z) : list Z :=
  match rev buff with
  | last :: before :: front => rev front ++ [ushort (Z.lor last before)]
  | _ => buff
  end.

(** One iteration of [while (i < operands_amount)]. *)
Definition encode_operand_iteration (operands_amount : Z)
    (src_operand dest_operand : option operand) (i : Z)
    (l : encoder_locals) (c : assembler_context) : flow encoder_locals :=
  let '(operand, op_type) :=
    if (i =? 1) || (operands_amount =? 1)
    then (dest_operand, DESTINATION) else (src_operand, SOURCE) in
  let l := {| machine_word := clear_bits (machine_word l) OPERAND_DATA_BITS_MASK;
              mat_regs_machine_word := mat_regs_machine_word l;
              machine_code_buff := machine_code_buff l;
              local_IC := local_IC l |} in
  match operand with
  | None => Return_false (print_internal_error 25 c)
  | Some o =>
      match encode_operand_data op_type o l c with
      | Continue l c =>
          let w := clear_bits (machine_word l) E_R_A_BITS_MASK in
          if out_of_range (encoding_val (op_encoding o)) U_MIN_NUM (U_MAX_NUM E_R_A_BITS)
          then Exit 9
          else
            let w := insert_bits w (encoding_val (op_encoding o)) E_R_A_BITS_SHIFT in
            let buff := machine_code_buff l ++ [Z.land w WORD_BIT_MASK] in
            let ic := uint (local_IC l + 1) in
            (* two register operands share one word *)
            let '(buff, ic) :=
              if (i =? 1) && (operands_amount =? 2) then
                match src_operand, dest_operand with
                | Some s, Some d =>
                    match type s, type d with
                    | REGISTER_ACCESS, REGISTER_ACCESS =>
                        (merge_last_two buff, uint (ic - 1))
                    | _, _ => (buff, ic)
                    end
                | _, _ => (buff, ic)
                end
              else (buff, ic) in
            (* the registers word of a matrix operand *)
            match op_val o with
            | U_matrix _ _ _ reg_encoding =>
                let m := clear_bits (mat_regs_machine_word l) E_R_A_BITS_MASK in
                let m := insert_bits m (encoding_val reg_encoding) E_R_A_BITS_SHIFT in
                Continue
                  {| machine_word := w; mat_regs_machine_word := m;
                     machine_code_buff := buff ++ [Z.land m WORD_BIT_MASK];
                     local_IC := uint (ic + 1) |} c
            | _ =>
                Continue
                  {| machine_word := w; mat_regs_machine_word := mat_regs_machine_word l;
                     machine_code_buff := buff; local_IC := ic |} c
            end
      | Return_false c => Return_false c
      | Exit code => Exit code
      end
  end.

(** [while (i < operands_amount) { ...; i++; }], [remaining] iterations
    from index [i]. *)
Fixpoint encode_operands (remaining : nat) (operands_amount : Z)
    (src_operand dest_operand : option operand) (i : Z)
    (l : encoder_locals) (c : assembler_context) : flow encoder_locals :=
  match remaining with
  | O => Continue l c
  | S remaining' =>
      match encode_operand_iteration operands_amount src_operand dest_operand i l c with
      | Continue l c =>
          encode_operands remaining' operands_amount src_operand dest_operand (i + 1) l c
      | other => other
      end
  end.

(** The instruction word: opcode, addressing modes, ERA. *)
Definition encode_instruction_word (op : opcode)
    (src_operand dest_operand : option operand) : Z + Z :=
  let w := 0 in
  if out_of_range (opcode_code op) U_MIN_NUM (U_MAX_NUM OPCODE_BITS) then inr 2 else
  let w := insert_bits w (opcode_code op) OPCODE_BITS_SHIFT in
  let w := clear_bits w SRC_ADDR_MODE_BITS_MASK in
  match
    match src_operand with
    | Some s =>
        if out_of_range (addr_Mode_val (type s)) U_MIN_NUM (U_MAX_NUM SRC_ADDR_MODE_BITS)
        then inr 3
        else inl (insert_bits w (addr_Mode_val (type s)) SRC_ADDR_MODE_BITS_SHIFT)
    | None => inl w
    end
  with
  | inr code => inr code
  | inl w =>
      let w := clear_bits w DEST_ADDR_MODE_BITS_MASK in
      match
        match dest_operand with
        | Some d =>
            if out_of_range (addr_Mode_val (type d)) U_MIN_NUM (U_MAX_NUM DEST_ADDR_MODE_BITS)
            then inr 4
            else inl (insert_bits w (addr_Mode_val (type d)) DEST_ADDR_MODE_BITS_SHIFT)
        | None => inl w
        end
      with
      | inr code => inr code
      | inl w =>
          let w := clear_bits w E_R_A_BITS_MASK in
          if out_of_range (encoding_val (opcode_encoding op)) U_MIN_NUM (U_MAX_NUM E_R_A_BITS)
          then inr 5
          else inl (Z.land (insert_bits w (encoding_val (opcode_encoding op))
                                         E_R_A_BITS_SHIFT) WORD_BIT_MASK)
      end
  end.

Definition instruction_encoder (op : opcode)
    (src_operand dest_operand : option operand)
    (c : assembler_context) : flow (list Z) :=
  match encode_instruction_word op src_operand dest_operand with
  | inr code => Exit code
  | inl w =>
      let l := {| machine_word := 0; mat_regs_machine_word := 0;
                  machine_code_buff := [w]; local_IC := uint (IC c + 1) |} in
      let amount := ushort (operands_amount op) in
      match encode_operands (Z.to_nat amount) amount src_operand dest_operand 0 l c with
      | Continue l c => Continue (machine_code_buff l) c
      | Return_false c => Return_false c
      | Exit code => Exit code
      end
  end.

(** encoder.c: encode_label_address. The result is the encoded word, or
    the code of the system error that ends the program. *)
Definition encode_label_address (new_label_addr : Z) (encoding : encoding_type) : Z + Z :=
  if new_label_addr >? U_MAX_NUM OPERAND_DATA_BITS then inr 10
  else if encoding_val encoding >? U_MAX_NUM E_R_A_BITS then inr 9
  else
    let w := clear_bits 0 OPERAND_DATA_BITS_MASK in
    let w := ushort (Z.lor w (uint (Z.shiftl new_label_addr OPERAND_DATA_BITS_SHIFT))) in
    let w := clear_bits w E_R_A_BITS_MASK in
    inl (insert_bits w (encoding_val encoding) E_R_A_BITS_SHIFT).

(** instructions.c: get_opcode_info, get_reg_num, try_parse_reg_operand *)

Definition get_opcode_info (opcode_name : string) : option opcode :=
  find (fun o => String.eqb (name o) opcode_name) opcode_table.

Fixpoint index_of (str : string) (table : list string) (i : Z) : Z :=
  match table with
  | [] => -1
  | name :: table' => if String.eqb str name then i else index_of str table' (i + 1)
  end.

Definition get_reg_num (str : string) : Z := index_of str registers 0.

Definition is_register (str : string) : bool := negb (get_reg_num str =? -1).

(** [try_parse_reg_operand] leaves [file_line] as it was in the operand
    struct it fills. *)
Definition try_parse_reg_operand (operand_str : string) (o : operand) : option operand :=
  let reg_num := get_reg_num operand_str in
  if negb (reg_num =? -1)
  then Some {| op_val := U_reg reg_num; op_encoding := ABSOLUTE; file_line := file_line o |}
  else None.

(** ** labels.c *)

(** [add_label] fills the name, the address, the type, the definition and
    the link of the node it gets from [handle_malloc] and never writes
    [is_entry]: the flag of the new label is what the cell held.
    [is_entry_cell] is that content, as the tests [if (l->is_entry)] read
    it: true for a cell that is not zero. *)
Definition add_label (new_name : string) (address : Z) (t : addr_type)
    (definition : def_type) (is_entry_cell : bool) (labels_list : list label)
    : list label :=
  labels_list ++
  [ {| label_name := new_name; label_address := address; label_type := t;
       label_definition := definition; is_entry := is_entry_cell |} ].

Definition get_label (name : string) (labels_list : list label) : option label :=
  find (fun l => String.eqb (label_name l) name) labels_list.

Definition is_label_defined (name : string) (labels_list : list label) : bool :=
  match get_label name labels_list with Some _ => true | None => false end.

Definition get_label_address (name : string) (labels_list : list label) : Z :=
  match get_label name labels_list with Some l => label_address l | None => 0 end.

(** ** externals.c *)

Definition add_external_usage (label_name0 : string) (mem_addr : Z)
    (externals_list : list external) : list external :=
  externals_list ++ [ {| ext_label_name := label_name0; mem_address := mem_addr |} ].

(** ** The code and data images, relocation and the second pass

    [MEMORY_AVAILABLE_SPACE] and [MEMORY_ADDRESS_OFFSET] are constants of
    config.h, which is not part of the source tree; everything below holds
    for any value of them. *)

Section Memory.

Variable MEMORY_AVAILABLE_SPACE : Z.
Variable MEMORY_ADDRESS_OFFSET : Z.

(** instruction_memory.c *)
Definition add_instruction_to_memory (encoded_val : Z)
    (c : assembler_context) : bool * assembler_context :=
  if memory_usage c =? MEMORY_AVAILABLE_SPACE then (false, c)
  else
    let node := {| inst_value := encoded_val; inst_address := IC c |} in
    (true,
     set_memory_usage (uint (memory_usage c + 1))
       (set_IC (uint (IC c + 1))
          (set_instruction_memory (instruction_memory c ++ [node]) c))).

(** data_memory.c *)
Definition add_data_to_memory (val : Z)
    (c : assembler_context) : bool * assembler_context :=
  if memory_usage c >=? MEMORY_AVAILABLE_SPACE then (false, c)
  else
    let node := {| data_value := val; data_address := DC c |} in
    (true,
     set_memory_usage (uint (memory_usage c + 1))
       (set_DC (uint (DC c + 1))
          (set_data_memory (data_memory c ++ [node]) c))).

(** instructions.c: handle_instruction_line, the loop that stores the
    encoded words ([for (i = 0; i < count; i++)]). *)
Fixpoint add_instruction_codes (out : list Z) (c : assembler_context)
    : bool * assembler_context :=
  match out with
  | [] => (true, c)
  | w :: out' =>
      match add_instruction_to_memory w c with
      | (true, c) => add_instruction_codes out' c
      | (false, c) =>
          if memory_usage c =? MEMORY_AVAILABLE_SPACE
          then (false, set_memory_usage (uint (memory_usage c + 1))
                         (print_external_error 103 c))
          else (false, c)
      end
  end.

(** instructions.c: [AM_BIT(operand->type) & opcode_info.dest] and its
    like for the source, the tests of handle_one_operand_line and
    handle_two_operands_line on the addressing mode of a parsed operand. *)
Definition mode_allowed (o : operand) (allowed : Z) : bool :=
  negb (Z.land (AM_BIT (type o)) allowed =? 0).

(** What handle_one_operand_line and handle_two_operands_line do with
    the operand structs, by the number of operands of the opcode as the
    [switch] of handle_instruction_line takes it: a missing struct is
    internal error 25; the addressing mode of the source is tested before
    that of the destination, error 115 is for the source and 116 for the
    destination. Any other number of operands is internal error 26. *)
Definition check_operand_modes (opcode_info : opcode)
    (src_operand dest_operand : option operand)
    (c : assembler_context) : flow unit :=
  match operands_amount opcode_info with
  | 0 => Continue tt c
  | 1 =>
      match dest_operand with
      | Some d =>
          if negb (mode_allowed d (opcode_dest opcode_info))
          then Return_false (print_external_error 116 c)
          else Continue tt c
      | None => Return_false (print_internal_error 25 c)
      end
  | 2 =>
      match src_operand, dest_operand with
      | Some s, Some d =>
          if negb (mode_allowed s (opcode_source opcode_info))
          then Return_false (print_external_error 115 c)
          else if negb (mode_allowed d (opcode_dest opcode_info))
          then Return_false (print_external_error 116 c)
          else Continue tt c
      | _, _ => Return_false (print_internal_error 25 c)
      end
  | _ => Return_false (print_internal_error 26 c)
  end.

(** instructions.c: handle_instruction_line from the point where the
    opcode descriptor has been found and the operands of the line have
    been extracted and parsed: the tests of the addressing modes, with
    which handle_one_operand_line and handle_two_operands_line end, the
    call of [instruction_encoder] and what follows it. [src_operand] and
    [dest_operand] are the operand structs as the [switch] over the
    number of operands fills them, [None] for a pointer it leaves NULL.
    What comes before is a matter of the text of the line: the opcode
    name (errors 101 and 100), the number of operands found (105, 106,
    117) and their parsing (113, 114). [Continue tt c] stands for
    [return true]. *)
Definition handle_instruction_line (opcode_info : opcode)
    (src_operand dest_operand : option operand)
    (c : assembler_context) : flow unit :=
  match check_operand_modes opcode_info src_operand dest_operand c with
  | Exit code => Exit code
  | Return_false c => Return_false c
  | Continue _ c =>
      match instruction_encoder opcode_info src_operand dest_operand c with
      | Exit code => Exit code
      | Return_false c => Return_false c
      | Continue out c =>
          if memory_usage c <=? MEMORY_AVAILABLE_SPACE then
            match add_instruction_codes out c with
            | (true, c) => Continue tt c
            | (false, c) => Return_false c
            end
          else Continue tt c
      end
  end.

(** directives.c: handle_data_directives_line, the part headed
    "INSERT THE VALUES TO DATA MEMORY". *)
Fixpoint insert_data_values (data : list Z) (c : assembler_context)
    : bool * assembler_context :=
  match data with
  | [] => (true, c)
  | v :: data' =>
      if out_of_range v (MIN_NUM WORD_BIT_SIZE) (MAX_NUM WORD_BIT_SIZE)
      then (false, print_external_error 123 c)
      else
        match add_data_to_memory v c with
        | (true, c) => insert_data_values data' c
        | (false, c) =>
            if memory_usage c =? MEMORY_AVAILABLE_SPACE
            then (false, print_external_error 103 c)
            else (false, c)
        end
  end.

Definition insert_to_data_memory (data : list Z) (c : assembler_context)
    : bool * assembler_context :=
  if memory_usage c <=? MEMORY_AVAILABLE_SPACE
  then insert_data_values data c
  else (true, c).

(** addresses.c: relocation *)

Definition update_instruction_addresses (c : assembler_context) : assembler_context :=
  set_instruction_memory
    (map (fun n => {| inst_value := inst_value n;
                      inst_address := uint (inst_address n + MEMORY_ADDRESS_OFFSET) |})
         (instruction_memory c)) c.

Definition update_data_addresses (c : assembler_context) : assembler_context :=
  set_data_memory
    (map (fun n => {| data_value := data_value n;
                      data_address :=
                        uint (data_address n + uint (IC c + MEMORY_ADDRESS_OFFSET)) |})
         (data_memory c)) c.

Definition relocate_label (ic : Z) (l : label) : label :=
  match label_type l with
  | DATA =>
      {| label_name := label_name l;
         label_address := uint (label_address l + uint (ic + MEMORY_ADDRESS_OFFSET));
         label_type := label_type l; label_definition := label_definition l;
         is_entry := is_entry l |}
  | CODE =>
      {| label_name := label_name l;
         label_address := uint (label_address l + MEMORY_ADDRESS_OFFSET);
         label_type := label_type l; label_definition := label_definition l;
         is_entry := is_entry l |}
  | UNKNOWN_ADDR_TYPE => l
  end.

Definition update_labels_addresses (c : assembler_context) : assembler_context :=
  set_labels (map (relocate_label (IC c)) (labels c)) c.

Definition update_request_list_addresses
    (request_list : list address_update_request) : list address_update_request :=
  map (fun r => {| req_operand := req_operand r;
                   req_address := uint (req_address r + MEMORY_ADDRESS_OFFSET) |})
      request_list.

(** addresses.c: process_addr_update_requests *)

Definition request_label_name (o : operand) : option string :=
  match op_val o with
  | U_matrix label _ _ _ => Some label
  | U_label label => Some label
  | _ => None
  end.

(** [while (instruction_node && instruction_node->address != addr)] *)
Definition find_instruction_node (addr : Z) (mem : list inst_mem) : option inst_mem :=
  find (fun n => inst_address n =? addr) mem.

(** [instruction_node->value = v] for the node found by the search above. *)
Fixpoint set_instruction_value (addr v : Z) (mem : list inst_mem) : list inst_mem :=
  match mem with
  | [] => []
  | n :: mem' =>
      if inst_address n =? addr
      then {| inst_value := v; inst_address := inst_address n |} :: mem'
      else n :: set_instruction_value addr v mem'
  end.

(** [l[i] = x], nothing out of range. *)
Fixpoint replace_nth {A : Type} (i : nat) (x : A) (l : list A) : list A :=
  match l, i with
  | [], _ => []
  | _ :: l', O => x :: l'
  | y :: l', S i' => y :: replace_nth i' x l'
  end.

(** The loop over the requests: [todo] is the list from the current node
    on, [i] the position of that node in the request list of the context,
    where the encoding written into its operand is recorded. *)
Fixpoint process_requests (i : nat) (todo : list address_update_request)
    (c : assembler_context) : flow unit :=
  match todo with
  | [] => Continue tt c
  | r :: rest =>
      match request_label_name (req_operand r) with
      | None => Return_false (print_internal_error 28 c)
      | Some label_name =>
          let inst_addr_to_update := req_address r in
          match instruction_memory c with
          | [] => Return_false (print_internal_error 25 c)
          | _ :: _ =>
              match find_instruction_node inst_addr_to_update (instruction_memory c) with
              | None => Return_false (print_internal_error 29 c)
              | Some _ =>
                  (* is_label_defined, then get_label: the same search *)
                  match get_label label_name (labels c) with
                  | Some l =>
                      let new_label_addr := get_label_address label_name (labels c) in
                      let '(encoding, c) :=
                        match label_definition l with
                        | EXTERN =>
                            (EXTERNAL,
                             set_external_labels
                               (add_external_usage label_name inst_addr_to_update
                                  (external_labels c)) c)
                        | NORMAL => (RELOCATABLE, c)
                        end in
                      let r' := {| req_operand := set_op_encoding encoding (req_operand r);
                                   req_address := req_address r |} in
                      let c := set_address_update_requests
                                 (replace_nth i r' (address_update_requests c)) c in
                      match encode_label_address new_label_addr encoding with
                      | inr code => Exit code
                      | inl encoded_label_addr =>
                          process_requests (S i) rest
                            (set_instruction_memory
                               (set_instruction_value inst_addr_to_update
                                  encoded_label_addr (instruction_memory c)) c)
                      end
                  | None =>
                      Return_false
                        (print_external_error 146
                           (set_second_pass_error_line (file_line (req_operand r)) c))
                  end
              end
          end
      end
  end.

Definition process_addr_update_requests (c : assembler_context) : flow unit :=
  let c := set_address_update_requests
             (update_request_list_addresses (address_update_requests c)) c in
  process_requests 0 (address_update_requests c) c.

(** second_pass.c: execute_second_pass from the relocation on. The loop
    over the lines of the .am file, which only marks .entry labels and
    may set [second_pass_error], is not modelled: [c] is the context it
    leaves. *)
Definition execute_second_pass (c : assembler_context) : flow unit :=
  let c := update_instruction_addresses c in
  let c := update_data_addresses c in
  let c := update_labels_addresses c in
  match process_addr_update_requests c with
  | Continue _ c =>
      if negb (second_pass_error c) then Continue tt c
      else Return_false (set_second_pass_error true c)
  | Return_false c => Return_false (set_second_pass_error true c)
  | Exit code => Exit code
  end.

(** ** directives.c *)

(** <ctype.h>, "C" locale *)
Definition char_val (ch : ascii) : Z := Z.of_nat (nat_of_ascii ch).
Definition isdigit (ch : ascii) : bool := (48 <=? char_val ch) && (char_val ch <=? 57).
Definition isalpha (ch : ascii) : bool :=
  ((65 <=? char_val ch) && (char_val ch <=? 90))
  || ((97 <=? char_val ch) && (char_val ch <=? 122)).
Definition isalnum (ch : ascii) : bool := isalpha ch || isdigit ch.
Definition isspace (ch : ascii) : bool :=
  (char_val ch =? 32) || ((9 <=? char_val ch) && (char_val ch <=? 13)).

(** The loops that step over white space. *)
Fixpoint skip_spaces (p : string) : string :=
  match p with
  | String ch p' => if isspace ch then skip_spaces p' else p
  | EmptyString => EmptyString
  end.

Fixpoint only_spaces (p : string) : bool :=
  match p with
  | String ch p' => isspace ch && only_spaces p'
  | EmptyString => true
  end.

(** The double quote character. *)
Definition quote_char : ascii := ascii_of_nat 34.

(** extract_directive_string: the scan between the quotes. *)
Inductive quoted :=
| Closed (buff rest : string)     (* the closing quote was found *)
| Illegal_char
| Unterminated.

Fixpoint read_quoted (p buff : string) : quoted :=
  match p with
  | EmptyString => Unterminated
  | String ch p' =>
      if Ascii.eqb ch quote_char then Closed buff p'
      else if isalnum ch || isspace ch
           then read_quoted p' (String.append buff (String ch EmptyString))
           else Illegal_char
  end.

Definition extract_directive_string (line : string) (c : assembler_context)
    : option string * assembler_context :=
  match skip_spaces line with
  | EmptyString => (None, print_external_error 128 c)
  | String ch p =>
      if negb (Ascii.eqb ch quote_char) then (None, print_external_error 124 c)
      else
        match read_quoted p EmptyString with
        | Illegal_char => (None, print_external_error 125 c)
        | Unterminated => (None, print_external_error 126 c)
        | Closed buff rest =>
            if only_spaces rest then (Some buff, c)
            else (None, print_external_error 127 c)
        end
  end.

(** The characters of the string as ints, with the terminating NUL. *)
Definition parse_string_directive (line : string) (c : assembler_context)
    : option (list Z) * assembler_context :=
  match extract_directive_string (skip_spaces line) c with
  | (None, c) => (None, c)
  | (Some result, c) => (Some (map char_val (list_ascii_of_string result) ++ [0]), c)
  end.

(** extract_directive_numbers *)

Fixpoint span_digits (p : string) : string * string :=
  match p with
  | String ch p' =>
      if isdigit ch
      then let '(digits, rest) := span_digits p' in (String ch digits, rest)
      else (EmptyString, p)
  | EmptyString => (EmptyString, EmptyString)
  end.

Definition decimal_value (digits : string) : Z :=
  fold_left (fun acc ch => 10 * acc + (char_val ch - 48))
            (list_ascii_of_string digits) 0.

(** [atoi] on an optional sign followed by digits. The result is an
    [int]. For a numeral that does not fit an [int] the C standard leaves
    the result open; the model follows the GNU C library on a machine
    with a [long] of 64 bits: [atoi] is [strtol], which stops at
    [LONG_MIN] and [LONG_MAX], converted to [int], which keeps the low 32
    bits. So 4294967297 is read as 1. *)
Definition LONG_MAX : Z := 2 ^ 63 - 1.
Definition LONG_MIN : Z := - 2 ^ 63.

Definition strtol (value : Z) : Z := Z.max LONG_MIN (Z.min LONG_MAX value).

Definition int_of_long (value : Z) : Z := (value + 2 ^ 31) mod 2 ^ 32 - 2 ^ 31.

Definition atoi (sign : option ascii) (digits : string) : Z :=
  int_of_long
    (strtol
       match sign with
       | Some "-"%char => - decimal_value digits
       | _ => decimal_value digits
       end).

Definition starts_with (test : ascii -> bool) (p : string) : bool :=
  match p with String ch _ => test ch | EmptyString => false end.

(** The [while] loop over the line, [expect_number] telling
    EXPECT_NUMBER from EXPECT_AFTER_NUMBER. Every iteration that
    continues steps over at least one character, so a fuel above the
    length of the line is never used up. *)
Fixpoint extract_numbers_loop (fuel : nat) (expect_number : bool) (p : string)
    (arr : list Z) (c : assembler_context) : option (list Z) * assembler_context :=
  match fuel with
  | O => (None, c)
  | S fuel' =>
      match p with
      | EmptyString =>
          if expect_number then (None, print_external_error 133 c)
          else (Some arr, c)
      | String ch p' =>
          if expect_number then
            let '(sign, q) :=
              if Ascii.eqb ch "+" || Ascii.eqb ch "-" then (Some ch, p') else (None, p) in
            match sign with
            | Some _ =>
                if negb (starts_with isdigit q) then (None, print_external_error 130 c)
                else
                  let '(digits, r) := span_digits q in
                  if starts_with (Ascii.eqb ".") r then (None, print_external_error 173 c)
                  else if starts_with isalpha r then (None, print_external_error 174 c)
                  else extract_numbers_loop fuel' false r (arr ++ [atoi sign digits]) c
            | None =>
                if negb (starts_with isdigit q) then (None, print_external_error 131 c)
                else
                  let '(digits, r) := span_digits q in
                  if starts_with (Ascii.eqb ".") r then (None, print_external_error 173 c)
                  else if starts_with isalpha r then (None, print_external_error 174 c)
                  else extract_numbers_loop fuel' false r (arr ++ [atoi sign digits]) c
            end
          else
            match skip_spaces p with
            | String "," q => extract_numbers_loop fuel' true (skip_spaces q) arr c
            | EmptyString => (Some arr, c)
            | _ => (None, print_external_error 132 c)
            end
      end
  end.

(** The result is the array of numbers, [count] being its length; on an
    empty line the count is 0 and no array is handed out. *)
Definition extract_directive_numbers (line : string) (c : assembler_context)
    : option (list Z) * assembler_context :=
  match skip_spaces line with
  | EmptyString => (Some [], c)
  | p => extract_numbers_loop (S (String.length p)) true p [] c
  end.

Definition parse_data_directive (line : string) (c : assembler_context)
    : option (list Z) * assembler_context :=
  match extract_directive_numbers (skip_spaces line) c with
  | (None, c) => (None, c)
  | (Some [], c) => (None, print_external_error 129 c)
  | (Some result, c) => (Some result, c)
  end.

(** What [sscanf(token, "[%d][%d]%n", &row, &col, &n)] and the test on
    [token[n]] make of the first token of a .mat line. *)
Inductive mat_size_scan :=
| Size_missing                 (* no token at all: error 134 *)
| Size_invalid                 (* the token is not "[int][int]": error 135 *)
| Size (row col : Z).          (* both ints were read *)

(** Modelled from the spec: directives.c uses [mat_size] without declaring
    or assigning it, so its declaration is missing from the source;
    directives.h documents the count handed out as "size of the matrix
    (rows*cols)" and the spec speaks of rows*cols values. *)
Definition mat_size (row col : Z) : Z := row * col.

(** parse_mat_directive, from the scan of the size token on; [line] is
    what follows the token. *)
Definition parse_mat_directive (size : mat_size_scan) (line : string)
    (c : assembler_context) : option (list Z) * assembler_context :=
  match size with
  | Size_missing => (None, print_external_error 134 c)
  | Size_invalid => (None, print_external_error 135 c)
  | Size row col =>
      if (row =? 0) || (col =? 0) then (None, print_external_error 136 c)
      else
        match extract_directive_numbers (skip_spaces line) c with
        | (None, c) => (None, c)
        | (Some result, c) =>
            let count := Z.of_nat (List.length result) in
            if count >? mat_size row col then (None, print_external_error 137 c)
            else
              (* pad the cells without a value with 0 *)
              (Some (result ++ repeat 0 (Z.to_nat (mat_size row col - count))), c)
        end
  end.

(** A data directive line after the directive name has been recognised:
    [rest] is the line after the name (for .mat, after the size token). *)
Inductive data_directive_line :=
| Data_line (rest : string)
| String_line (rest : string)
| Mat_line (size : mat_size_scan) (rest : string).

Definition handle_data_directives_line (line : data_directive_line)
    (c : assembler_context) : bool * assembler_context :=
  match
    match line with
    | Data_line rest => parse_data_directive rest c
    | Mat_line size rest => parse_mat_directive size rest c
    | String_line rest => parse_string_directive rest c
    end
  with
  | (None, c) => (false, c)
  | (Some data, c) => insert_to_data_memory data c
  end.

(** ** util.c and pre_processor.c

    [NAME_MAX_LEN] is a constant of config.h. *)

Variable NAME_MAX_LEN : Z.

(** The tokens successive calls of [strtok] return for a line. *)
Definition is_delim (delims : string) (ch : ascii) : bool :=
  existsb (Ascii.eqb ch) (list_ascii_of_string delims).

Fixpoint strtok_from (delims p token : string) : list string :=
  match p with
  | EmptyString =>
      match token with EmptyString => [] | _ => [token] end
  | String ch p' =>
      if is_delim delims ch then
        match token with
        | EmptyString => strtok_from delims p' EmptyString
        | _ => token :: strtok_from delims p' EmptyString
        end
      else strtok_from delims p' (String.append token (String ch EmptyString))
  end.

Definition strtok (line delims : string) : list string :=
  strtok_from delims line EmptyString.

(** Space, tab and newline: the delimiters of the preprocessor. *)
Definition blanks : string :=
  String " " (String (ascii_of_nat 9) (String (ascii_of_nat 10) EmptyString)).

Fixpoint all_chars (test : ascii -> bool) (s : string) : bool :=
  match s with
  | EmptyString => true
  | String ch s' => test ch && all_chars test s'
  end.

Definition is_name_valid (str : string) : bool :=
  if Z.of_nat (String.length str) >? NAME_MAX_LEN then false
  else
    match str with
    | EmptyString => false
    | String ch str' =>
        isalpha ch && all_chars (fun x => isalnum x || Ascii.eqb x "_") str'
    end.

Definition in_table (str : string) (table : list string) : bool :=
  existsb (String.eqb str) table.

Definition is_data_directive (str : string) : bool := in_table str data_directives_table.
Definition is_attribute_directive (str : string) : bool :=
  in_table str attributes_directives_table.
Definition is_directive (str : string) : bool :=
  is_data_directive str || is_attribute_directive str.
Definition is_opcode (str : string) : bool :=
  existsb (fun o => String.eqb str (name o)) opcode_table.
Definition is_PP_saved_name (str : string) : bool := in_table str macro_declaration.

Definition get_macro (str : string) (macro_list : list macro) : option macro :=
  find (fun m => String.eqb (macro_name m) str) macro_list.

Definition is_macro_defined (str : string) (macro_list : list macro) : bool :=
  match get_macro str macro_list with Some _ => true | None => false end.

Definition is_sys_saved_name (str : string) : bool :=
  is_directive (String "." str) || is_opcode str || is_register str
  || is_PP_saved_name str.

Definition is_used_name (str : string) (c : assembler_context) : bool :=
  is_label_defined str (labels c) || is_macro_defined str (macros c).

Definition can_add_name (str : string) (c : assembler_context) : bool :=
  negb (is_sys_saved_name str || is_used_name str c).

Definition flag_preproc_error (code : Z) (c : assembler_context) : assembler_context :=
  set_preproc_error true (print_external_error code c).

Definition is_start_of_macro (line : string) (c : assembler_context)
    : option string * assembler_context :=
  match strtok line blanks with
  | [] => (None, c)
  | token :: more =>
      if negb (String.eqb token "mcro") then
        if String.eqb token "mcroend" then (None, flag_preproc_error 177 c)
        else (None, c)
      else
        match more with
        | [] => (None, flag_preproc_error 176 c)
        | macro_name0 :: [] => (Some macro_name0, c)
        | _ :: _ :: _ => (None, flag_preproc_error 149 c)
        end
  end.

Definition is_end_of_macro (line : string) (c : assembler_context)
    : bool * assembler_context :=
  match strtok line blanks with
  | token :: more =>
      if String.eqb token "mcroend" then
        match more with
        | [] => (true, c)
        | _ :: _ => (true, flag_preproc_error 150 c)
        end
      else (false, c)
  | [] => (false, c)
  end.

(** read_macro_content. The file is the list of the lines [fgets] hands
    out, each with its newline; the result carries the lines that are
    left to read. *)
Fixpoint read_macro_content_from (fp_in : list string) (content : string)
    (lines_count : Z) (c : assembler_context)
    : option (string * Z) * list string * assembler_context :=
  match fp_in with
  | [] => (None, [], flag_preproc_error 152 c)
  | temp_line :: fp_in' =>
      let c := set_as_file_line (as_file_line c + 1) c in
      let lines_count := lines_count + 1 in
      match is_end_of_macro temp_line c with
      | (true, c) =>
          match content with
          | EmptyString => (None, fp_in', flag_preproc_error 151 c)
          | _ => (Some (content, lines_count), fp_in', c)
          end
      | (false, c) =>
          read_macro_content_from fp_in' (String.append content temp_line) lines_count c
      end
  end.

Definition read_macro_content (fp_in : list string) (c : assembler_context)
    : option (string * Z) * list string * assembler_context :=
  read_macro_content_from fp_in EmptyString 0 c.

Definition add_macro (name0 content : string) (lines_amount : Z)
    (macro_list : list macro) (define_line0 : Z) : list macro :=
  macro_list ++
  [ {| macro_name := name0; macro_content := content;
       macro_lines := lines_amount; define_line := define_line0 |} ].

Definition is_macro_call (line : string) (macro_list : list macro)
    (c : assembler_context) : option macro * assembler_context :=
  match strtok line blanks with
  | token :: more =>
      match get_macro token macro_list with
      | Some macro_node =>
          match more with
          | [] => (Some macro_node, c)
          | _ :: _ => (None, flag_preproc_error 153 c)
          end
      | None => (None, c)
      end
  | [] => (None, c)
  end.

Definition add_lines_to_map (original_line new_line : Z)
    (lines_map : list lines_LUT) : list lines_LUT :=
  lines_map ++ [ {| orign_line_num := original_line; new_line_num := new_line |} ].

(** [i = 1; while (i < macro->lines) { add_lines_to_map(macro_line,
    new_line_num, ...); new_line_num++; i++; macro_line++; }] *)
Fixpoint map_macro_lines (iterations : nat) (macro_line new_line : Z)
    (lines_map : list lines_LUT) : Z * list lines_LUT :=
  match iterations with
  | O => (new_line, lines_map)
  | S iterations' =>
      map_macro_lines iterations' (macro_line + 1) (new_line + 1)
        (add_lines_to_map macro_line new_line lines_map)
  end.

(** The [while (fgets(...))] loop of execute_preprocessor. [None] stands
    for [goto cleanUp]. Every iteration reads at least one line, so a
    fuel of the number of lines is never used up. *)
Fixpoint preprocess_lines (fuel : nat) (as_file : list string)
    (am_file_content : string) (origin_line_num new_line : Z)
    (c : assembler_context) : option string * assembler_context :=
  match fuel, as_file with
  | _, [] => (Some am_file_content, c)
  | O, _ :: _ => (None, c)
  | S fuel', line :: as_file' =>
      let c := set_as_file_line (as_file_line c + 1) c in
      let new_line := new_line + 1 in
      let origin_line_num := origin_line_num + 1 in
      match is_start_of_macro line c with
      | (Some macro_name0, c) =>
          let c := if negb (is_name_valid macro_name0)
                   then print_external_error 148 c else c in
          let c := if negb (can_add_name macro_name0 c)
                   then print_external_error 147 c else c in
          match read_macro_content as_file' c with
          | (None, _, c) => (None, c)
          | (Some (content, macro_lines_count), as_file'', c) =>
              let c := set_macros
                         (add_macro macro_name0 content macro_lines_count (macros c)
                            (as_file_line c - macro_lines_count)) c in
              preprocess_lines fuel' as_file'' am_file_content
                (origin_line_num + macro_lines_count) (new_line - 1) c
          end
      | (None, c) =>
          match is_macro_call line (macros c) c with
          | (Some m, c) =>
              let content :=
                match get_macro (macro_name m) (macros c) with
                | Some m' => macro_content m'
                | None => EmptyString
                end in
              let '(new_line, lines_map) :=
                map_macro_lines (Z.to_nat (macro_lines m - 1)) (define_line m + 1)
                  new_line (lines_maper c) in
              preprocess_lines fuel' as_file' (String.append am_file_content content)
                origin_line_num (new_line - 1) (set_lines_maper lines_map c)
          | (None, c) =>
              preprocess_lines fuel' as_file' (String.append am_file_content line)
                origin_line_num new_line
                (set_lines_maper
                   (add_lines_to_map origin_line_num new_line (lines_maper c)) c)
          end
      end
  end.

(** execute_preprocessor: [create_file] writes the .am file. *)
Definition execute_preprocessor (as_file : list string) (c : assembler_context)
    : bool * assembler_context :=
  match preprocess_lines (List.length as_file) as_file EmptyString 0 0 c with
  | (Some am_file_content, c) =>
      if negb (preproc_error c) then (true, set_am_file (Some am_file_content) c)
      else (false, set_preproc_error true c)
  | (None, c) => (false, set_preproc_error true c)
  end.

(** assembler.c: run_assembler for one source file, as far as the first
    pass: the stages that are started, in order. *)
Inductive stage := PREPROCESSOR | FIRST_PASS.

Definition run_assembler (as_file : list string) : list stage * assembler_context :=
  match execute_preprocessor as_file init_assembler with
  | (false, c) => ([PREPROCESSOR], c)
  | (true, c) => ([PREPROCESSOR; FIRST_PASS], c)
  end.

(** ** Notions the statements below use *)

(** The [bits]-bit field of a word that starts at bit [shift]. *)
Definition bit_field (word shift bits : Z) : Z :=
  Z.land (Z.shiftr word shift) (Z.ones bits).

Definition opcode_field (w : Z) : Z := bit_field w OPCODE_BITS_SHIFT OPCODE_BITS.
Definition src_mode_field (w : Z) : Z :=
  bit_field w SRC_ADDR_MODE_BITS_SHIFT SRC_ADDR_MODE_BITS.
Definition dest_mode_field (w : Z) : Z :=
  bit_field w DEST_ADDR_MODE_BITS_SHIFT DEST_ADDR_MODE_BITS.
Definition era_field (w : Z) : Z := bit_field w E_R_A_BITS_SHIFT E_R_A_BITS.
Definition data_field (w : Z) : Z := bit_field w OPERAND_DATA_BITS_SHIFT OPERAND_DATA_BITS.

(** The addressing-mode tag of an operand slot, 0 when the slot is empty. *)
Definition mode_tag (o : option operand) : Z :=
  match o with Some x => addr_Mode_val (type x) | None => 0 end.

(** The operand structs are those the [switch] of handle_instruction_line
    fills for the opcode, a destination for one operand, a source and a
    destination for two and none otherwise, and their addressing modes
    are among those the opcode table gives for the opcode. *)
Definition operand_modes_ok (op : opcode) (src dest : option operand) : bool :=
  match operands_amount op, src, dest with
  | 0, None, None => true
  | 1, None, Some d => mode_allowed d (opcode_dest op)
  | 2, Some s, Some d =>
      mode_allowed s (opcode_source op) && mode_allowed d (opcode_dest op)
  | _, _, _ => false
  end.

(** The counters of a context agree and respect the capacity. *)
Definition counters_ok (c : assembler_context) : Prop :=
  0 <= IC c /\ 0 <= DC c /\ memory_usage c = IC c + DC c
  /\ memory_usage c <= MEMORY_AVAILABLE_SPACE.

(** The context a [flow] ends in, when the program goes on. *)
Definition context_of {A : Type} (f : flow A) : option assembler_context :=
  match f with
  | Continue _ c => Some c
  | Return_false c => Some c
  | Exit _ => None
  end.

(** The nodes appended for [words], the first at address [addr]. *)
Fixpoint code_nodes (addr : Z) (words : list Z) : list inst_mem :=
  match words with
  | [] => []
  | w :: words' => {| inst_value := w; inst_address := addr |} :: code_nodes (addr + 1) words'
  end.

Fixpoint data_nodes (addr : Z) (values : list Z) : list data_mem :=
  match values with
  | [] => []
  | v :: values' => {| data_value := v; data_address := addr |} :: data_nodes (addr + 1) values'
  end.

(** Every value fits a signed 10-bit word. *)
Definition fits_word (v : Z) : Prop := MIN_NUM WORD_BIT_SIZE <= v <= MAX_NUM WORD_BIT_SIZE.

(** An unsigned int holds the value. *)
Definition fits_uint (x : Z) : Prop := 0 <= x < 2 ^ 32.

(** Relocating the images and labels of a context stays within an
    unsigned int. *)
Definition relocation_fits (c : assembler_context) : Prop :=
  fits_uint (IC c + MEMORY_ADDRESS_OFFSET)
  /\ Forall (fun n => fits_uint (inst_address n + MEMORY_ADDRESS_OFFSET))
            (instruction_memory c)
  /\ Forall (fun n => fits_uint (data_address n + (MEMORY_ADDRESS_OFFSET + IC c)))
            (data_memory c)
  /\ Forall (fun l => fits_uint (label_address l + MEMORY_ADDRESS_OFFSET)
                      /\ fits_uint (label_address l + (MEMORY_ADDRESS_OFFSET + IC c)))
            (labels c).

(** The data model's invariant on external labels: segment unresolved,
    address 0. *)
Definition external_label_ok (l : label) : Prop :=
  label_definition l = EXTERN ->
  label_type l = UNKNOWN_ADDR_TYPE /\ label_address l = EXTERNAL_TEMP_ADDR.

(** [l'] is [l] after relocation, [ic] being the final IC. *)
Definition relocated_label (ic : Z) (l l' : label) : Prop :=
  label_name l' = label_name l /\ label_type l' = label_type l
  /\ label_definition l' = label_definition l /\ is_entry l' = is_entry l
  /\ (label_type l = CODE -> label_address l' = label_address l + MEMORY_ADDRESS_OFFSET)
  /\ (label_type l = DATA ->
      label_address l' = label_address l + MEMORY_ADDRESS_OFFSET + ic)
  /\ (label_definition l = EXTERN -> label_address l' = 0).

(** The label a request resolves to. *)
Definition resolve (labels_list : list label) (r : address_update_request)
    : option (string * label) :=
  match request_label_name (req_operand r) with
  | Some label_name0 =>
      match get_label label_name0 labels_list with
      | Some l => Some (label_name0, l)
      | None => None
      end
  | None => None
  end.

Definition resolves_to_external (labels_list : list label)
    (r : address_update_request) : option string :=
  match resolve labels_list r with
  | Some (label_name0, l) =>
      match label_definition l with EXTERN => Some label_name0 | NORMAL => None end
  | None => None
  end.

(** The externals-use records of a list of requests, in the order of the
    requests: one for each request that resolves to an external label. *)
Definition external_uses (labels_list : list label)
    (requests : list address_update_request) : list external :=
  flat_map
    (fun r =>
       match resolves_to_external labels_list r with
       | Some label_name0 =>
           [ {| ext_label_name := label_name0; mem_address := req_address r |} ]
       | None => []
       end)
    requests.

(** The three relocation steps of the second pass. *)
Definition relocate_images (c : assembler_context) : assembler_context :=
  update_labels_addresses (update_data_addresses (update_instruction_addresses c)).

(** The value of the code-image word at an address. *)
Definition word_at (addr : Z) (c : assembler_context) : option Z :=
  option_map inst_value (find_instruction_node addr (instruction_memory c)).

(** The ERA a request gets from the label it resolves to. *)
Definition label_encoding (l : label) : encoding_type :=
  match label_definition l with EXTERN => EXTERNAL | NORMAL => RELOCATABLE end.

(** A request resolves: its label is defined, at an address that fits the
    data field of an operand word. *)
Definition request_resolves (labels_list : list label)
    (r : address_update_request) : Prop :=
  exists label_name0 l w,
    resolve labels_list r = Some (label_name0, l)
    /\ encode_label_address (label_address l) (label_encoding l) = inl w.

(** The word a request points at is as the first pass left it: data
    field zero, ERA Unknown. *)
Definition deferred_word_at (c : assembler_context)
    (r : address_update_request) : Prop :=
  exists w, word_at (req_address r) c = Some w
            /\ data_field w = 0 /\ era_field w = encoding_val UNKNOWN.

(** The characters a .string directive accepts between the quotes. *)
Definition is_string_char (ch : ascii) : bool := isalnum ch || isspace ch.

(** A string between double quotes. *)
Definition quoted_string (s : string) : string :=
  String quote_char (String.append s (String quote_char EmptyString)).

(** A line of a source file, with its newline. *)
Definition source_line (text : string) : string :=
  String.append text (String (ascii_of_nat 10) EmptyString).

(** The source of the macro scenario: GREET with a body of two lines,
    called twice. *)
Definition greet_source : list string :=
  map source_line
    ["mcro GREET"; "mov r1, r2"; "add r1, r2"; "mcroend"; "GREET"; "GREET"].

(** Sources with a macro of an invalid name, of a reserved name, and with
    a macro defined twice. *)
Definition invalid_name_source : list string :=
  map source_line ["mcro 1x"; "inc r1"; "mcroend"; "stop"].

Definition reserved_name_source : list string :=
  map source_line ["mcro mov"; "inc r1"; "mcroend"; "stop"].

Definition duplicate_name_source : list string :=
  map source_line ["mcro A"; "inc r1"; "mcroend"; "mcro A"; "dec r1"; "mcroend"; "stop"].

(** The line closes a macro definition: its first token is mcroend. *)
Definition ends_macro (line : string) : bool :=
  match strtok line blanks with
  | token :: _ => String.eqb token "mcroend"
  | [] => false
  end.

(** The lines of a macro body put together. *)
Fixpoint body_text (body : list string) : string :=
  match body with
  | [] => EmptyString
  | line :: body' => String.append line (body_text body')
  end.

(** The lines of a first pass one after the other: the next line runs in
    the context the line before it left, as long as the lines go through. *)
Definition and_then (f : flow unit) (k : assembler_context -> flow unit) : flow unit :=
  match f with
  | Continue _ c => k c
  | Return_false c => Return_false c
  | Exit code => Exit code
  end.

(** The opcodes and operands of the scenarios below. *)
Definition mov_opcode : opcode := Build_opcode 0 "mov" 2 ALL AM_1_2_3 ABSOLUTE.
Definition stop_opcode : opcode := Build_opcode 15 "stop" 0 NONE NONE ABSOLUTE.

Definition label_operand (label_name0 : string) (line : Z) : operand :=
  {| op_val := U_label label_name0; op_encoding := UNKNOWN; file_line := line |}.

Definition register_operand (reg_num line : Z) : operand :=
  {| op_val := U_reg reg_num; op_encoding := ABSOLUTE; file_line := line |}.

(** An external label as the first pass stores it, with the entry flag,
    which [add_label] leaves as the cell held, clear. So are the entry
    flags of the labels of the scenarios below. *)
Definition extern_label (label_name0 : string) : label :=
  {| label_name := label_name0; label_address := EXTERNAL_TEMP_ADDR;
     label_type := UNKNOWN_ADDR_TYPE; label_definition := EXTERN; is_entry := false |}.

(** What the first pass leaves for the source

      .extern X
      MAIN: mov X, r1
            stop
      LIST: .data 6, -9

    one request for the word of X, at address 1. *)
Definition extern_scenario : assembler_context :=
  {| as_file_line := 0; second_pass_error_line := 0; DC := 2; IC := 4;
     memory_usage := 6; preproc_error := false; second_pass_error := false;
     data_memory := data_nodes 0 [6; -9];
     instruction_memory := code_nodes 0 [28; 3; 4; 960];
     external_labels := [];
     labels :=
       [ extern_label "X";
         {| label_name := "MAIN"; label_address := 0; label_type := CODE;
            label_definition := NORMAL; is_entry := false |};
         {| label_name := "LIST"; label_address := 0; label_type := DATA;
            label_definition := NORMAL; is_entry := false |} ];
     macros := [];
     address_update_requests :=
       [ {| req_operand := label_operand "X" 2; req_address := 1 |} ];
     lines_maper := []; printed := []; am_file := None |}.

(** What the first pass leaves for the source

      .extern X
      mov X, r1
      mov Y, r1
      mov X, r2
      stop

    where Y is defined nowhere: three requests, at addresses 1, 4 and 7. *)
Definition undefined_label_scenario : assembler_context :=
  {| as_file_line := 0; second_pass_error_line := 0; DC := 0; IC := 10;
     memory_usage := 10; preproc_error := false; second_pass_error := false;
     data_memory := [];
     instruction_memory := code_nodes 0 [28; 3; 4; 28; 3; 4; 28; 3; 8; 960];
     external_labels := [];
     labels := [ extern_label "X" ];
     macros := [];
     address_update_requests :=
       [ {| req_operand := label_operand "X" 2; req_address := 1 |};
         {| req_operand := label_operand "Y" 3; req_address := 4 |};
         {| req_operand := label_operand "X" 4; req_address := 7 |} ];
     lines_maper := []; printed := []; am_file := None |}.

(** ** util.c: to_base4_str *)

Definition base4_letters : list ascii := ["a"; "b"; "c"; "d"]%char.

(** [tmp = num; len = 1; while (tmp >= 4) { tmp /= 4; len++; }]. An
    unsigned int is below 4 after 15 divisions at most, so the fuel the
    caller gives, 16, is never used up. *)
Fixpoint base4_auto_len (fuel : nat) (tmp len : Z) : Z :=
  match fuel with
  | O => len
  | S fuel' => if tmp >=? 4 then base4_auto_len fuel' (tmp / 4) (len + 1) else len
  end.

(** [for (i = len - 1; i >= 0; i--) { result_out[i] = digits[num % 4];
    num /= 4; }]: the cells are filled from the right. *)
Fixpoint base4_fill (i : nat) (num : Z) (result_out : string) : string :=
  match i with
  | O => result_out
  | S i' =>
      base4_fill i' (num / 4)
        (String (nth (Z.to_nat (num mod 4)) base4_letters "a"%char) result_out)
  end.

(** [num] is an unsigned int; [word_len] is -1 for the shortest string.
    A negative [word_len] other than -1 writes the terminating NUL before
    the buffer in C; the model hands out the empty string. *)
Definition to_base4_str (num word_len : Z) : string :=
  let len := if word_len =? -1 then base4_auto_len 16 num 1 else word_len in
  base4_fill (Z.to_nat len) num EmptyString.

(** The number a string of base-4 letters stands for, a = 0 ... d = 3,
    the most significant letter first. *)
Definition base4_letter_value (ch : ascii) : Z := char_val ch - 97.

Fixpoint base4_value_from (acc : Z) (s : string) : Z :=
  match s with
  | EmptyString => acc
  | String ch s' => base4_value_from (4 * acc + base4_letter_value ch) s'
  end.

Definition base4_value (s : string) : Z := base4_value_from 0 s.

Definition is_base4_letter (ch : ascii) : bool := existsb (Ascii.eqb ch) base4_letters.

(** ** lines_map.c: get_origin_file_line *)

Definition get_origin_file_line (new_line : Z) (lines_map : list lines_LUT) : Z :=
  match find (fun n => new_line_num n =? new_line) lines_map with
  | Some n => orign_line_num n
  | None => -1
  end.

(** A line that neither opens nor closes a macro definition: its first
    token is not mcro and not mcroend. *)
Definition plain_line (line : string) : bool :=
  match strtok line blanks with
  | token :: _ => negb (String.eqb token "mcro") && negb (String.eqb token "mcroend")
  | [] => true
  end.

(** The entries that map the [n] lines after line [new_line] of the
    expanded file to the [n] lines after line [origin_line] of the source. *)
Fixpoint consecutive_lines (n : nat) (origin_line new_line : Z) : list lines_LUT :=
  match n with
  | O => []
  | S n' =>
      {| orign_line_num := origin_line + 1; new_line_num := new_line + 1 |}
      :: consecutive_lines n' (origin_line + 1) (new_line + 1)
  end.

(** ** What the encoder is to produce (encoder.c) *)

(** The word the operand loop stores: the variable [machine_word], of
    which the data bits are cleared, [d] put in at [s], the ERA bits
    cleared and [e] put in, cut to the width of a word. *)
Definition stored_word (mw d s e : Z) : Z :=
  Z.land (insert_bits (clear_bits (insert_bits (clear_bits mw OPERAND_DATA_BITS_MASK) d s)
                          E_R_A_BITS_MASK) e E_R_A_BITS_SHIFT) WORD_BIT_MASK.

(** An operand as the try_parse functions of instructions.c fill it: a
    register number is the index of a register, a register or an
    immediate is Absolute, a label or a matrix is Unknown until the
    second pass, and the registers of a matrix are Absolute. *)
Definition well_formed_operand (o : operand) : Prop :=
  match op_val o with
  | U_val _ => op_encoding o = ABSOLUTE
  | U_reg reg => 0 <= reg <= 7 /\ op_encoding o = ABSOLUTE
  | U_label _ => op_encoding o = UNKNOWN
  | U_matrix _ reg_1 reg_2 reg_encoding =>
      0 <= reg_1 <= 7 /\ 0 <= reg_2 <= 7 /\ reg_encoding = ABSOLUTE
      /\ op_encoding o = UNKNOWN
  end.

(** An immediate fits the data field of an operand word. *)
Definition fits_data_field (o : operand) : Prop :=
  match op_val o with
  | U_val val => MIN_NUM OPERAND_DATA_BITS <= val <= MAX_NUM OPERAND_DATA_BITS
  | _ => True
  end.

(** The words of an operand: an immediate in two's complement in bits
    9..2, a register in bits 9..6 as a source and in bits 5..2 as a
    destination, a label as a word with ERA Unknown to be patched, a
    matrix as such a word followed by the word of its two registers. *)
Definition operand_words (op_type : operand_type) (o : operand) : list Z :=
  match op_val o with
  | U_val val => [ (val mod 256) * 4 ]
  | U_reg reg =>
      [ match op_type with SOURCE => reg * 64 | DESTINATION => reg * 4 end ]
  | U_label _ => [ encoding_val UNKNOWN ]
  | U_matrix _ reg_1 reg_2 _ => [ encoding_val UNKNOWN; reg_1 * 64 + reg_2 * 4 ]
  end.

(** The request a label or a matrix operand leaves for the second pass. *)
Definition operand_requests (addr : Z) (o : operand) : list address_update_request :=
  match op_val o with
  | U_label _ | U_matrix _ _ _ _ => [ {| req_operand := o; req_address := addr |} ]
  | _ => []
  end.

Definition is_register_operand (o : option operand) : bool :=
  match o with
  | Some x => match op_val x with U_reg _ => true | _ => false end
  | None => false
  end.

(** The main word: opcode, addressing modes of the operands, ERA 00. *)
Definition main_word (op : opcode) (src dest : option operand) : Z :=
  opcode_code op * 64 + mode_tag src * 16 + mode_tag dest * 4.

(** The words of an instruction of the opcode table, by the number of its
    operands. *)
Definition instruction_words (op : opcode) (src dest : option operand) : list Z :=
  match operands_amount op, src, dest with
  | 0, _, _ => [ main_word op src dest ]
  | 1, _, Some d => main_word op src dest :: operand_words DESTINATION d
  | 2, Some s, Some d =>
      match op_val s, op_val d with
      | U_reg rs, U_reg rd => [ main_word op src dest; rs * 64 + rd * 4 ]
      | _, _ => main_word op src dest :: operand_words SOURCE s ++ operand_words DESTINATION d
      end
  | _, _, _ => []
  end.

(** The requests of an instruction whose first word is at [ic]. *)
Definition instruction_requests (ic : Z) (op : opcode) (src dest : option operand)
    : list address_update_request :=
  match operands_amount op, src, dest with
  | 1, _, Some d => operand_requests (ic + 1) d
  | 2, Some s, Some d =>
      operand_requests (ic + 1) s
      ++ operand_requests (ic + 1 + Z.of_nat (List.length (operand_words SOURCE s))) d
  | _, _, _ => []
  end.

(** The operands an instruction of the opcode table needs are there, are
    as the parser fills them, and their immediates fit the data field. *)
Definition encodable (op : opcode) (src dest : option operand) : Prop :=
  match operands_amount op, src, dest with
  | 0, _, _ => True
  | 1, _, Some d => well_formed_operand d /\ fits_data_field d
  | 2, Some s, Some d =>
      well_formed_operand s /\ fits_data_field s
      /\ well_formed_operand d /\ fits_data_field d
  | _, _, _ => False
  end.

(** ** What the first pass keeps (instructions.c, encoder.c) *)

(** The code image holds the words at the addresses 0 .. IC-1, in order. *)
Definition code_image_ok (c : assembler_context) : Prop :=
  instruction_memory c = code_nodes 0 (map inst_value (instruction_memory c))
  /\ Z.of_nat (List.length (instruction_memory c)) = IC c.

(** Every request names a label and points at a word of the code image
    that waits to be patched; no two requests point at the same word. *)
Definition requests_ok (c : assembler_context) : Prop :=
  Forall (fun r => request_label_name (req_operand r) <> None
                   /\ deferred_word_at c r
                   /\ 0 <= req_address r < IC c)
         (address_update_requests c)
  /\ NoDup (map req_address (address_update_requests c)).

Definition first_pass_invariant (c : assembler_context) : Prop :=
  counters_ok c /\ code_image_ok c /\ requests_ok c.

(** ** instructions.c: the operand parsers

    [MAX_NUM_DIGITS] is a constant of config.h. *)

Variable MAX_NUM_DIGITS : Z.

(** What a try_parse function makes of an operand string: it fills the
    operand and returns true; or it recognises the kind of operand but
    not its format, sets [first_pass_error] and returns true, leaving the
    operand struct as it was; or it returns false. For an immediate of
    exactly [MAX_NUM_DIGITS + 1] characters the terminating NUL is
    written one cell past [buff], which C leaves undefined. *)
Inductive parse_result :=
| Parsed (o : operand)
| Format_error
| Not_matched
| Undefined_behaviour.

(** The loops of try_parse_matrix_operand that step forward to [stop] or
    to the end of the string and leave by [goto not_matrix_found] at a
    white space: what was stepped over and what is left. *)
Inductive scan :=
| Scan_space
| Scan (stepped_over rest : string).

Fixpoint scan_to (stop : ascii) (p : string) : scan :=
  match p with
  | EmptyString => Scan EmptyString EmptyString
  | String ch p' =>
      if Ascii.eqb ch stop then Scan EmptyString p
      else if isspace ch then Scan_space
      else
        match scan_to stop p' with
        | Scan stepped_over rest => Scan (String ch stepped_over) rest
        | Scan_space => Scan_space
        end
  end.

(** try_parse_matrix_operand. After the second pair of brackets the loop
    [while (isspace(p[0]) || p[0] != 0) p++;] runs to the end of the
    string whatever it holds, so the branch of error 109 is never
    taken. *)
Definition try_parse_matrix_operand (operand_str : string) (am_file_line : Z)
    (c : assembler_context) : parse_result * assembler_context :=
  match scan_to "[" operand_str with
  | Scan label_name (String _ p1) =>
      match scan_to "]" p1 with
      | Scan temp1 (String _ (String after p2)) =>
          if negb (Ascii.eqb after "[") then (Not_matched, c)
          else
            match scan_to "]" p2 with
            | Scan temp2 (String _ _) =>
                let format_error := false in
                let '(format_error, c) :=
                  if negb (is_register temp1)
                  then (true, print_external_error 110 c) else (format_error, c) in
                let '(format_error, c) :=
                  if negb (is_register temp2)
                  then (true, print_external_error 111 c) else (format_error, c) in
                let '(format_error, c) :=
                  if negb (is_name_valid label_name)
                  then (true, print_external_error 112 c) else (format_error, c) in
                if format_error then (Format_error, c)
                else
                  (Parsed {| op_val := U_matrix label_name (get_reg_num temp1)
                                         (get_reg_num temp2) ABSOLUTE;
                             op_encoding := UNKNOWN; file_line := am_file_line |}, c)
            | _ => (Not_matched, c)
            end
      | _ => (Not_matched, c)
      end
  | _ => (Not_matched, c)
  end.

(** The loop of try_parse_immediate_operand over the characters after
    the sign, which goes on while the string has characters and
    [buff_pointer < sizeof(buff)]. The
    result is the code of the format error, or the characters put into
    [buff] and what is left of the string. *)
Fixpoint read_immediate_digits (p buff : string) (room : nat) : Z + (string * string) :=
  match p, room with
  | EmptyString, _ => inr (buff, p)
  | _, O => inr (buff, p)
  | String ch p', S room' =>
      if isdigit ch
      then read_immediate_digits p' (String.append buff (String ch EmptyString)) room'
      else if Ascii.eqb ch "." then inl 178
      else inl 172
  end.

(** [atoi(buff)], [buff] holding an optional sign and digits. *)
Definition atoi_signed (buff : string) : Z :=
  match buff with
  | String ch digits =>
      if Ascii.eqb ch "-" || Ascii.eqb ch "+" then atoi (Some ch) digits
      else atoi None buff
  | EmptyString => atoi None buff
  end.

Definition try_parse_immediate_operand (operand_str : string) (o : operand)
    (c : assembler_context) : parse_result * assembler_context :=
  match operand_str with
  | String first p =>
      if negb (Ascii.eqb first "#") then (Not_matched, c)
      else
        let '(buff, p) :=
          match p with
          | String ch p' =>
              if Ascii.eqb ch "-" || Ascii.eqb ch "+"
              then (String ch EmptyString, p') else (EmptyString, p)
          | EmptyString => (EmptyString, p)
          end in
        match p with
        | EmptyString => (Format_error, print_external_error 171 c)
        | _ =>
            let room := Z.to_nat (MAX_NUM_DIGITS + 1 - Z.of_nat (String.length buff)) in
            match read_immediate_digits p buff room with
            | inl code => (Format_error, print_external_error code c)
            | inr (buff, EmptyString) =>
                if Z.of_nat (String.length buff) <? MAX_NUM_DIGITS + 1 then
                  (Parsed {| op_val := U_val (atoi_signed buff);
                             op_encoding := ABSOLUTE; file_line := file_line o |}, c)
                else (Undefined_behaviour, c)
            | inr (_, String _ _) => (Format_error, print_external_error 120 c)
            end
        end
  | EmptyString => (Not_matched, c)
  end.

Definition try_parse_direct_operand (operand_str : string) (am_file_line : Z)
    (c : assembler_context) : parse_result * assembler_context :=
  if negb (is_name_valid operand_str) then (Not_matched, c)
  else (Parsed {| op_val := U_label operand_str; op_encoding := UNKNOWN;
                  file_line := am_file_line |}, c).

(** parse_operand: a register, an immediate, a matrix, a label, in this
    order; the first parser that returns true ends the search. *)
Definition parse_operand (operand_str : string) (o : operand) (am_file_line : Z)
    (c : assembler_context) : parse_result * assembler_context :=
  match try_parse_reg_operand operand_str o with
  | Some o' => (Parsed o', c)
  | None =>
      match try_parse_immediate_operand operand_str o c with
      | (Not_matched, c) =>
          match try_parse_matrix_operand operand_str am_file_line c with
          | (Not_matched, c) => try_parse_direct_operand operand_str am_file_line c
          | found => found
          end
      | found => found
      end
  end.

(** A character the scan to [stop] steps over. *)
Definition stepped_over_char (stop ch : ascii) : bool :=
  negb (Ascii.eqb ch stop) && negb (isspace ch).

(** ** directives.c: get_extern_label, get_entry_label

    [strtok] is called with the delimiters space, newline and tab, the
    characters of [blanks]. *)

Definition get_extern_label (line : string) (c : assembler_context)
    : option string * assembler_context :=
  match strtok line blanks with
  | token :: more =>
      if negb (String.eqb token ".extern") then (None, c)
      else
        match more with
        | [] => (None, print_external_error 157 c)
        | token :: more =>
            if negb (is_name_valid token) then (None, print_external_error 159 c)
            else if negb (can_add_name token c) then (None, print_external_error 160 c)
            else
              match more with
              | [] => (Some token, c)
              | _ :: _ => (None, print_external_error 158 c)
              end
        end
  | [] => (None, c)
  end.

Definition get_entry_label (line : string) (c : assembler_context)
    : option string * assembler_context :=
  match strtok line blanks with
  | token :: more =>
      if negb (String.eqb token ".entry") then (None, print_external_error 122 c)
      else
        match more with
        | [] => (None, print_external_error 138 c)
        | token :: more =>
            if negb (is_name_valid token) then (None, print_external_error 139 c)
            else
              match more with
              | [] => (Some token, c)
              | _ :: _ => (None, print_external_error 140 c)
              end
        end
  | [] => (None, print_external_error 122 c)
  end.

(** first_pass.c: the case EXTERN_DIRECTIVE_LINE of execute_first_pass.
    The boolean is false where the code sets [first_pass_error];
    [is_entry_cell] is what the cell of the new label holds in
    [is_entry]. *)
Definition first_pass_extern_line (line : string) (is_entry_cell : bool)
    (c : assembler_context) : bool * assembler_context :=
  match get_extern_label line c with
  | (None, c) => (false, c)
  | (Some label_name0, c) =>
      (true,
       set_labels (add_label label_name0 EXTERNAL_TEMP_ADDR UNKNOWN_ADDR_TYPE EXTERN
                     is_entry_cell (labels c)) c)
  end.

(** [get_label(entry_label, labels)->is_entry = true]: the first node
    with the name. *)
Fixpoint mark_entry (name0 : string) (labels_list : list label) : list label :=
  match labels_list with
  | [] => []
  | l :: labels_list' =>
      if String.eqb (label_name l) name0
      then {| label_name := label_name l; label_address := label_address l;
              label_type := label_type l; label_definition := label_definition l;
              is_entry := true |} :: labels_list'
      else l :: mark_entry name0 labels_list'
  end.

(** second_pass.c: the case ENTRY_DIRECTIVE_LINE of execute_second_pass,
    for the line [am_file_line] of the expanded file. *)
Definition second_pass_entry_line (line : string) (am_file_line : Z)
    (c : assembler_context) : assembler_context :=
  match get_entry_label line c with
  | (None, c) => set_second_pass_error true c
  | (Some entry_label, c) =>
      if negb (is_label_defined entry_label (labels c)) then
        print_external_error 141
          (set_second_pass_error_line am_file_line (set_second_pass_error true c))
      else
        match get_label entry_label (labels c) with
        | Some l =>
            match label_definition l with
            | EXTERN =>
                set_second_pass_error true
                  (print_external_error 142 (set_second_pass_error_line am_file_line c))
            | NORMAL => set_labels (mark_entry entry_label (labels c)) c
            end
        | None => c
        end
  end.

(** labels.c: is_entry_label_exist *)
Definition is_entry_label_exist (labels_list : list label) : bool :=
  existsb is_entry labels_list.

(** What the first pass leaves for the source

      MAIN: mov LIST, r1
            stop
      LIST: .data 6, -9

    one request for the word of LIST, at address 1. *)
Definition internal_scenario : assembler_context :=
  {| as_file_line := 0; second_pass_error_line := 0; DC := 2; IC := 4;
     memory_usage := 6; preproc_error := false; second_pass_error := false;
     data_memory := data_nodes 0 [6; -9];
     instruction_memory := code_nodes 0 [28; 3; 4; 960];
     external_labels := [];
     labels :=
       [ {| label_name := "MAIN"; label_address := 0; label_type := CODE;
            label_definition := NORMAL; is_entry := false |};
         {| label_name := "LIST"; label_address := 0; label_type := DATA;
            label_definition := NORMAL; is_entry := false |} ];
     macros := [];
     address_update_requests :=
       [ {| req_operand := label_operand "LIST" 1; req_address := 1 |} ];
     lines_maper := []; printed := []; am_file := None |}.

(** * Properties *)


(** ** Basic facts *)

Lemma uint_small (x : Z) : 0 <= x < 2 ^ 32 -> uint x = x.
Proof. intros H. unfold uint. now apply Z.mod_small. Qed.

Lemma check_operand_modes_ok (op : opcode) (src dest : option operand)
    (c : assembler_context) :
  operand_modes_ok op src dest = true ->
  check_operand_modes op src dest c = Continue tt c.
Proof.
  unfold operand_modes_ok, check_operand_modes.
  destruct (operands_amount op) as [| [p | p |] | p]; try discriminate;
    try reflexivity.
  - destruct p as [p | p |]; try discriminate.
    destruct src as [s |]; [| discriminate]. destruct dest as [d |]; [| discriminate].
    intros H. apply andb_true_iff in H as [-> ->]. reflexivity.
  - destruct src as [s |]; [discriminate |].
    destruct dest as [d |]; [| discriminate]. intros ->. reflexivity.
Qed.

Lemma append_assoc (a b d : string) :
  String.append (String.append a b) d = String.append a (String.append b d).
Proof. induction a as [| ch a IH]; cbn; [reflexivity | now rewrite IH]. Qed.

Lemma append_empty_r (a : string) : String.append a EmptyString = a.
Proof. induction a as [| ch a IH]; cbn; [reflexivity | now rewrite IH]. Qed.

Lemma skip_spaces_length (p : string) :
  (String.length (skip_spaces p) <= String.length p)%nat.
Proof.
  induction p as [| ch p IH]; cbn; [lia |].
  destruct (isspace ch); cbn; lia.
Qed.

Lemma span_digits_length (p digits r : string) :
  span_digits p = (digits, r) ->
  (String.length r <= String.length p)%nat
  /\ (starts_with isdigit p = true -> (String.length r < String.length p)%nat).
Proof.
  revert digits r. induction p as [| ch p IH]; cbn; intros digits r H.
  - injection H as <- <-. split; [cbn; lia | discriminate].
  - destruct (isdigit ch).
    + destruct (span_digits p) as [d r'] eqn:E. injection H as <- <-.
      destruct (IH _ _ eq_refl) as [Hle _]. split; intros; lia.
    + injection H as <- <-. split; [cbn; lia | discriminate].
Qed.

(** The loop over a line of numbers ends before its fuel does: it hands
    out the numbers or it has printed an error. *)
Lemma extract_numbers_loop_ends (fuel : nat) :
  forall (expect_number : bool) (p : string) (arr : list Z) (c : assembler_context),
    (String.length p < fuel)%nat ->
    (exists result, extract_numbers_loop fuel expect_number p arr c = (Some result, c))
    \/ (exists code,
          extract_numbers_loop fuel expect_number p arr c
          = (None, print_external_error code c)).
Proof.
  induction fuel as [| fuel IH]; intros e p arr c Hlen; [lia |].
  cbn [extract_numbers_loop].
  destruct p as [| ch p'].
  - destruct e; [right | left]; eauto.
  - destruct e.
    + destruct (Ascii.eqb ch "+" || Ascii.eqb ch "-").
      * destruct (starts_with isdigit p') eqn:Ed; cbn [negb]; [| right; eauto].
        destruct (span_digits p') as [digits r] eqn:Es.
        destruct (starts_with (Ascii.eqb ".") r); [right; eauto |].
        destruct (starts_with isalpha r); [right; eauto |].
        apply IH. apply span_digits_length in Es as [Hle _]. cbn in Hlen. lia.
      * destruct (starts_with isdigit (String ch p')) eqn:Ed; cbn [negb]; [| right; eauto].
        destruct (span_digits (String ch p')) as [digits r] eqn:Es.
        destruct (starts_with (Ascii.eqb ".") r); [right; eauto |].
        destruct (starts_with isalpha r); [right; eauto |].
        apply IH. apply span_digits_length in Es as [_ Hlt]. specialize (Hlt Ed). lia.
    + pose proof (skip_spaces_length (String ch p')) as Hs.
      destruct (skip_spaces (String ch p')) as [| ch' q]; [left; eauto |].
      assert (Hq : (String.length (skip_spaces q) < fuel)%nat).
      { pose proof (skip_spaces_length q) as Hq. cbn [String.length] in Hs, Hlen. lia. }
      destruct ch' as [[] [] [] [] [] [] [] []]; try (right; eauto; fail).
      apply IH. exact Hq.
Qed.

Lemma extract_directive_numbers_ends (line : string) (c : assembler_context) :
  (exists result, extract_directive_numbers line c = (Some result, c))
  \/ (exists code, extract_directive_numbers line c = (None, print_external_error code c)).
Proof.
  unfold extract_directive_numbers.
  destruct (skip_spaces line) as [| ch p]; [left; eauto |].
  apply extract_numbers_loop_ends. lia.
Qed.

(** ** Relocation *)

Lemma set_instruction_value_addresses (addr v : Z) (mem : list inst_mem) :
  map inst_address (set_instruction_value addr v mem) = map inst_address mem.
Proof.
  induction mem as [| n mem IH]; cbn; [reflexivity |].
  destruct (inst_address n =? addr); cbn; [reflexivity | now rewrite IH].
Qed.

(** Fix-up processing touches neither the labels, the data image and the
    counters nor the addresses of the code image. *)
Lemma process_requests_frame (todo : list address_update_request) :
  forall (i : nat) (c c' : assembler_context),
    context_of (process_requests i todo c) = Some c' ->
    labels c' = labels c /\ data_memory c' = data_memory c
    /\ IC c' = IC c /\ DC c' = DC c
    /\ second_pass_error c' = second_pass_error c
    /\ map inst_address (instruction_memory c') = map inst_address (instruction_memory c).
Proof.
  induction todo as [| r rest IH]; intros i c c' H.
  - cbn in H. injection H as <-. auto 6.
  - cbn [process_requests] in H.
    destruct (request_label_name (req_operand r)) as [label_name0 |];
      [| destruct c; cbn in H; injection H as <-; cbn; auto 6].
    destruct (instruction_memory c) as [| n0 mem0] eqn:Emem;
      [destruct c; cbn in H; injection H as <-; cbn in *; subst; auto 6 |].
    rewrite <- Emem in *. clear Emem n0 mem0.
    destruct (find_instruction_node (req_address r) (instruction_memory c));
      [| destruct c; cbn in H; injection H as <-; cbn; auto 6].
    destruct (get_label label_name0 (labels c)) as [l |];
      [| destruct c; cbn in H; injection H as <-; cbn; auto 6].
    destruct (label_definition l);
      (destruct (encode_label_address _ _) as [w | code]; [| discriminate]);
      apply IH in H; destruct c; cbn in *;
      rewrite set_instruction_value_addresses in H; exact H.
Qed.

Lemma Forall2_map_right {A B : Type} (R : A -> B -> Prop) (f : A -> B) (l : list A) :
  Forall (fun x => R x (f x)) l -> Forall2 R l (map f l).
Proof. induction 1; cbn; constructor; auto. Qed.

Lemma relocate_label_spec (ic : Z) (l : label) :
  external_label_ok l ->
  fits_uint (ic + MEMORY_ADDRESS_OFFSET) ->
  fits_uint (label_address l + MEMORY_ADDRESS_OFFSET) ->
  fits_uint (label_address l + (MEMORY_ADDRESS_OFFSET + ic)) ->
  relocated_label ic l (relocate_label ic l).
Proof.
  unfold external_label_ok, relocated_label, relocate_label, fits_uint.
  intros Hext Hic Hc Hd.
  destruct l as [nm addr ty def ent]; cbn in *.
  destruct ty; cbn; repeat split; try discriminate; try reflexivity;
    try (intros _; rewrite ?uint_small by (rewrite ?uint_small by lia; lia); lia);
    intros Hdef; destruct (Hext Hdef) as [Hty Haddr]; try discriminate.
  exact Haddr.
Qed.

(** C2. After the relocation steps of the second pass every code address
    has grown by the memory offset, every data address by the memory
    offset plus the final IC, every Code label by the offset, every Data
    label by the offset plus the final IC, and every External label is
    still at address 0. *)
Theorem relocation_shifts_addresses (c c' : assembler_context) :
  context_of (execute_second_pass c) = Some c' ->
  relocation_fits c ->
  Forall external_label_ok (labels c) ->
  map inst_address (instruction_memory c')
    = map (fun n => inst_address n + MEMORY_ADDRESS_OFFSET) (instruction_memory c)
  /\ map data_address (data_memory c')
     = map (fun n => data_address n + (MEMORY_ADDRESS_OFFSET + IC c)) (data_memory c)
  /\ map data_value (data_memory c') = map data_value (data_memory c)
  /\ Forall2 (relocated_label (IC c)) (labels c) (labels c')
  /\ IC c' = IC c.
Proof.
  intros H (Hic & Hcode & Hdata & Hlab) Hext.
  assert (Hf : exists c1,
             context_of (process_addr_update_requests (relocate_images c)) = Some c1
             /\ labels c' = labels c1 /\ data_memory c' = data_memory c1
             /\ IC c' = IC c1
             /\ instruction_memory c' = instruction_memory c1).
  { unfold execute_second_pass in H. fold (relocate_images c) in H.
    destruct (process_addr_update_requests _) as [[] c1 | c1 |]; cbn in H.
    - destruct (negb (second_pass_error c1)); cbn in H; injection H as <-;
        exists c1; destruct c1; cbn; auto.
    - injection H as <-. exists c1; destruct c1; cbn; auto.
    - discriminate. }
  destruct Hf as (c1 & H1 & -> & -> & -> & ->).
  apply process_requests_frame in H1 as (Hl & Hd & Hi & _ & _ & Ha).
  rewrite Hl, Hd, Hi, Ha. clear Hl Hd Hi Ha H c1.
  unfold relocate_images, update_labels_addresses, update_data_addresses,
    update_instruction_addresses.
  destruct c; cbn in *.
  repeat split.
  - rewrite map_map. apply map_ext_Forall.
    eapply Forall_impl; [| exact Hcode]. cbn. intros n Hn. now apply uint_small.
  - rewrite map_map. apply map_ext_Forall.
    eapply Forall_impl; [| exact Hdata]. cbn. intros n Hn.
    unfold fits_uint in *. rewrite (uint_small (IC0 + _)) by lia.
    rewrite uint_small by lia. lia.
  - rewrite map_map. reflexivity.
  - apply Forall2_map_right. rewrite Forall_forall in *. intros l Hin.
    destruct (Hlab l Hin). apply relocate_label_spec; auto.
Qed.

(** ** Fix-up processing *)

Lemma find_set_same (addr v : Z) (mem : list inst_mem) (n : inst_mem) :
  find_instruction_node addr mem = Some n ->
  find_instruction_node addr (set_instruction_value addr v mem)
  = Some {| inst_value := v; inst_address := inst_address n |}.
Proof.
  unfold find_instruction_node.
  induction mem as [| m mem IH]; cbn; [discriminate |].
  destruct (inst_address m =? addr) eqn:E; cbn.
  - intros H. injection H as <-. now rewrite E.
  - rewrite E. exact IH.
Qed.

Lemma find_set_other (a addr v : Z) (mem : list inst_mem) :
  a <> addr ->
  find_instruction_node a (set_instruction_value addr v mem)
  = find_instruction_node a mem.
Proof.
  unfold find_instruction_node. intros Hne.
  induction mem as [| m mem IH]; cbn; [reflexivity |].
  destruct (inst_address m =? addr) eqn:E; cbn.
  - apply Z.eqb_eq in E.
    destruct (inst_address m =? a) eqn:E'; [apply Z.eqb_eq in E'; congruence | reflexivity].
  - now rewrite IH.
Qed.

Lemma get_label_address_found (nm : string) (labels_list : list label) (l : label) :
  get_label nm labels_list = Some l -> get_label_address nm labels_list = label_address l.
Proof. unfold get_label_address. now intros ->. Qed.

(** What a step of the loop that goes on has done. *)
Lemma process_requests_step (i : nat) (r : address_update_request)
    (rest : list address_update_request) (c c' : assembler_context) :
  process_requests i (r :: rest) c = Continue tt c' ->
  exists nm l w n c1,
    resolve (labels c) r = Some (nm, l)
    /\ find_instruction_node (req_address r) (instruction_memory c) = Some n
    /\ encode_label_address (label_address l) (label_encoding l) = inl w
    /\ process_requests (S i) rest c1 = Continue tt c'
    /\ labels c1 = labels c
    /\ printed c1 = printed c
    /\ instruction_memory c1
       = set_instruction_value (req_address r) w (instruction_memory c)
    /\ external_labels c1
       = external_labels c
         ++ match label_definition l with
            | EXTERN => [ {| ext_label_name := nm; mem_address := req_address r |} ]
            | NORMAL => []
            end.
Proof.
  cbn [process_requests]. unfold resolve, label_encoding. intros H.
  destruct (request_label_name (req_operand r)) as [nm |]; [| discriminate].
  destruct (instruction_memory c) as [| n0 mem0] eqn:Emem; [discriminate |].
  rewrite <- Emem in *. clear Emem n0 mem0.
  destruct (find_instruction_node (req_address r) (instruction_memory c)) as [n |];
    [| discriminate].
  destruct (get_label nm (labels c)) as [l |] eqn:El; [| discriminate].
  rewrite (get_label_address_found _ _ _ El) in H.
  exists nm, l.
  destruct (label_definition l);
    (destruct (encode_label_address _ _) as [w | code]; [| discriminate]);
    exists w, n; eexists; (split; [reflexivity |]); (split; [reflexivity |]);
    (split; [reflexivity |]); (split; [exact H |]);
    destruct c; cbn; rewrite ?app_nil_r; auto.
Qed.

Lemma process_requests_externals (todo : list address_update_request) :
  forall (i : nat) (c c' : assembler_context),
    process_requests i todo c = Continue tt c' ->
    external_labels c' = external_labels c ++ external_uses (labels c) todo
    /\ printed c' = printed c.
Proof.
  induction todo as [| r rest IH]; intros i c c' H.
  - cbn in H. injection H as <-. cbn. now rewrite app_nil_r.
  - apply process_requests_step in H
      as (nm & l & w & n & c1 & Hres & _ & _ & H & Hl & Hp & _ & He).
    apply IH in H as [H Hp']. rewrite H, He, Hl, Hp', Hp. split; [| reflexivity].
    cbn [external_uses flat_map]. fold (external_uses (labels c) rest).
    unfold resolves_to_external. rewrite Hres.
    destruct (label_definition l); now rewrite <- app_assoc.
Qed.

Lemma process_requests_untouched (todo : list address_update_request) :
  forall (i : nat) (c c' : assembler_context) (a : Z),
    context_of (process_requests i todo c) = Some c' ->
    ~ In a (map req_address todo) ->
    word_at a c' = word_at a c.
Proof.
  unfold word_at.
  induction todo as [| r rest IH]; intros i c c' a H Hnot.
  - cbn in H. now injection H as <-.
  - cbn [process_requests] in H. cbn in Hnot.
    destruct (request_label_name (req_operand r)) as [nm |];
      [| destruct c; cbn in H; injection H as <-; reflexivity].
    destruct (instruction_memory c) as [| n0 mem0] eqn:Emem;
      [destruct c; cbn in *; injection H as <-; cbn; now subst |].
    rewrite <- Emem in *. clear Emem n0 mem0.
    destruct (find_instruction_node (req_address r) (instruction_memory c));
      [| destruct c; cbn in H; injection H as <-; reflexivity].
    destruct (get_label nm (labels c)) as [l |];
      [| destruct c; cbn in H; injection H as <-; reflexivity].
    destruct (label_definition l);
      (destruct (encode_label_address _ _) as [w | code]; [| discriminate]);
      apply (IH _ _ _ a) in H; [| tauto | | tauto]; rewrite H;
      destruct c; cbn -[find_instruction_node set_instruction_value]; f_equal;
      apply find_set_other; intros ->; tauto.
Qed.

Lemma process_requests_patched (todo : list address_update_request) :
  forall (i : nat) (c c' : assembler_context),
    process_requests i todo c = Continue tt c' ->
    NoDup (map req_address todo) ->
    forall r nm l, In r todo -> resolve (labels c) r = Some (nm, l) ->
      exists w, encode_label_address (label_address l) (label_encoding l) = inl w
                /\ word_at (req_address r) c' = Some w.
Proof.
  induction todo as [| r0 rest IH]; intros i c c' H Hnd r nm l Hin Hres; [easy |].
  apply process_requests_step in H
    as (nm0 & l0 & w & n & c1 & Hres0 & Hfind & Henc & H & Hl & _ & Hmem & _).
  cbn in Hnd. apply NoDup_cons_iff in Hnd as [Hnot Hnd].
  destruct Hin as [<- | Hin].
  - rewrite Hres0 in Hres. injection Hres as <- <-.
    exists w. split; [exact Henc |].
    rewrite (process_requests_untouched rest (S i) c1 c' (req_address r0));
      [| now rewrite H | exact Hnot].
    unfold word_at. rewrite Hmem, (find_set_same _ _ _ _ Hfind). reflexivity.
  - apply (IH (S i) c1 c' H Hnd r nm l Hin). now rewrite Hl.
Qed.

Lemma external_uses_addresses (labels_list : list label)
    (requests : list address_update_request) (e : external) :
  In e (external_uses labels_list requests) ->
  In (mem_address e) (map req_address requests).
Proof.
  induction requests as [| r rest IH]; cbn; [easy |].
  intros H. apply in_app_or in H as [H | H]; [| right; now apply IH].
  destruct (resolves_to_external labels_list r); [| easy].
  destruct H as [<- | []]. now left.
Qed.

Lemma filter_none {A : Type} (f : A -> bool) (l : list A) :
  (forall x, In x l -> f x = false) -> filter f l = [].
Proof.
  induction l as [| x l IH]; cbn; intros H; [reflexivity |].
  rewrite (H x) by now left. apply IH. intros y Hy. apply H. now right.
Qed.




Lemma process_requests_app (l1 : list address_update_request) :
  forall (l2 : list address_update_request) (i : nat) (c : assembler_context),
    process_requests i (l1 ++ l2) c =
    match process_requests i l1 c with
    | Continue _ c1 => process_requests (i + List.length l1) l2 c1
    | Return_false c1 => Return_false c1
    | Exit code => Exit code
    end.
Proof.
  induction l1 as [| r l1 IH]; intros l2 i c.
  - cbn. now rewrite Nat.add_0_r.
  - cbn [app process_requests List.length].
    destruct (request_label_name (req_operand r)); [| reflexivity].
    destruct (instruction_memory c) as [| n0 mem0] eqn:Emem; [reflexivity |].
    rewrite <- Emem. clear Emem n0 mem0.
    destruct (find_instruction_node _ _); [| reflexivity].
    destruct (get_label _ _); [| reflexivity].
    destruct (label_definition _);
      (destruct (encode_label_address _ _); [| reflexivity]);
      rewrite IH, Nat.add_succ_r; reflexivity.
Qed.

Lemma resolve_inv (labels_list : list label) (r : address_update_request)
    (nm : string) (l : label) :
  resolve labels_list r = Some (nm, l) ->
  request_label_name (req_operand r) = Some nm /\ get_label nm labels_list = Some l.
Proof.
  unfold resolve.
  destruct (request_label_name (req_operand r)) as [nm0 |]; [| discriminate].
  destruct (get_label nm0 labels_list) as [l0 |] eqn:E; [| discriminate].
  intros H. injection H as -> ->. auto.
Qed.

Lemma find_set_some (a addr v : Z) (mem : list inst_mem) :
  find_instruction_node a mem <> None ->
  find_instruction_node a (set_instruction_value addr v mem) <> None.
Proof.
  intros H. destruct (Z.eq_dec a addr) as [-> | Hne].
  - destruct (find_instruction_node addr mem) as [n |] eqn:E; [| easy].
    now rewrite (find_set_same _ _ _ _ E).
  - now rewrite find_set_other.
Qed.

(** The loop goes through requests that resolve and point into the code
    image. *)
Lemma process_requests_runs (todo : list address_update_request) :
  forall (i : nat) (c : assembler_context),
    Forall (request_resolves (labels c)) todo ->
    Forall (fun q => find_instruction_node (req_address q) (instruction_memory c) <> None)
           todo ->
    exists c', process_requests i todo c = Continue tt c'.
Proof.
  induction todo as [| r rest IH]; intros i c Hres Hnodes; [cbn; eauto |].
  apply Forall_cons_iff in Hres as [(nm & l & w & Hr & Hw) Hres].
  apply Forall_cons_iff in Hnodes as [Hn Hnodes].
  apply resolve_inv in Hr as [Hnm Hl].
  cbn [process_requests]. rewrite Hnm.
  destruct (instruction_memory c) as [| n0 mem0] eqn:Emem; [now cbn in Hn |].
  rewrite <- Emem in *. clear Emem n0 mem0.
  destruct (find_instruction_node (req_address r) (instruction_memory c)); [| easy].
  rewrite Hl, (get_label_address_found _ _ _ Hl).
  unfold label_encoding in Hw.
  destruct (label_definition l); rewrite Hw; apply IH; destruct c; cbn in *;
    try assumption;
    (eapply Forall_impl; [| exact Hnodes]); cbn; intros q; apply find_set_some.
Qed.

Lemma process_requests_undefined (i : nat) (r : address_update_request)
    (rest : list address_update_request) (nm : string) (c : assembler_context) :
  request_label_name (req_operand r) = Some nm ->
  get_label nm (labels c) = None ->
  find_instruction_node (req_address r) (instruction_memory c) <> None ->
  process_requests i (r :: rest) c
  = Return_false
      (print_external_error 146
         (set_second_pass_error_line (file_line (req_operand r)) c)).
Proof.
  intros Hnm Hl Hn. cbn [process_requests]. rewrite Hnm.
  destruct (instruction_memory c) as [| n0 mem0] eqn:Emem; [now cbn in Hn |].
  rewrite <- Emem in *. clear Emem n0 mem0.
  destruct (find_instruction_node (req_address r) (instruction_memory c)); [| easy].
  now rewrite Hl.
Qed.

Lemma deferred_word_found (c : assembler_context) (q : address_update_request) :
  deferred_word_at c q ->
  find_instruction_node (req_address q) (instruction_memory c) <> None.
Proof.
  intros (w & Hw & _). unfold word_at in Hw.
  now destruct (find_instruction_node _ _).
Qed.

(** C10. When a request names a label that is not in the symbol table,
    while the requests before it resolve, the second pass reports the
    undefined label for that request and fails at once: the requests
    after it are not processed and their code words stay as the first
    pass left them, data field zero and ERA Unknown. *)
Theorem undefined_label_stops_fixups (c : assembler_context)
    (before after : list address_update_request) (r : address_update_request)
    (nm : string) :
  update_request_list_addresses (address_update_requests c) = before ++ r :: after ->
  NoDup (map req_address (before ++ r :: after)) ->
  Forall (deferred_word_at (relocate_images c)) (before ++ r :: after) ->
  Forall (request_resolves (labels (relocate_images c))) before ->
  request_label_name (req_operand r) = Some nm ->
  get_label nm (labels (relocate_images c)) = None ->
  exists c2,
    execute_second_pass c = Return_false c2
    /\ second_pass_error c2 = true
    /\ printed c2 = printed c ++ [External_error 146]
    /\ second_pass_error_line c2 = file_line (req_operand r)
    /\ Forall (deferred_word_at c2) after.
Proof.
  intros Hreq Hnd Hdef Hres Hnm Hlab.
  unfold execute_second_pass. fold (relocate_images c).
  unfold process_addr_update_requests. cbv zeta.
  replace (address_update_requests (relocate_images c))
    with (address_update_requests c) by (destruct c; reflexivity).
  rewrite Hreq.
  set (c0 := set_address_update_requests (before ++ r :: after) (relocate_images c)).
  assert (Hl0 : labels c0 = labels (relocate_images c)) by (destruct c; reflexivity).
  assert (Hw0 : forall a, word_at a c0 = word_at a (relocate_images c))
    by (destruct c; reflexivity).
  assert (Hp0 : printed c0 = printed c) by (destruct c; reflexivity).
  replace (address_update_requests c0) with (before ++ r :: after)
    by (destruct c; reflexivity).
  assert (Hdef0 : Forall (deferred_word_at c0) (before ++ r :: after)).
  { eapply Forall_impl; [| exact Hdef]. intros q (w & Hw & Hf).
    exists w. now rewrite Hw0. }
  destruct (process_requests_runs before 0 c0) as (c1 & Hrun).
  { now rewrite Hl0. }
  { apply Forall_app in Hdef0 as [Hb _].
    eapply Forall_impl; [| exact Hb]. apply deferred_word_found. }
  rewrite process_requests_app, Hrun.
  assert (Hc1 := Hrun). apply process_requests_externals in Hc1 as [_ Hp1].
  assert (Hf1 : context_of (process_requests 0 before c0) = Some c1) by now rewrite Hrun.
  pose proof (process_requests_frame _ _ _ _ Hf1) as (Hl1 & _).
  assert (Hu1 : forall q, In q (r :: after) -> word_at (req_address q) c1
                                               = word_at (req_address q) c0).
  { intros q Hq. apply (process_requests_untouched before 0 c0 c1 _ Hf1).
    rewrite map_app in Hnd. intros Hin. revert Hnd Hin Hq. clear.
    intros Hnd Hin Hq. apply (in_map req_address) in Hq.
    induction before as [| b before IH]; [easy |].
    cbn in Hnd. apply NoDup_cons_iff in Hnd as [Hnot Hnd].
    destruct Hin as [E | Hin]; [| now apply IH].
    apply Hnot. rewrite E. apply in_or_app. now right. }
  apply Forall_app in Hdef0 as [_ Hra].
  apply Forall_cons_iff in Hra as [Hr Ha].
  rewrite (process_requests_undefined _ r after nm c1 Hnm).
  - eexists. split; [reflexivity |].
    destruct c1; cbn in *. subst. rewrite Hp0.
    repeat split.
    rewrite Forall_forall in *. intros q Hq.
    destruct (Ha q Hq) as (w & Hw & Hf). exists w. split; [| exact Hf].
    rewrite <- Hw, <- (Hu1 q) by now right. reflexivity.
  - now rewrite Hl1, Hl0.
  - apply deferred_word_found. destruct Hr as (w & Hw & Hf). exists w.
    split; [| exact Hf]. rewrite <- Hw. apply Hu1. now left.
Qed.

(** ** The preprocessor *)

Lemma read_macro_content_from_rest (fp_in : list string) :
  forall (content : string) (lines_count : Z) (c c' : assembler_context)
         (result : string * Z) (rest : list string),
    read_macro_content_from fp_in content lines_count c = (Some result, rest, c') ->
    (List.length rest < List.length fp_in)%nat.
Proof.
  induction fp_in as [| temp_line fp_in IH]; intros content n c c' result rest H;
    cbn [read_macro_content_from] in H; [discriminate |].
  destruct (is_end_of_macro temp_line _) as [[] c1].
  - destruct content; [discriminate |]. injection H as _ <- _. cbn. lia.
  - apply IH in H. cbn. lia.
Qed.

(** The loop over the source lines ends before its fuel does: any fuel
    from the number of lines on gives the same result. *)
Lemma preprocess_lines_fuel (fuel1 : nat) :
  forall (fuel2 : nat) (as_file : list string) (am_file_content : string)
         (origin_line_num new_line : Z) (c : assembler_context),
    (List.length as_file <= fuel1)%nat -> (List.length as_file <= fuel2)%nat ->
    preprocess_lines fuel1 as_file am_file_content origin_line_num new_line c
    = preprocess_lines fuel2 as_file am_file_content origin_line_num new_line c.
Proof.
  induction fuel1 as [| fuel1 IH]; intros fuel2 as_file text o n c H1 H2.
  - destruct as_file; [| cbn in H1; lia]. destruct fuel2; reflexivity.
  - destruct as_file as [| line as_file']; [destruct fuel2; reflexivity |].
    destruct fuel2 as [| fuel2]; [cbn in H2; lia |].
    cbn [preprocess_lines]. cbn [List.length] in H1, H2.
    destruct (is_start_of_macro line _) as [[macro_name0 |] c1].
    + destruct (read_macro_content as_file' _) as [[[[content count] |] rest] c2] eqn:Er;
        [| reflexivity].
      apply read_macro_content_from_rest in Er. apply IH; lia.
    + destruct (is_macro_call line _ c1) as [[m |] c2].
      * destruct (map_macro_lines _ _ _ _) as [new_line' lines_map]. apply IH; lia.
      * apply IH; lia.
Qed.

Lemma is_end_of_macro_no (line : string) (c : assembler_context) :
  ends_macro line = false -> is_end_of_macro line c = (false, c).
Proof.
  unfold ends_macro, is_end_of_macro.
  destruct (strtok line blanks) as [| token more]; [reflexivity |].
  now intros ->.
Qed.

(** The line count read_macro_content hands out counts the closing
    mcroend line with the lines of the body. *)
Lemma read_macro_content_counts_closing_line (body : list string) :
  forall (end_line : string) (rest : list string) (content : string) (count : Z)
         (c : assembler_context),
    Forall (fun line => ends_macro line = false) body ->
    strtok end_line blanks = ["mcroend"] ->
    String.append content (body_text body) <> EmptyString ->
    read_macro_content_from (body ++ end_line :: rest) content count c
    = (Some (String.append content (body_text body),
             count + Z.of_nat (List.length body) + 1),
       rest,
       set_as_file_line (as_file_line c + Z.of_nat (List.length body) + 1) c).
Proof.
  induction body as [| line body IH]; intros end_line rest content count c Hbody Hend Hne.
  - cbn [app read_macro_content_from body_text List.length] in *.
    unfold is_end_of_macro. rewrite Hend, String.eqb_refl.
    rewrite append_empty_r in *.
    destruct content; [contradiction |].
    f_equal; [do 3 f_equal; lia | destruct c; cbn; f_equal; lia].
  - apply Forall_cons_iff in Hbody as [Hline Hbody].
    cbn [app read_macro_content_from body_text List.length] in *.
    rewrite is_end_of_macro_no by exact Hline.
    rewrite <- append_assoc in *.
    rewrite IH by assumption.
    f_equal; [do 3 f_equal; lia | destruct c; cbn; f_equal; lia].
Qed.

(** C6, at the macro of the scenario. The table entry of GREET, whose
    body has two lines, records a line count of 3: the count includes
    the mcroend line. *)
Theorem greet_line_count_is_three :
  macros (snd (execute_preprocessor greet_source init_assembler))
  = [ {| macro_name := "GREET";
         macro_content := body_text [source_line "mov r1, r2"; source_line "add r1, r2"];
         macro_lines := 3; define_line := 1 |} ].
Proof.
  cbv -[is_name_valid]. destruct (is_name_valid "GREET"); reflexivity.
Qed.

Lemma invalid_name_1x : is_name_valid "1x" = false.
Proof. unfold is_name_valid. now destruct (_ >? _). Qed.

(** One iteration of the loop on a line that opens a macro definition. *)
Lemma preprocess_lines_definition (fuel : nat) (line macro_name0 : string)
    (as_file' : list string) (am_file_content : string)
    (origin_line_num new_line : Z) (c : assembler_context) :
  is_start_of_macro line (set_as_file_line (as_file_line c + 1) c)
  = (Some macro_name0, set_as_file_line (as_file_line c + 1) c) ->
  preprocess_lines (S fuel) (line :: as_file') am_file_content origin_line_num new_line c
  = let c := set_as_file_line (as_file_line c + 1) c in
    let c := if negb (is_name_valid macro_name0) then print_external_error 148 c else c in
    let c := if negb (can_add_name macro_name0 c) then print_external_error 147 c else c in
    match read_macro_content as_file' c with
    | (None, _, c) => (None, c)
    | (Some (content, macro_lines_count), as_file'', c) =>
        let c := set_macros
                   (add_macro macro_name0 content macro_lines_count (macros c)
                      (as_file_line c - macro_lines_count)) c in
        preprocess_lines fuel as_file'' am_file_content
          (origin_line_num + 1 + macro_lines_count) (new_line + 1 - 1) c
    end.
Proof. intros H. cbn [preprocess_lines]. now rewrite H. Qed.

(** C5, at sources with a bad macro name. For a macro name that is
    invalid, reserved, or already defined, the preprocessor prints the
    error (148 or 147) and still returns true and writes the .am file, so
    that run_assembler goes on to the first pass. *)
Theorem macro_name_errors_do_not_stop :
  (let r := execute_preprocessor invalid_name_source init_assembler in
   fst r = true /\ printed (snd r) = [External_error 148]
   /\ am_file (snd r) = Some (source_line "stop")
   /\ fst (run_assembler invalid_name_source) = [PREPROCESSOR; FIRST_PASS])
  /\ (let r := execute_preprocessor reserved_name_source init_assembler in
      fst r = true /\ In (External_error 147) (printed (snd r))
      /\ am_file (snd r) = Some (source_line "stop")
      /\ fst (run_assembler reserved_name_source) = [PREPROCESSOR; FIRST_PASS])
  /\ (let r := execute_preprocessor duplicate_name_source init_assembler in
      fst r = true /\ In (External_error 147) (printed (snd r))
      /\ am_file (snd r) = Some (source_line "stop")
      /\ fst (run_assembler duplicate_name_source) = [PREPROCESSOR; FIRST_PASS]).
Proof.
  unfold run_assembler, execute_preprocessor.
  unfold invalid_name_source, reserved_name_source, duplicate_name_source.
  cbn [map List.length].
  split; [| split].
  - rewrite (preprocess_lines_definition _ _ "1x") by reflexivity.
    rewrite invalid_name_1x. cbv. auto.
  - rewrite (preprocess_lines_definition _ _ "mov") by reflexivity.
    destruct (is_name_valid "mov"); cbv; auto 8.
  - rewrite (preprocess_lines_definition _ _ "A") by reflexivity.
    destruct (is_name_valid "A") eqn:E.
    + cbv -[preprocess_lines is_name_valid].
      rewrite (preprocess_lines_definition _ _ "A") by reflexivity.
      rewrite E. cbv. auto 8.
    + cbv -[preprocess_lines is_name_valid].
      rewrite (preprocess_lines_definition _ _ "A") by reflexivity.
      rewrite E. cbv. auto 8.
Qed.

(** ** Base-4 letters (util.c) *)

Lemma base4_fill_length (i : nat) :
  forall num result_out,
    String.length (base4_fill i num result_out) = (i + String.length result_out)%nat.
Proof.
  induction i as [| i IH]; intros num result_out; cbn [base4_fill]; [reflexivity |].
  rewrite IH. cbn [String.length]. lia.
Qed.

Lemma base4_letter_of_digit (d : Z) :
  0 <= d < 4 ->
  is_base4_letter (nth (Z.to_nat d) base4_letters "a"%char) = true
  /\ base4_letter_value (nth (Z.to_nat d) base4_letters "a"%char) = d.
Proof.
  intros H.
  assert (E : d = 0 \/ d = 1 \/ d = 2 \/ d = 3) by lia.
  destruct E as [-> | [-> | [-> | ->]]]; split; reflexivity.
Qed.

Lemma base4_fill_letters (i : nat) :
  forall num result_out,
    all_chars is_base4_letter result_out = true ->
    all_chars is_base4_letter (base4_fill i num result_out) = true.
Proof.
  induction i as [| i IH]; intros num result_out H; cbn [base4_fill]; [exact H |].
  apply IH. cbn [all_chars list_ascii_of_string forallb].
  destruct (base4_letter_of_digit (num mod 4)) as [-> _];
    [apply Z.mod_pos_bound; lia | exact H].
Qed.

Lemma base4_fill_value (i : nat) :
  forall num acc result_out,
    base4_value_from acc (base4_fill i num result_out)
    = base4_value_from (acc * 4 ^ Z.of_nat i + num mod 4 ^ Z.of_nat i) result_out.
Proof.
  induction i as [| i IH]; intros num acc result_out.
  - cbn [base4_fill]. change (4 ^ Z.of_nat 0) with 1. rewrite Z.mod_1_r. f_equal. lia.
  - cbn [base4_fill]. rewrite IH. cbn [base4_value_from].
    destruct (base4_letter_of_digit (num mod 4)) as [_ ->];
      [apply Z.mod_pos_bound; lia |].
    f_equal. rewrite Nat2Z.inj_succ, Z.pow_succ_r by lia.
    rewrite (Z.rem_mul_r num 4 (4 ^ Z.of_nat i)) by lia. lia.
Qed.

Lemma base4_fixed_length (num word_len : Z) :
  0 <= word_len ->
  let s := to_base4_str num word_len in
  Z.of_nat (String.length s) = word_len
  /\ all_chars is_base4_letter s = true
  /\ base4_value s = num mod 4 ^ word_len.
Proof.
  intros Hlen s. unfold s, to_base4_str.
  replace (word_len =? -1) with false by (symmetry; apply Z.eqb_neq; lia).
  split; [| split].
  - rewrite base4_fill_length. cbn [String.length]. lia.
  - now apply base4_fill_letters.
  - unfold base4_value. rewrite base4_fill_value. cbn [base4_value_from].
    rewrite Z2Nat.id by lia. lia.
Qed.

(** X1. With a length given, [to_base4_str] writes exactly that many letters
    out of a, b, c, d, and they are the base-4 digits of the number, the
    most significant first: the digits above the length are dropped. *)
Theorem to_base4_str_fixed_length (num word_len : Z) :
  0 <= word_len ->
  let s := to_base4_str num word_len in
  Z.of_nat (String.length s) = word_len
  /\ all_chars is_base4_letter s = true
  /\ base4_value s = num mod 4 ^ word_len.
Proof. exact (base4_fixed_length num word_len). Qed.

Lemma base4_auto_len_spec (fuel : nat) :
  forall tmp len,
    0 <= tmp < 4 ^ Z.of_nat fuel ->
    let result := base4_auto_len fuel tmp len in
    len <= result
    /\ tmp < 4 ^ (result - len) * 4
    /\ (result = len \/ 4 ^ (result - len) <= tmp).
Proof.
  induction fuel as [| fuel IH]; intros tmp len H; cbn [base4_auto_len].
  - change (4 ^ Z.of_nat 0) with 1 in H. rewrite Z.sub_diag. cbn. lia.
  - destruct (tmp >=? 4) eqn:E.
    + rewrite Z.geb_leb in E. apply Z.leb_le in E.
      rewrite Nat2Z.inj_succ, Z.pow_succ_r in H by lia.
      assert (Hq : 0 <= tmp / 4 < 4 ^ Z.of_nat fuel).
      { split; [apply Z.div_pos; lia | apply Z.div_lt_upper_bound; lia]. }
      destruct (IH (tmp / 4) (len + 1) Hq) as (Hle & Hup & Hlow).
      set (result := base4_auto_len fuel (tmp / 4) (len + 1)) in *.
      replace (result - len) with (Z.succ (result - (len + 1))) by lia.
      rewrite Z.pow_succ_r by lia.
      pose proof (Z.div_mod tmp 4 ltac:(lia)) as Hdm.
      pose proof (Z.mod_pos_bound tmp 4 ltac:(lia)) as Hm.
      split; [lia |]. split; [lia |]. right.
      destruct Hlow as [-> | Hlow]; [rewrite Z.sub_diag; cbn; lia | lia].
    + rewrite Z.geb_leb in E. apply Z.leb_gt in E. rewrite Z.sub_diag. cbn. lia.
Qed.

(** X2. Without a length given (-1), [to_base4_str] writes an unsigned int in
    full and as short as can be: the letters stand for the number itself,
    there is at least one, and a string of more than one letter does not
    start with a padding a. *)
Theorem to_base4_str_shortest (num : Z) :
  0 <= num < 2 ^ 32 ->
  let s := to_base4_str num (-1) in
  base4_value s = num
  /\ all_chars is_base4_letter s = true
  /\ (1 <= String.length s)%nat
  /\ (String.length s = 1%nat \/ 4 ^ (Z.of_nat (String.length s) - 1) <= num).
Proof.
  intros Hnum s. unfold s, to_base4_str. cbn [Z.eqb Z.opp Pos.eqb].
  destruct (base4_auto_len_spec 16 num 1 ltac:(cbn; lia)) as (Hle & Hup & Hlow).
  set (len := base4_auto_len 16 num 1) in *.
  rewrite base4_fill_length. cbn [String.length]. rewrite Nat.add_0_r.
  split; [| split; [| split]].
  - unfold base4_value. rewrite base4_fill_value. cbn [base4_value_from].
    rewrite Z2Nat.id by lia. rewrite Z.mul_0_l, Z.add_0_l.
    apply Z.mod_small. replace len with (Z.succ (len - 1)) by lia.
    rewrite Z.pow_succ_r by lia. lia.
  - now apply base4_fill_letters.
  - lia.
  - destruct Hlow as [-> | Hlow]; [left; reflexivity | right].
    rewrite Z2Nat.id by lia. exact Hlow.
Qed.

(** X3. The words of the images are [int]s that [create_obj_file] hands to
    [to_base4_str] as unsigned ints: the letters written for a word,
    negative or not, are its two's complement in 2 * length bits, and a
    word within that signed range is recovered from them. *)
Theorem to_base4_str_of_signed_word (value word_len : Z) :
  0 <= word_len <= 16 ->
  let v := base4_value (to_base4_str (uint value) word_len) in
  v = value mod 4 ^ word_len
  /\ (- 4 ^ word_len <= 2 * value < 4 ^ word_len ->
      (if 2 * v >=? 4 ^ word_len then v - 4 ^ word_len else v) = value).
Proof.
  intros Hlen v.
  assert (Hv : v = value mod 4 ^ word_len).
  { unfold v.
    destruct (base4_fixed_length (uint value) word_len ltac:(lia)) as (_ & _ & ->).
    unfold uint. apply Z.mod_mod_divide.
    exists (4 ^ (16 - word_len)). rewrite <- Z.pow_add_r by lia.
    replace (16 - word_len + word_len) with 16 by lia. reflexivity. }
  split; [exact Hv |]. intros Hrange.
  assert (Hpos : 0 < 4 ^ word_len) by (apply Z.pow_pos_nonneg; lia).
  destruct (Z_lt_le_dec value 0) as [Hneg | Hnn].
  - assert (E : v = value + 4 ^ word_len).
    { rewrite Hv. symmetry. apply Z.mod_unique with (q := -1); lia. }
    rewrite E. replace (2 * (value + 4 ^ word_len) >=? 4 ^ word_len) with true; [lia |].
    symmetry. rewrite Z.geb_leb. apply Z.leb_le. lia.
  - assert (E : v = value) by (rewrite Hv; apply Z.mod_small; lia).
    rewrite E. replace (2 * value >=? 4 ^ word_len) with false; [reflexivity |].
    symmetry. rewrite Z.geb_leb. apply Z.leb_gt. lia.
Qed.

(** ** Label words (encoder.c) and internal fix-ups (addresses.c) *)

Lemma range_check (p : Z -> bool) (n : nat) :
  forallb p (map Z.of_nat (seq 0 n)) = true ->
  forall a, 0 <= a < Z.of_nat n -> p a = true.
Proof.
  intros H a Ha. rewrite forallb_forall in H. apply H.
  replace a with (Z.of_nat (Z.to_nat a)) by lia.
  apply in_map, in_seq. lia.
Qed.

Lemma encode_label_address_fields (new_label_addr : Z) (encoding : encoding_type) :
  0 <= new_label_addr ->
  (new_label_addr <= 255 ->
   exists w, encode_label_address new_label_addr encoding = inl w
             /\ 0 <= w < 1024
             /\ data_field w = new_label_addr
             /\ era_field w = encoding_val encoding)
  /\ (255 < new_label_addr -> encode_label_address new_label_addr encoding = inr 10).
Proof.
  intros Hpos. split.
  - intros Hmax.
    pose (check := fun a =>
      forallb (fun e =>
        match encode_label_address a e with
        | inl w => (0 <=? w) && (w <? 1024) && (data_field w =? a)
                   && (era_field w =? encoding_val e)
        | inr _ => false
        end) [ABSOLUTE; EXTERNAL; RELOCATABLE; UNKNOWN]).
    assert (H : check new_label_addr = true).
    { apply (range_check check 256); [vm_compute; reflexivity | lia]. }
    unfold check in H. rewrite forallb_forall in H.
    specialize (H encoding ltac:(destruct encoding; cbn; auto 6)).
    destruct (encode_label_address new_label_addr encoding) as [w | code]; [| discriminate].
    exists w. split; [reflexivity |].
    apply andb_prop in H as [H He]. apply andb_prop in H as [H Hd].
    apply andb_prop in H as [Hlo Hhi].
    apply Z.eqb_eq in He, Hd. apply Z.leb_le in Hlo. apply Z.ltb_lt in Hhi. auto.
  - intros Hbig. unfold encode_label_address.
    replace (new_label_addr >? U_MAX_NUM OPERAND_DATA_BITS) with true; [reflexivity |].
    symmetry. change (U_MAX_NUM OPERAND_DATA_BITS) with 255. lia.
Qed.

(** X4. [encode_label_address] puts an address of at most 255 into the data
    field of a 10-bit word and the encoding into its ERA field, so that
    both are read back from the word; a larger address ends the program
    with system error 10. *)
Theorem encode_label_address_round_trip (new_label_addr : Z) (encoding : encoding_type) :
  0 <= new_label_addr ->
  (new_label_addr <= 255 ->
   exists w, encode_label_address new_label_addr encoding = inl w
             /\ 0 <= w < 1024
             /\ data_field w = new_label_addr
             /\ era_field w = encoding_val encoding)
  /\ (255 < new_label_addr -> encode_label_address new_label_addr encoding = inr 10).
Proof. exact (encode_label_address_fields new_label_addr encoding). Qed.

Lemma external_uses_not_internal (labels_list : list label)
    (requests : list address_update_request) (r : address_update_request)
    (nm : string) (l : label) :
  NoDup (map req_address requests) ->
  In r requests -> resolve labels_list r = Some (nm, l) -> label_definition l = NORMAL ->
  forall e, In e (external_uses labels_list requests) -> mem_address e <> req_address r.
Proof.
  intros Hnd Hin Hres Hdef e He E.
  induction requests as [| r0 rest IH]; cbn in *; [easy |].
  apply NoDup_cons_iff in Hnd as [Hnot Hnd].
  apply in_app_or in He as [He | He].
  - unfold resolves_to_external in He.
    destruct (resolve labels_list r0) as [[nm0 l0] |] eqn:E0; [| easy].
    destruct (label_definition l0) eqn:Ed0; [easy |].
    destruct He as [<- | []]. cbn in E.
    destruct Hin as [-> | Hin].
    + rewrite Hres in E0. injection E0 as _ <-. congruence.
    + apply Hnot. rewrite E. now apply in_map.
  - destruct Hin as [<- | Hin]; [| now apply IH].
    apply Hnot. rewrite <- E. now apply external_uses_addresses in He.
Qed.

(** X5. A request that resolves to a label defined in the file gets its code
    word patched with the relocated address of the label in the data
    field and ERA Relocatable, and leaves no record in the externals
    list. *)
Theorem internal_fixups (c c' : assembler_context) :
  process_addr_update_requests c = Continue tt c' ->
  NoDup (map req_address (update_request_list_addresses (address_update_requests c))) ->
  let requests := update_request_list_addresses (address_update_requests c) in
  forall r nm l,
    In r requests -> resolve (labels c) r = Some (nm, l) ->
    label_definition l = NORMAL -> 0 <= label_address l ->
    (exists w, word_at (req_address r) c' = Some w
               /\ data_field w = label_address l
               /\ era_field w = encoding_val RELOCATABLE)
    /\ filter (fun e => mem_address e =? req_address r) (external_labels c')
       = filter (fun e => mem_address e =? req_address r) (external_labels c).
Proof.
  intros H Hnd requests r nm l Hin Hres Hdef Hpos.
  unfold process_addr_update_requests in H. fold requests in H.
  split.
  - destruct (process_requests_patched _ _ _ _ H Hnd r nm l) as (w & Hw & Hat).
    + destruct c; exact Hin.
    + destruct c; exact Hres.
    + exists w. split; [exact Hat |].
      unfold label_encoding in Hw. rewrite Hdef in Hw.
      destruct (encode_label_address_fields (label_address l) RELOCATABLE Hpos)
        as [Hsmall Hbig].
      destruct (Z_le_gt_dec (label_address l) 255) as [Hle | Hgt].
      * destruct (Hsmall Hle) as (w' & Hw' & _ & Hd & He).
        rewrite Hw in Hw'. injection Hw' as <-. auto.
      * rewrite Hbig in Hw by lia. discriminate.
  - apply process_requests_externals in H as [H _].
    replace (external_labels (set_address_update_requests requests c))
      with (external_labels c) in H by (destruct c; reflexivity).
    replace (labels (set_address_update_requests requests c))
      with (labels c) in H by (destruct c; reflexivity).
    rewrite H, filter_app.
    replace (filter _ (external_uses (labels c) requests)) with (@nil external);
      [now rewrite app_nil_r |].
    symmetry. apply filter_none. intros e He. apply Z.eqb_neq.
    now apply (external_uses_not_internal (labels c) requests r nm l).
Qed.

(** ** The symbol table (labels.c) *)

Lemma get_label_after_add (name0 new_name : string) (address : Z) (t : addr_type)
    (definition : def_type) (is_entry_cell : bool) (labels_list : list label) :
  get_label name0 (add_label new_name address t definition is_entry_cell labels_list)
  = match get_label name0 labels_list with
    | Some l => Some l
    | None =>
        if String.eqb new_name name0
        then Some {| label_name := new_name; label_address := address; label_type := t;
                     label_definition := definition; is_entry := is_entry_cell |}
        else None
    end.
Proof.
  unfold get_label, add_label.
  induction labels_list as [| l labels_list IH]; cbn; [reflexivity |].
  destruct (String.eqb (label_name l) name0); [reflexivity | exact IH].
Qed.

(** X6. [add_label] appends and the searches take the first node with the
    name: a name already in the list keeps the label it had, and a new
    name is found with the address, segment and definition it was added
    with. Its entry flag is not set by [add_label]: it is what the
    allocated cell held, whatever that is. *)
Theorem get_label_add_label (name0 new_name : string) (address : Z) (t : addr_type)
    (definition : def_type) (is_entry_cell : bool) (labels_list : list label) :
  get_label name0 (add_label new_name address t definition is_entry_cell labels_list)
  = match get_label name0 labels_list with
    | Some l => Some l
    | None =>
        if String.eqb new_name name0
        then Some {| label_name := new_name; label_address := address; label_type := t;
                     label_definition := definition; is_entry := is_entry_cell |}
        else None
    end.
Proof.
  exact (get_label_after_add name0 new_name address t definition is_entry_cell
           labels_list).
Qed.

(** ** The line map and the expansion of macros (lines_map.c,
    pre_processor.c) *)

Lemma get_origin_file_line_app (new_line : Z) (map1 map2 : list lines_LUT) :
  get_origin_file_line new_line (map1 ++ map2)
  = match find (fun n => new_line_num n =? new_line) map1 with
    | Some n => orign_line_num n
    | None => get_origin_file_line new_line map2
    end.
Proof.
  unfold get_origin_file_line.
  induction map1 as [| n map1 IH]; cbn; [reflexivity |].
  destruct (new_line_num n =? new_line); [reflexivity | exact IH].
Qed.

Lemma consecutive_lines_lookup (n : nat) :
  forall origin_line new_line i,
    new_line < i <= new_line + Z.of_nat n ->
    get_origin_file_line i (consecutive_lines n origin_line new_line)
    = origin_line + (i - new_line).
Proof.
  unfold get_origin_file_line.
  induction n as [| n IH]; intros o nw i H; [lia |].
  cbn [consecutive_lines find new_line_num orign_line_num].
  destruct (nw + 1 =? i) eqn:E.
  - apply Z.eqb_eq in E. cbn. lia.
  - apply Z.eqb_neq in E. rewrite IH by lia. lia.
Qed.

Lemma is_start_of_macro_plain (line : string) (c : assembler_context) :
  plain_line line = true -> is_start_of_macro line c = (None, c).
Proof.
  unfold plain_line, is_start_of_macro.
  destruct (strtok line blanks) as [| token more]; [reflexivity |].
  intros H. apply andb_prop in H as [H1 H2].
  destruct (String.eqb token "mcro"); [discriminate |].
  now destruct (String.eqb token "mcroend").
Qed.

Lemma is_macro_call_no_macros (line : string) (c : assembler_context) :
  is_macro_call line [] c = (None, c).
Proof.
  unfold is_macro_call. now destruct (strtok line blanks).
Qed.

Lemma preprocess_plain_lines (as_file : list string) :
  forall (fuel : nat) (text : string) (origin_line new_line : Z) (c : assembler_context),
    (List.length as_file <= fuel)%nat ->
    Forall (fun line => plain_line line = true) as_file ->
    macros c = [] ->
    exists c',
      preprocess_lines fuel as_file text origin_line new_line c
      = (Some (String.append text (body_text as_file)), c')
      /\ lines_maper c'
         = lines_maper c ++ consecutive_lines (List.length as_file) origin_line new_line
      /\ macros c' = [] /\ preproc_error c' = preproc_error c
      /\ printed c' = printed c.
Proof.
  induction as_file as [| line as_file IH]; intros fuel text o n c Hfuel Hplain Hm.
  - exists c. destruct fuel; cbn; rewrite append_empty_r, app_nil_r; auto.
  - destruct fuel as [| fuel]; [cbn in Hfuel; lia |].
    apply Forall_cons_iff in Hplain as [Hline Hplain].
    cbn [preprocess_lines]. rewrite (is_start_of_macro_plain _ _ Hline).
    replace (macros (set_as_file_line (as_file_line c + 1) c)) with (@nil macro)
      by (destruct c; cbn in *; congruence).
    rewrite is_macro_call_no_macros.
    edestruct (IH fuel (String.append text line) (o + 1) (n + 1)) as (c' & -> & Hmap & Hm' & He & Hp);
      [cbn in Hfuel; lia | exact Hplain | | exists c'].
    + destruct c; cbn in *; exact Hm.
    + cbn [body_text List.length consecutive_lines]. rewrite append_assoc.
      split; [reflexivity |]. rewrite Hmap, Hm', He, Hp.
      destruct c; cbn. unfold add_lines_to_map. rewrite <- app_assoc. auto.
Qed.

(** X7. A source without a line that starts with mcro or mcroend goes through
    the preprocessor as it is: the expanded file is the source, nothing
    is printed, and every line of the expanded file maps back to the same
    line of the source. *)
Theorem preprocessor_copies_plain_source (as_file : list string) :
  Forall (fun line => plain_line line = true) as_file ->
  let r := execute_preprocessor as_file init_assembler in
  fst r = true
  /\ am_file (snd r) = Some (body_text as_file)
  /\ printed (snd r) = [] /\ macros (snd r) = []
  /\ forall i, 1 <= i <= Z.of_nat (List.length as_file) ->
               get_origin_file_line i (lines_maper (snd r)) = i.
Proof.
  intros Hplain r. unfold r, execute_preprocessor.
  destruct (preprocess_plain_lines as_file (List.length as_file) EmptyString 0 0
              init_assembler (le_n _) Hplain eq_refl)
    as (c' & -> & Hmap & Hm & He & Hp).
  change (preproc_error init_assembler) with false in He.
  rewrite He. cbn [negb fst snd String.append].
  change (lines_maper init_assembler) with (@nil lines_LUT) in Hmap.
  change (printed init_assembler) with (@nil diagnostic) in Hp.
  destruct c'; cbn in *. subst.
  repeat split; try reflexivity.
  intros i Hi. rewrite consecutive_lines_lookup by lia. lia.
Qed.

Lemma map_macro_lines_spec (iterations : nat) :
  forall macro_line new_line lines_map,
    map_macro_lines iterations macro_line new_line lines_map
    = (new_line + Z.of_nat iterations,
       lines_map ++ consecutive_lines iterations (macro_line - 1) (new_line - 1)).
Proof.
  induction iterations as [| n IH]; intros ml nl lines_map.
  - cbn. now rewrite Z.add_0_r, app_nil_r.
  - cbn [map_macro_lines consecutive_lines]. rewrite IH. unfold add_lines_to_map.
    rewrite <- app_assoc. cbn [app].
    replace (ml + 1 - 1) with (ml - 1 + 1) by lia.
    replace (nl + 1 - 1) with (nl - 1 + 1) by lia.
    replace (ml - 1 + 1) with ml by lia. replace (nl - 1 + 1) with nl by lia.
    f_equal. lia.
Qed.

(** X8. A macro definition followed by a call of the macro: the expanded file
    is the body of the macro, and its lines map back to the lines of the
    body inside the definition, one below the mcro line, so that an error
    in an expanded line is reported where the line was written. *)
Theorem macro_call_expands_to_body (NAME : string) (mcro_line end_line call_line : string)
    (body : list string) :
  strtok mcro_line blanks = ["mcro"; NAME] ->
  Forall (fun line => ends_macro line = false) body ->
  body_text body <> EmptyString ->
  strtok end_line blanks = ["mcroend"] ->
  strtok call_line blanks = [NAME] ->
  NAME <> "mcro" -> NAME <> "mcroend" ->
  let r := execute_preprocessor (mcro_line :: body ++ [end_line; call_line])
             init_assembler in
  fst r = true
  /\ am_file (snd r) = Some (body_text body)
  /\ forall i, 1 <= i <= Z.of_nat (List.length body) ->
               get_origin_file_line i (lines_maper (snd r)) = i + 1.
Proof.
  intros Hmcro Hbody Hne Hend Hcall Hn1 Hn2 r. unfold r, execute_preprocessor.
  cbn [List.length].
  rewrite preprocess_lines_definition with (macro_name0 := NAME)
    by (unfold is_start_of_macro; now rewrite Hmcro).
  cbv zeta.
  set (c1 := set_as_file_line (as_file_line init_assembler + 1) init_assembler).
  set (c2 := if negb (is_name_valid NAME) then print_external_error 148 c1 else c1).
  set (c3 := if negb (can_add_name NAME c2) then print_external_error 147 c2 else c2).
  assert (H3 : macros c3 = [] /\ lines_maper c3 = [] /\ preproc_error c3 = false
               /\ as_file_line c3 = 1).
  { unfold c3, c2. destruct (negb (is_name_valid NAME));
      destruct (negb (can_add_name NAME _)); cbn; auto. }
  clearbody c3. clear c2 c1. destruct H3 as (Hm & Hl & He & Hline).
  unfold read_macro_content.
  rewrite (read_macro_content_counts_closing_line body end_line [call_line]
             EmptyString 0 c3 Hbody Hend Hne).
  cbn [String.append].
  rewrite (preprocess_lines_fuel _ 1)
    by (cbn [List.length]; rewrite ?length_app; cbn [List.length]; lia).
  cbn [preprocess_lines].
  assert (Hstart : forall c, is_start_of_macro call_line c = (None, c)).
  { intros c. unfold is_start_of_macro. rewrite Hcall.
    destruct (String.eqb_spec NAME "mcro"); [contradiction |].
    destruct (String.eqb_spec NAME "mcroend"); [contradiction | reflexivity]. }
  rewrite Hstart.
  destruct c3; cbn in Hm, Hl, He, Hline; subst.
  cbn -[preprocess_lines is_macro_call get_macro map_macro_lines Z.add Z.sub Z.of_nat].
  unfold is_macro_call. rewrite Hcall. unfold add_macro. cbn [app get_macro find macro_name].
  rewrite String.eqb_refl. cbn [macro_name macro_lines define_line macro_content macros].
  cbn [get_macro find macro_name]. rewrite String.eqb_refl.
  rewrite map_macro_lines_spec. cbn [lines_maper app].
  cbn -[Z.add Z.sub Z.of_nat Z.to_nat consecutive_lines].
  repeat split.
  intros i Hi.
  replace (Z.to_nat (0 + Z.of_nat (List.length body) + 1 - 1)) with (List.length body) by lia.
  rewrite consecutive_lines_lookup by lia. lia.
Qed.

(** ** The words of the encoder (encoder.c) *)

Lemma testbit_1023 n : 0 <= n -> Z.testbit 1023 n = (n <? 10).
Proof. intros H. change 1023 with (Z.ones 10). apply Z.testbit_ones_nonneg; lia. Qed.

Lemma testbit_3 n : 0 <= n -> Z.testbit 3 n = (n <? 2).
Proof. intros H. change 3 with (Z.ones 2). apply Z.testbit_ones_nonneg; lia. Qed.

Lemma testbit_1020 n : 0 <= n -> Z.testbit 1020 n = (2 <=? n) && (n <? 10).
Proof.
  intros H. change 1020 with (Z.shiftl (Z.ones 8) 2). rewrite Z.shiftl_spec by lia.
  destruct (Z.leb_spec 2 n).
  - rewrite Z.testbit_ones_nonneg by lia. cbn. destruct (Z.ltb_spec (n - 2) 8), (Z.ltb_spec n 10); lia || reflexivity.
  - rewrite Z.testbit_neg_r by lia. reflexivity.
Qed.

Lemma testbit_ushort x n : 0 <= n -> Z.testbit (ushort x) n = (n <? 16) && Z.testbit x n.
Proof.
  intros H. unfold ushort. destruct (Z.ltb_spec n 16).
  - now rewrite Z.mod_pow2_bits_low by lia.
  - now rewrite Z.mod_pow2_bits_high by lia.
Qed.

(** The word stored for an operand: the data bits come from the value
    put in, the ERA bits from the encoding, whatever the variable held. *)
Lemma operand_word_bits (mw d s e : Z) (n : Z) :
  0 <= n -> 2 <= s -> 0 <= e <= 3 ->
  Z.testbit
    (Z.land (insert_bits (clear_bits (insert_bits (clear_bits mw OPERAND_DATA_BITS_MASK) d s)
                             E_R_A_BITS_MASK) e E_R_A_BITS_SHIFT) WORD_BIT_MASK) n
  = if n <? 2 then Z.testbit e n
    else if n <? 10 then Z.testbit d (n - s) else false.
Proof.
  intros Hn Hs He. unfold insert_bits, clear_bits.
  change OPERAND_DATA_BITS_MASK with 1020. change E_R_A_BITS_MASK with 3.
  change E_R_A_BITS_SHIFT with 0. change WORD_BIT_MASK with 1023.
  rewrite Z.shiftl_0_r.
  rewrite Z.land_spec, testbit_1023, testbit_ushort, Z.lor_spec, testbit_ushort,
    Z.land_spec, Z.lnot_spec, testbit_3, testbit_ushort, Z.lor_spec, testbit_ushort,
    Z.land_spec, Z.lnot_spec, testbit_1020, Z.shiftl_spec by lia.
  destruct (Z.ltb_spec n 2), (Z.ltb_spec n 10), (Z.ltb_spec n 16), (Z.leb_spec 2 n);
    try lia; cbn; rewrite ?andb_false_r, ?andb_true_r, ?orb_false_r; try reflexivity.
  assert (E : Z.testbit e n = false).
  { destruct (Z.eq_dec e 0) as [-> | Hne]; [apply Z.bits_0 |].
    apply Z.bits_above_log2; [lia |].
    assert (Z.log2 e < 2) by (apply Z.log2_lt_pow2; lia). lia. }
  rewrite E, orb_false_r. reflexivity.
Qed.

Lemma word_from_bits (w lo hi : Z) :
  0 <= lo < 4 -> 0 <= hi < 256 ->
  (forall n, 0 <= n ->
     Z.testbit w n = if n <? 2 then Z.testbit lo n
                     else if n <? 10 then Z.testbit hi (n - 2) else false) ->
  w = hi * 4 + lo.
Proof.
  intros Hlo Hhi H. apply Z.bits_inj'. intros n Hn. rewrite H by exact Hn.
  replace (hi * 4 + lo) with (lo + hi * 2 ^ 2) by lia.
  destruct (Z.ltb_spec n 2).
  - rewrite <- (Z.mod_pow2_bits_low (lo + hi * 2 ^ 2) 2 n) by lia.
    rewrite Z.mod_add by lia. rewrite Z.mod_small by lia. reflexivity.
  - replace n with ((n - 2) + 2) at 3 by lia.
    rewrite <- Z.div_pow2_bits by lia.
    rewrite Z.div_add by lia. rewrite Z.div_small by lia. cbn [Z.add].
    destruct (Z.ltb_spec n 10); [reflexivity |].
    symmetry. destruct (Z.eq_dec hi 0) as [-> | Hne]; [apply Z.bits_0 |].
    apply Z.bits_above_log2; [lia |].
    assert (Z.log2 hi < 8) by (apply Z.log2_lt_pow2; lia). lia.
Qed.

Lemma clear_bits_range mw m : 0 <= clear_bits mw m < 2 ^ 16.
Proof. unfold clear_bits, ushort. apply Z.mod_pos_bound. lia. Qed.

Lemma insert_bits_zero x s : 0 <= x < 2 ^ 16 -> insert_bits x 0 s = x.
Proof.
  intros H. unfold insert_bits, ushort. rewrite Z.shiftl_0_l, Z.lor_0_r.
  apply Z.mod_small. exact H.
Qed.

Lemma stored_immediate (mw v e : Z) :
  0 <= e <= 3 -> stored_word mw v 2 e = (v mod 256) * 4 + e.
Proof.
  intros He. apply word_from_bits; [lia | apply Z.mod_pos_bound; lia |].
  intros n Hn. unfold stored_word. rewrite operand_word_bits by lia.
  destruct (Z.ltb_spec n 2); [reflexivity |].
  destruct (Z.ltb_spec n 10); [| reflexivity].
  change 256 with (2 ^ 8). now rewrite Z.mod_pow2_bits_low by lia.
Qed.

Lemma stored_low_register (mw r e : Z) :
  0 <= r <= 7 -> 0 <= e <= 3 -> stored_word mw r 2 e = r * 4 + e.
Proof.
  intros Hr He. rewrite stored_immediate by lia. rewrite Z.mod_small by lia. reflexivity.
Qed.

Lemma stored_high_register (mw r e : Z) :
  0 <= r <= 7 -> 0 <= e <= 3 -> stored_word mw r 6 e = r * 64 + e.
Proof.
  intros Hr He. replace (r * 64) with (r * 16 * 4) by lia.
  apply word_from_bits; [lia | lia |].
  intros n Hn. unfold stored_word. rewrite operand_word_bits by lia.
  destruct (Z.ltb_spec n 2); [reflexivity |].
  destruct (Z.ltb_spec n 10); [| reflexivity].
  change 16 with (2 ^ 4). rewrite Z.mul_pow2_bits by lia. f_equal. lia.
Qed.

Lemma stored_label (mw e : Z) :
  0 <= e <= 3 ->
  Z.land (insert_bits (clear_bits (clear_bits mw OPERAND_DATA_BITS_MASK) E_R_A_BITS_MASK)
            e E_R_A_BITS_SHIFT) WORD_BIT_MASK = e.
Proof.
  intros He.
  rewrite <- (insert_bits_zero (clear_bits mw OPERAND_DATA_BITS_MASK) 2)
    by apply clear_bits_range.
  fold (stored_word mw 0 2 e). now rewrite stored_immediate.
Qed.

Lemma small_register (r : Z) :
  0 <= r <= 7 -> r = 0 \/ r = 1 \/ r = 2 \/ r = 3 \/ r = 4 \/ r = 5 \/ r = 6 \/ r = 7.
Proof. lia. Qed.

Lemma stored_matrix_registers (mrw r1 r2 e : Z) :
  0 <= r1 <= 7 -> 0 <= r2 <= 7 -> 0 <= e <= 3 ->
  Z.land
    (insert_bits
       (clear_bits
          (insert_bits
             (insert_bits (clear_bits mrw OPERAND_DATA_BITS_MASK) r1
                OPERAND_DATA_SRC_REG_SHIFT)
             r2 OPERAND_DATA_DEST_REG_SHIFT)
          E_R_A_BITS_MASK)
       e E_R_A_BITS_SHIFT)
    WORD_BIT_MASK
  = r1 * 64 + r2 * 4 + e.
Proof.
  intros H1 H2 He. replace (r1 * 64 + r2 * 4) with ((r1 * 16 + r2) * 4) by lia.
  apply word_from_bits; [lia | lia |].
  intros n Hn. unfold insert_bits, clear_bits.
  change OPERAND_DATA_BITS_MASK with 1020. change E_R_A_BITS_MASK with 3.
  change E_R_A_BITS_SHIFT with 0. change WORD_BIT_MASK with 1023.
  change OPERAND_DATA_SRC_REG_SHIFT with 6. change OPERAND_DATA_DEST_REG_SHIFT with 2.
  rewrite Z.shiftl_0_r.
  rewrite Z.land_spec, testbit_1023, testbit_ushort, Z.lor_spec, testbit_ushort,
    Z.land_spec, Z.lnot_spec, testbit_3, testbit_ushort, Z.lor_spec, testbit_ushort,
    Z.lor_spec, testbit_ushort, Z.land_spec, Z.lnot_spec, testbit_1020,
    !Z.shiftl_spec by lia.
  assert (E : Z.testbit e n = if n <? 2 then Z.testbit e n else false).
  { destruct (Z.ltb_spec n 2); [reflexivity |].
    destruct (Z.eq_dec e 0) as [-> | Hne]; [apply Z.bits_0 |].
    apply Z.bits_above_log2; [lia |].
    assert (Z.log2 e < 2) by (apply Z.log2_lt_pow2; lia). lia. }
  assert (Hhi : r1 * 16 + r2 = Z.lor (Z.shiftl r1 4) r2).
  { apply small_register in H1, H2.
    destruct H1 as [-> | [-> | [-> | [-> | [-> | [-> | [-> | ->]]]]]]];
    destruct H2 as [-> | [-> | [-> | [-> | [-> | [-> | [-> | ->]]]]]]]; reflexivity. }
  rewrite Hhi, Z.lor_spec. rewrite E.
  destruct (Z.ltb_spec n 2), (Z.ltb_spec n 10), (Z.ltb_spec n 16), (Z.leb_spec 2 n);
    try lia; cbn [andb orb negb];
    rewrite ?andb_false_r, ?andb_true_r, ?orb_false_r; try reflexivity.
  rewrite Z.shiftl_spec by lia. cbn [orb].
  replace (n - 2 - 4) with (n - 6) by lia. reflexivity.
Qed.

Lemma merged_registers (rs rd : Z) :
  0 <= rs <= 7 -> 0 <= rd <= 7 ->
  ushort (Z.lor (rd * 4) (rs * 64)) = rs * 64 + rd * 4.
Proof.
  intros H1 H2. apply small_register in H1, H2.
  destruct H1 as [-> | [-> | [-> | [-> | [-> | [-> | [-> | ->]]]]]]];
  destruct H2 as [-> | [-> | [-> | [-> | [-> | [-> | [-> | ->]]]]]]]; reflexivity.
Qed.
Lemma set_no_requests (c : assembler_context) :
  set_address_update_requests (address_update_requests c ++ []) c = c.
Proof. destruct c; cbn. now rewrite app_nil_r. Qed.

Lemma out_of_range_false (v lo hi : Z) : lo <= v <= hi -> out_of_range v lo hi = false.
Proof.
  intros H. unfold out_of_range.
  destruct (Z.gtb_spec v hi), (Z.ltb_spec v lo); (lia || reflexivity).
Qed.

Lemma source_register_in_field (r : Z) :
  0 <= r <= 7 ->
  out_of_range r (MIN_NUM OPERAND_DATA_SRC_REG_BITS) (MAX_NUM OPERAND_DATA_SRC_REG_BITS)
  = false.
Proof. intros H. apply out_of_range_false. cbn. lia. Qed.

Lemma destination_register_in_field (r : Z) :
  0 <= r <= 7 ->
  out_of_range r (MIN_NUM OPERAND_DATA_DEST_REG_BITS) (MAX_NUM OPERAND_DATA_DEST_REG_BITS)
  = false.
Proof. intros H. apply out_of_range_false. cbn. lia. Qed.

Lemma no_merge {A : Type} (i amount : Z) (src dest : option operand) (merged plain : A) :
  (i =? 1) && (amount =? 2) && is_register_operand src && is_register_operand dest = false ->
  (if (i =? 1) && (amount =? 2) then
     match src, dest with
     | Some s, Some d =>
         match type s, type d with
         | REGISTER_ACCESS, REGISTER_ACCESS => merged
         | _, _ => plain
         end
     | _, _ => plain
     end
   else plain) = plain.
Proof.
  destruct ((i =? 1) && (amount =? 2)); [| reflexivity]. cbn [andb].
  destruct src as [s |], dest as [d |]; try reflexivity.
  unfold type, is_register_operand.
  destruct (op_val s), (op_val d); try reflexivity. discriminate.
Qed.

Lemma encode_operand_iteration_plain amount src dest i l c o t :
  (if (i =? 1) || (amount =? 1) then (dest, DESTINATION) else (src, SOURCE)) = (Some o, t) ->
  (i =? 1) && (amount =? 2) && is_register_operand src && is_register_operand dest = false ->
  well_formed_operand o -> fits_data_field o ->
  0 <= local_IC l -> local_IC l + 2 < 2 ^ 32 ->
  exists mw mrw,
    encode_operand_iteration amount src dest i l c
    = Continue
        {| machine_word := mw; mat_regs_machine_word := mrw;
           machine_code_buff := machine_code_buff l ++ operand_words t o;
           local_IC := local_IC l + Z.of_nat (List.length (operand_words t o)) |}
        (set_address_update_requests
           (address_update_requests c ++ operand_requests (local_IC l) o) c).
Proof.
  intros Hsel Hmerge Hwf Hfit Hic0 Hic1.
  unfold encode_operand_iteration. rewrite Hsel.
  unfold well_formed_operand, fits_data_field in Hwf, Hfit.
  unfold encode_operand_data, operand_words, operand_requests.
  cbn [machine_word mat_regs_machine_word machine_code_buff local_IC].
  destruct (op_val o) as [lab r1 r2 re | lab | val | reg] eqn:Eo.
  - destruct Hwf as (H1 & H2 & -> & Henc). rewrite Henc.
    change (out_of_range (encoding_val UNKNOWN) U_MIN_NUM (U_MAX_NUM E_R_A_BITS)) with false.
    rewrite source_register_in_field, destination_register_in_field by lia.
    cbn [orb machine_word mat_regs_machine_word machine_code_buff local_IC].
    cbv iota. rewrite (no_merge _ _ _ _ _ _ Hmerge).
    rewrite stored_label by (cbn; lia).
    rewrite stored_matrix_registers by (cbn; lia).
    rewrite !uint_small by (rewrite ?uint_small by lia; lia).
    rewrite <- app_assoc. cbn [app encoding_val List.length]. rewrite Z.add_0_r.
    do 2 eexists. f_equal. f_equal. lia.
  - rewrite Hwf.
    change (out_of_range (encoding_val UNKNOWN) U_MIN_NUM (U_MAX_NUM E_R_A_BITS)) with false.
    cbv iota. cbn [machine_word mat_regs_machine_word machine_code_buff local_IC].
    rewrite (no_merge _ _ _ _ _ _ Hmerge).
    rewrite stored_label by (cbn; lia).
    rewrite !uint_small by lia. cbn [List.length].
    do 2 eexists. reflexivity.
  - rewrite Hwf.
    change (out_of_range (encoding_val ABSOLUTE) U_MIN_NUM (U_MAX_NUM E_R_A_BITS)) with false.
    rewrite out_of_range_false by lia.
    cbv iota. cbn [machine_word mat_regs_machine_word machine_code_buff local_IC].
    rewrite (no_merge _ _ _ _ _ _ Hmerge).
    fold (stored_word (machine_word l) val OPERAND_DATA_BITS_SHIFT (encoding_val ABSOLUTE)).
    change OPERAND_DATA_BITS_SHIFT with 2.
    rewrite stored_immediate by (cbn; lia).
    rewrite !uint_small by lia. rewrite set_no_requests.
    cbn [List.length encoding_val]. rewrite Z.add_0_r.
    do 2 eexists. reflexivity.
  - destruct Hwf as [Hreg Henc]. rewrite Henc.
    change (out_of_range (encoding_val ABSOLUTE) U_MIN_NUM (U_MAX_NUM E_R_A_BITS)) with false.
    destruct t;
      rewrite ?source_register_in_field, ?destination_register_in_field by lia;
      cbv iota; cbn [machine_word mat_regs_machine_word machine_code_buff local_IC];
      rewrite (no_merge _ _ _ _ _ _ Hmerge).
    + fold (stored_word (machine_word l) reg OPERAND_DATA_DEST_REG_SHIFT (encoding_val ABSOLUTE)).
      change OPERAND_DATA_DEST_REG_SHIFT with 2.
      rewrite stored_low_register by (cbn; lia).
      rewrite !uint_small by lia. rewrite set_no_requests.
      cbn [List.length encoding_val]. rewrite Z.add_0_r.
      do 2 eexists. reflexivity.
    + fold (stored_word (machine_word l) reg OPERAND_DATA_SRC_REG_SHIFT (encoding_val ABSOLUTE)).
      change OPERAND_DATA_SRC_REG_SHIFT with 6.
      rewrite stored_high_register by (cbn; lia).
      rewrite !uint_small by lia. rewrite set_no_requests.
      cbn [List.length encoding_val]. rewrite Z.add_0_r.
      do 2 eexists. reflexivity.
Qed.
Lemma encode_instruction_word_main (op : opcode) (src dest : option operand) :
  In op opcode_table ->
  encode_instruction_word op src dest = inl (main_word op src dest).
Proof.
  intros Hin. cbn in Hin.
  repeat (destruct Hin as [<- | Hin]); try contradiction;
  destruct src as [[[] ? ?] |], dest as [[[] ? ?] |]; reflexivity.
Qed.

Lemma two_registers_words (op : opcode) (s d : operand) (rs rd : Z) (c : assembler_context) :
  In op opcode_table -> operands_amount op = 2 ->
  op_val s = U_reg rs -> op_val d = U_reg rd ->
  well_formed_operand s -> well_formed_operand d ->
  instruction_encoder op (Some s) (Some d) c
  = Continue [main_word op (Some s) (Some d); rs * 64 + rd * 4] c.
Proof.
  intros Hop Ham Es Ed Hs Hd. unfold well_formed_operand in Hs, Hd.
  rewrite Es in Hs. rewrite Ed in Hd. destruct Hs as [Rs Hs], Hd as [Rd Hd].
  destruct s as [vs es fs], d as [vd ed fd]. cbn in Es, Ed, Hs, Hd. subst.
  apply small_register in Rd, Rs. cbn in Hop.
  repeat (destruct Hop as [<- | Hop]; [ try discriminate Ham | ]); try contradiction;
  clear Ham;
  destruct Rs as [-> | [-> | [-> | [-> | [-> | [-> | [-> | ->]]]]]]];
  destruct Rd as [-> | [-> | [-> | [-> | [-> | [-> | [-> | ->]]]]]]];
  vm_compute; reflexivity.
Qed.

Lemma set_requests_twice (l1 l2 : list address_update_request) (c : assembler_context) :
  set_address_update_requests
    (address_update_requests (set_address_update_requests (address_update_requests c ++ l1) c)
     ++ l2)
    (set_address_update_requests (address_update_requests c ++ l1) c)
  = set_address_update_requests (address_update_requests c ++ l1 ++ l2) c.
Proof. destruct c; cbn. now rewrite <- app_assoc. Qed.

Lemma instruction_encoder_closed_form (op : opcode) (src dest : option operand)
    (c : assembler_context) :
  In op opcode_table -> encodable op src dest ->
  0 <= IC c -> IC c + 5 < 2 ^ 32 ->
  instruction_encoder op src dest c
  = Continue (instruction_words op src dest)
      (set_address_update_requests
         (address_update_requests c ++ instruction_requests (IC c) op src dest) c).
Proof.
  intros Hop Henc Hic0 Hic1.
  assert (Ham : operands_amount op = 0 \/ operands_amount op = 1 \/ operands_amount op = 2).
  { cbn in Hop. repeat (destruct Hop as [<- | Hop]; [cbn; lia |]). contradiction. }
  unfold encodable, instruction_words, instruction_requests in *.
  destruct Ham as [Ham | [Ham | Ham]]; rewrite Ham in *.
  - unfold instruction_encoder. rewrite encode_instruction_word_main, Ham by exact Hop.
    cbn [ushort Z.modulo Z.to_nat encode_operands machine_code_buff].
    change (Z.to_nat (ushort 0)) with 0%nat. cbn [encode_operands machine_code_buff].
    now rewrite set_no_requests.
  - destruct dest as [d |]; [| contradiction]. destruct Henc as [Hwf Hfit].
    unfold instruction_encoder. rewrite encode_instruction_word_main, Ham by exact Hop.
    change (Z.to_nat (ushort 1)) with 1%nat. change (ushort 1) with 1.
    cbn [encode_operands].
    edestruct (encode_operand_iteration_plain 1 src (Some d) 0) as (mw & mrw & ->);
      [reflexivity | reflexivity | exact Hwf | exact Hfit | | |].
    + cbn [local_IC]. rewrite uint_small by lia. lia.
    + cbn [local_IC]. rewrite uint_small by lia. lia.
    + cbn [machine_code_buff local_IC app]. rewrite uint_small by lia. reflexivity.
  - destruct src as [s |]; [| contradiction]. destruct dest as [d |]; [| contradiction].
    destruct Henc as (Hs & Hfs & Hd & Hfd).
    destruct (is_register_operand (Some s) && is_register_operand (Some d)) eqn:Eboth.
    + cbn [is_register_operand] in Eboth.
      destruct (op_val s) as [| | | rs] eqn:Es; try discriminate.
      destruct (op_val d) as [| | | rd] eqn:Ed; try discriminate.
      rewrite (two_registers_words op s d rs rd c Hop Ham Es Ed Hs Hd).
      unfold operand_requests. rewrite Es, Ed. cbn [app]. now rewrite set_no_requests.
    + unfold instruction_encoder. rewrite encode_instruction_word_main, Ham by exact Hop.
      change (Z.to_nat (ushort 2)) with 2%nat. change (ushort 2) with 2.
      cbn [encode_operands].
      edestruct (encode_operand_iteration_plain 2 (Some s) (Some d) 0) as (mw & mrw & ->);
        [reflexivity | reflexivity | exact Hs | exact Hfs | | |].
      * cbn [local_IC]. rewrite uint_small by lia. lia.
      * cbn [local_IC]. rewrite uint_small by lia. lia.
      * change (0 + 1) with 1.
        assert (Hlen : (List.length (operand_words SOURCE s) <= 2)%nat).
        { unfold operand_words. destruct (op_val s); cbn; lia. }
        edestruct (encode_operand_iteration_plain 2 (Some s) (Some d) 1) as (mw' & mrw' & ->);
          [reflexivity | | exact Hd | exact Hfd | | |].
        -- cbn [Z.eqb Pos.eqb andb]. exact Eboth.
        -- cbn [local_IC]. rewrite uint_small by lia. lia.
        -- cbn [local_IC]. rewrite uint_small by lia. lia.
        -- cbn [machine_code_buff local_IC]. rewrite uint_small by lia.
           rewrite set_requests_twice. cbn [app].
           cbn [is_register_operand] in Eboth.
           destruct (op_val s) eqn:Es, (op_val d) eqn:Ed; try discriminate Eboth;
             unfold operand_words, operand_requests; rewrite ?Es, ?Ed;
             cbn [app List.length]; rewrite <- ?app_assoc; reflexivity.
Qed.

(** X9. The encoder in closed form. For an instruction of the opcode table
    with the operands it needs, the encoder hands out the main word
    followed by the words of the operands (two registers share one word),
    and records one request for each label or matrix operand, at the
    address of the word to be patched; nothing else of the context
    changes. *)
Theorem instruction_encoder_words (op : opcode) (src dest : option operand)
    (c : assembler_context) :
  In op opcode_table -> encodable op src dest ->
  0 <= IC c -> IC c + 5 < 2 ^ 32 ->
  instruction_encoder op src dest c
  = Continue (instruction_words op src dest)
      (set_address_update_requests
         (address_update_requests c ++ instruction_requests (IC c) op src dest) c).
Proof. exact (instruction_encoder_closed_form op src dest c). Qed.

(** ** The code image and the requests of an instruction *)

Lemma code_nodes_app (l1 : list Z) :
  forall base l2,
    code_nodes base (l1 ++ l2)
    = code_nodes base l1 ++ code_nodes (base + Z.of_nat (List.length l1)) l2.
Proof.
  induction l1 as [| w l1 IH]; intros base l2; cbn [app code_nodes List.length].
  - now rewrite Z.add_0_r.
  - rewrite IH. do 3 f_equal. lia.
Qed.

Lemma code_nodes_values (words : list Z) :
  forall base, map inst_value (code_nodes base words) = words.
Proof. induction words as [| w words IH]; intros base; cbn; [| rewrite IH]; reflexivity. Qed.

Lemma code_nodes_length (words : list Z) :
  forall base, List.length (code_nodes base words) = List.length words.
Proof. induction words as [| w words IH]; intros base; cbn; [| rewrite IH]; reflexivity. Qed.

Lemma find_code_nodes_outside (words : list Z) :
  forall base a,
    a < base \/ base + Z.of_nat (List.length words) <= a ->
    find_instruction_node a (code_nodes base words) = None.
Proof.
  unfold find_instruction_node.
  induction words as [| w words IH]; intros base a H; cbn [code_nodes find]; [reflexivity |].
  cbn [inst_address List.length] in *.
  destruct (Z.eqb_spec base a); [lia |]. apply IH. lia.
Qed.

Lemma find_code_nodes_at (words : list Z) :
  forall base k w,
    nth_error words k = Some w ->
    find_instruction_node (base + Z.of_nat k) (code_nodes base words)
    = Some {| inst_value := w; inst_address := base + Z.of_nat k |}.
Proof.
  unfold find_instruction_node.
  induction words as [| w0 words IH]; intros base k w H; [now destruct k |].
  cbn [code_nodes find inst_address]. destruct k as [| k].
  - cbn in H. injection H as ->. rewrite Z.add_0_r, Z.eqb_refl. reflexivity.
  - cbn [nth_error] in H. destruct (Z.eqb_spec base (base + Z.of_nat (S k))); [lia |].
    replace (base + Z.of_nat (S k)) with (base + 1 + Z.of_nat k) by lia.
    now apply IH.
Qed.

Lemma find_instruction_node_app (a : Z) (mem1 mem2 : list inst_mem) :
  find_instruction_node a (mem1 ++ mem2)
  = match find_instruction_node a mem1 with
    | Some n => Some n
    | None => find_instruction_node a mem2
    end.
Proof.
  unfold find_instruction_node.
  induction mem1 as [| n mem1 IH]; cbn; [reflexivity |].
  destruct (inst_address n =? a); [reflexivity | exact IH].
Qed.

(** Each request of an instruction points at one of its words, a word
    with ERA Unknown and an empty data field, and they point at
    different words. *)
Lemma instruction_requests_spec (ic : Z) (op : opcode) (src dest : option operand) :
  Forall (fun r =>
            request_label_name (req_operand r) <> None
            /\ exists k, req_address r = ic + Z.of_nat k
                         /\ nth_error (instruction_words op src dest) k
                            = Some (encoding_val UNKNOWN))
         (instruction_requests ic op src dest)
  /\ NoDup (map req_address (instruction_requests ic op src dest)).
Proof.
  unfold instruction_requests, instruction_words.
  destruct (operands_amount op) as [| [p | p |] |]; try (split; constructor).
  - destruct p as [| |]; try (split; constructor).
    destruct src as [s |]; [| split; constructor].
    destruct dest as [d |]; [| split; constructor].
    unfold operand_requests, operand_words, request_label_name.
    destruct (op_val s) eqn:Es, (op_val d) eqn:Ed; cbn [app List.length map];
      (split; [repeat constructor; cbn [req_operand req_address]; rewrite ?Es, ?Ed;
               try discriminate
              | repeat constructor; cbn; lia ]).
    all: try (exists 1%nat; split; [lia | reflexivity]).
    all: try (exists 2%nat; split; [lia | reflexivity]).
    all: try (exists 3%nat; split; [lia | reflexivity]).
  - destruct dest as [d |]; [| split; constructor].
    unfold operand_requests, operand_words, request_label_name.
    destruct (op_val d) eqn:Ed; cbn [app List.length map];
      (split; [repeat constructor; cbn [req_operand req_address]; rewrite ?Ed;
               try discriminate
              | repeat constructor; cbn; lia ]).
    all: try (exists 1%nat; split; [lia | reflexivity]).
Qed.

(** ** From the first pass to the second (addresses.c, second_pass.c) *)

Lemma find_relocated_node (a : Z) (mem : list inst_mem) :
  fits_uint (a + MEMORY_ADDRESS_OFFSET) ->
  Forall (fun n => fits_uint (inst_address n + MEMORY_ADDRESS_OFFSET)) mem ->
  find_instruction_node (a + MEMORY_ADDRESS_OFFSET)
    (map (fun n => {| inst_value := inst_value n;
                      inst_address := uint (inst_address n + MEMORY_ADDRESS_OFFSET) |}) mem)
  = option_map (fun n => {| inst_value := inst_value n;
                            inst_address := inst_address n + MEMORY_ADDRESS_OFFSET |})
      (find_instruction_node a mem).
Proof.
  unfold find_instruction_node, fits_uint. intros Ha Hmem.
  induction mem as [| n mem IH]; cbn [map find option_map inst_address]; [reflexivity |].
  apply Forall_cons_iff in Hmem as [Hn Hmem].
  rewrite uint_small by lia.
  destruct (Z.eqb_spec (inst_address n) a) as [E | E].
  - rewrite (proj2 (Z.eqb_eq _ _)) by lia. reflexivity.
  - rewrite (proj2 (Z.eqb_neq _ _)) by lia. now apply IH.
Qed.

Lemma invariant_requests_deferred (c : assembler_context) :
  first_pass_invariant c -> relocation_fits c ->
  let requests := update_request_list_addresses (address_update_requests c) in
  NoDup (map req_address requests)
  /\ Forall (deferred_word_at (relocate_images c)) requests
  /\ Forall (fun r => request_label_name (req_operand r) <> None) requests.
Proof.
  intros (Hcount & Himg & Hreq & Hnd) (Hic & Hcode & _ & _) requests.
  destruct Hcount as (Hic0 & _).
  assert (Hfit : Forall (fun r => fits_uint (req_address r + MEMORY_ADDRESS_OFFSET))
                   (address_update_requests c)).
  { eapply Forall_impl; [| exact Hreq]. cbn beta. intros r (_ & (w & Hw & _) & _).
    unfold word_at in Hw.
    destruct (find_instruction_node (req_address r) (instruction_memory c)) as [n |] eqn:E;
      [| discriminate].
    apply find_some in E as [Hin E]. apply Z.eqb_eq in E. rewrite <- E.
    rewrite Forall_forall in Hcode. now apply Hcode. }
  unfold requests, update_request_list_addresses. split; [| split].
  - rewrite map_map. cbn [req_address].
    clear Hreq. induction (address_update_requests c) as [| r reqs IH]; [constructor |].
    cbn [map] in *. apply NoDup_cons_iff in Hnd as [Hnot Hnd].
    apply Forall_cons_iff in Hfit as [Hr Hfit].
    constructor; [| now apply IH].
    intros Hin. apply in_map_iff in Hin as (r' & E & Hr').
    rewrite Forall_forall in Hfit. specialize (Hfit r' Hr').
    unfold fits_uint in *. rewrite !uint_small in E by lia.
    apply Hnot. apply in_map_iff. exists r'. split; [lia | exact Hr'].
  - rewrite Forall_map. rewrite Forall_forall in *.
    intros r Hr. destruct (Hreq r Hr) as (_ & (w & Hw & Hfields) & _).
    specialize (Hfit r Hr).
    exists w. split; [| exact Hfields]. cbn [req_address].
    unfold fits_uint in Hfit. rewrite uint_small by lia.
    unfold word_at, relocate_images, update_labels_addresses, update_data_addresses,
      update_instruction_addresses in *.
    replace (instruction_memory _)
      with (map (fun n => {| inst_value := inst_value n;
                             inst_address := uint (inst_address n + MEMORY_ADDRESS_OFFSET) |})
              (instruction_memory c)) by (destruct c; reflexivity).
    rewrite find_relocated_node; [| exact Hfit | now apply Forall_forall].
    destruct (find_instruction_node (req_address r) (instruction_memory c));
      [exact Hw | discriminate].
  - rewrite Forall_map. eapply Forall_impl; [| exact Hreq]. cbn. intros r H. apply H.
Qed.

(** X10. What the first pass keeps is what the fix-ups of the second pass
    need: after relocation the requests still point at different words,
    and each at a word of the relocated code image that waits to be
    patched. *)
Theorem first_pass_invariant_serves_second_pass (c : assembler_context) :
  first_pass_invariant c -> relocation_fits c ->
  let requests := update_request_list_addresses (address_update_requests c) in
  NoDup (map req_address requests)
  /\ Forall (deferred_word_at (relocate_images c)) requests
  /\ Forall (fun r => request_label_name (req_operand r) <> None) requests.
Proof. exact (invariant_requests_deferred c). Qed.

(** X11. When the first pass left its invariant, no error is pending and every
    request names a label of the symbol table whose final address fits
    the data field, the second pass succeeds without printing anything,
    and the word of every request then holds the encoded address of its
    label. *)
Theorem second_pass_resolves_requests (c : assembler_context) :
  first_pass_invariant c -> relocation_fits c ->
  second_pass_error c = false ->
  let requests := update_request_list_addresses (address_update_requests c) in
  Forall (request_resolves (labels (relocate_images c))) requests ->
  exists c',
    execute_second_pass c = Continue tt c'
    /\ printed c' = printed c /\ second_pass_error c' = false
    /\ Forall (fun r =>
                 exists nm l w,
                   resolve (labels (relocate_images c)) r = Some (nm, l)
                   /\ encode_label_address (label_address l) (label_encoding l) = inl w
                   /\ word_at (req_address r) c' = Some w)
              requests.
Proof.
  intros Hinv Hfit Herr requests Hres.
  destruct (invariant_requests_deferred c Hinv Hfit) as (Hnd & Hdef & _).
  fold requests in Hnd, Hdef.
  unfold execute_second_pass. fold (relocate_images c).
  unfold process_addr_update_requests. cbv zeta.
  replace (address_update_requests (relocate_images c))
    with (address_update_requests c) by (destruct c; reflexivity).
  fold requests.
  set (c0 := set_address_update_requests requests (relocate_images c)).
  assert (H0 : labels c0 = labels (relocate_images c)
               /\ instruction_memory c0 = instruction_memory (relocate_images c)
               /\ address_update_requests c0 = requests
               /\ printed c0 = printed c /\ second_pass_error c0 = false).
  { unfold c0. destruct c; cbn in *. auto. }
  destruct H0 as (Hl0 & Hm0 & Hr0 & Hp0 & He0).
  rewrite Hr0.
  destruct (process_requests_runs requests 0 c0) as [c' Hrun].
  { now rewrite Hl0. }
  { eapply Forall_impl; [| exact Hdef]. intros r Hr. rewrite Hm0.
    now apply deferred_word_found. }
  rewrite Hrun.
  pose proof (process_requests_frame requests 0 c0 c') as Hframe.
  rewrite Hrun in Hframe. destruct (Hframe eq_refl) as (_ & _ & _ & _ & He & _).
  destruct (process_requests_externals _ _ _ _ Hrun) as [_ Hp].
  rewrite He, He0. cbn [negb].
  exists c'. split; [reflexivity |]. split; [now rewrite Hp |]. split; [now rewrite He |].
  rewrite Forall_forall in *. intros r Hr.
  destruct (Hres r Hr) as (nm & l & w & Hresolve & Hw).
  exists nm, l, w. split; [exact Hresolve |]. split; [exact Hw |].
  destruct (process_requests_patched requests 0 c0 c' Hrun Hnd r nm l Hr) as (w' & Hw' & Hat).
  - now rewrite Hl0.
  - rewrite Hw in Hw'. now injection Hw' as <-.
Qed.

(** ** The operand parsers (instructions.c) *)

Lemma index_of_range (str : string) (table : list string) :
  forall i, 0 <= i ->
    index_of str table i = -1
    \/ i <= index_of str table i < i + Z.of_nat (List.length table).
Proof.
  induction table as [| name0 table IH]; intros i Hi; cbn [index_of List.length];
    [now left |].
  destruct (String.eqb str name0); [right; lia |].
  destruct (IH (i + 1) ltac:(lia)) as [-> | H]; [now left | right; lia].
Qed.

Lemma register_number (str : string) :
  is_register str = true -> 0 <= get_reg_num str <= 7.
Proof.
  unfold is_register, get_reg_num. intros H.
  destruct (index_of_range str registers 0 ltac:(lia)) as [E | E].
  - rewrite E in H. discriminate.
  - change (Z.of_nat (List.length registers)) with 8 in E. lia.
Qed.

Lemma try_parse_matrix_operand_parsed (operand_str : string) (am_file_line : Z)
    (c c' : assembler_context) (o : operand) :
  try_parse_matrix_operand operand_str am_file_line c = (Parsed o, c') ->
  well_formed_operand o /\ c' = c.
Proof.
  unfold try_parse_matrix_operand. intros H.
  destruct (scan_to "[" operand_str) as [| label_name [| ch1 p1]]; try discriminate.
  destruct (scan_to "]" p1) as [| temp1 [| ch2 [| ch3 p2]]]; try discriminate.
  destruct (negb (Ascii.eqb ch3 "[")); [discriminate |].
  destruct (scan_to "]" p2) as [| temp2 [| ch4 p3]]; try discriminate.
  destruct (is_register temp1) eqn:E1, (is_register temp2) eqn:E2,
    (is_name_valid label_name); cbv beta iota zeta delta [negb] in H; try discriminate.
  injection H as <- <-. unfold well_formed_operand. cbn [op_val op_encoding].
  pose proof (register_number _ E1). pose proof (register_number _ E2).
  repeat split; (reflexivity || lia).
Qed.

Lemma read_immediate_digits_done (p : string) :
  forall buff room buff' rest,
    read_immediate_digits p buff room = inr (buff', rest) ->
    exists digits,
      p = String.append digits rest /\ buff' = String.append buff digits
      /\ all_chars isdigit digits = true.
Proof.
  induction p as [| ch p IH]; intros buff room buff' rest H.
  - destruct room; cbn in H; injection H as <- <-; exists EmptyString;
      rewrite !append_empty_r; repeat split.
  - destruct room as [| room]; cbn [read_immediate_digits] in H.
    + injection H as <- <-. exists EmptyString. rewrite !append_empty_r. repeat split.
    + destruct (isdigit ch) eqn:Ed.
      * apply IH in H as (digits & -> & -> & Hd). exists (String ch digits).
        rewrite append_assoc. cbn. now rewrite Ed.
      * destruct (Ascii.eqb ch "."); discriminate.
Qed.

Lemma immediate_sign_split (p : string) :
  exists sign p0,
    p = String.append sign p0
    /\ (sign = EmptyString \/ sign = "+" \/ sign = "-")
    /\ match p with
       | String ch p' =>
           if Ascii.eqb ch "-" || Ascii.eqb ch "+"
           then (String ch EmptyString, p') else (EmptyString, p)
       | EmptyString => (EmptyString, p)
       end = (sign, p0).
Proof.
  destruct p as [| ch p']; [exists EmptyString, EmptyString; auto |].
  destruct (Ascii.eqb_spec ch "-") as [E |]; [subst; exists "-", p'; cbn; auto 6 |].
  destruct (Ascii.eqb_spec ch "+") as [E |]; [subst; exists "+", p'; cbn; auto 6 |].
  exists EmptyString, (String ch p'). cbn.
  destruct (Ascii.eqb_spec ch "-"); [contradiction |].
  destruct (Ascii.eqb_spec ch "+"); [contradiction |]. auto 6.
Qed.

Lemma int_of_long_strtol (value : Z) :
  - 2 ^ 31 <= value < 2 ^ 31 -> int_of_long (strtol value) = value.
Proof.
  intros H. unfold strtol, LONG_MIN, LONG_MAX, int_of_long.
  assert (H63 : 2 ^ 31 < 2 ^ 63) by reflexivity.
  rewrite Z.min_r, Z.max_r by lia.
  change (2 ^ 32) with (2 * 2 ^ 31). rewrite Z.mod_small; lia.
Qed.

Lemma decimal_digits_bound (digits : string) : forall acc,
  all_chars isdigit digits = true -> 0 <= acc ->
  let value := fold_left (fun acc ch => 10 * acc + (char_val ch - 48))
                 (list_ascii_of_string digits) acc in
  acc * 10 ^ Z.of_nat (String.length digits) <= value
  /\ value < (acc + 1) * 10 ^ Z.of_nat (String.length digits).
Proof.
  induction digits as [| ch digits IH]; intros acc Hd Hacc.
  - cbn. lia.
  - cbn [all_chars] in Hd. apply andb_prop in Hd as [Hch Hd].
    unfold isdigit in Hch. apply andb_prop in Hch as [H48 H57].
    apply Z.leb_le in H48, H57.
    cbn [list_ascii_of_string fold_left String.length].
    specialize (IH (10 * acc + (char_val ch - 48)) Hd ltac:(lia)). cbv zeta in IH.
    rewrite Nat2Z.inj_succ, Z.pow_succ_r by lia.
    assert (Hpow : 0 < 10 ^ Z.of_nat (String.length digits))
      by (apply Z.pow_pos_nonneg; lia).
    cbv zeta. split; nia.
Qed.

Lemma decimal_value_bound (digits : string) :
  all_chars isdigit digits = true ->
  0 <= decimal_value digits < 10 ^ Z.of_nat (String.length digits).
Proof.
  intros Hd. pose proof (decimal_digits_bound digits 0 Hd ltac:(lia)) as H.
  cbv zeta in H. unfold decimal_value. lia.
Qed.

Lemma immediate_parsed_format (operand_str : string) (o o' : operand)
    (c c' : assembler_context) :
  try_parse_immediate_operand operand_str o c = (Parsed o', c') ->
  exists sign digits,
    let written := if String.eqb sign "-" then - decimal_value digits
                   else decimal_value digits in
    operand_str = String "#" (String.append sign digits)
    /\ (sign = EmptyString \/ sign = "+" \/ sign = "-")
    /\ digits <> EmptyString /\ all_chars isdigit digits = true
    /\ op_val o' = U_val (int_of_long (strtol written))
    /\ (- 2 ^ 31 <= written < 2 ^ 31 -> op_val o' = U_val written)
    /\ (MAX_NUM_DIGITS <= 9 -> op_val o' = U_val written)
    /\ op_encoding o' = ABSOLUTE /\ c' = c.
Proof.
  unfold try_parse_immediate_operand. intros H.
  destruct operand_str as [| first p]; [discriminate |].
  destruct (Ascii.eqb_spec first "#") as [-> |]; cbn [negb] in H; [| discriminate].
  destruct (immediate_sign_split p) as (sign & p0 & -> & Hsign & E). rewrite E in H. clear E.
  destruct p0 as [| ch0 p0']; [discriminate |].
  destruct (read_immediate_digits (String ch0 p0') sign _) as [code | [buff rest]] eqn:Er;
    [discriminate |].
  destruct rest; [| discriminate].
  destruct (_ <? _) eqn:Elen; [| discriminate].
  injection H as <- <-.
  apply read_immediate_digits_done in Er as (digits & Ep & -> & Hd).
  rewrite append_empty_r in Ep. rewrite Ep.
  exists sign, digits. cbv zeta.
  set (written := if String.eqb sign "-" then - decimal_value digits
                  else decimal_value digits).
  assert (Hval : atoi_signed (String.append sign digits) = int_of_long (strtol written)).
  { unfold written.
    destruct Hsign as [-> | [-> | ->]]; cbn [String.append String.eqb atoi_signed].
    - unfold atoi_signed. destruct digits as [| d digits]; [reflexivity |].
      cbn [all_chars] in Hd. apply andb_prop in Hd as [Hd _].
      destruct (Ascii.eqb_spec d "-") as [-> |]; [discriminate |].
      destruct (Ascii.eqb_spec d "+") as [-> |]; [discriminate |]. reflexivity.
    - reflexivity.
    - reflexivity. }
  split; [reflexivity |]. split; [exact Hsign |].
  split; [intros ->; destruct sign; discriminate |].
  split; [exact Hd |]. cbn [op_val op_encoding]. rewrite Hval.
  split; [reflexivity |].
  split; [intros Hint; now rewrite int_of_long_strtol |].
  split; [| auto].
  intros Hmax. rewrite int_of_long_strtol; [reflexivity |].
  apply Z.ltb_lt in Elen.
  assert (Hlen : Z.of_nat (String.length digits) <= 9).
  { assert (Hl : (String.length digits <= String.length (String.append sign digits))%nat).
    { clear. induction sign as [| ch sign IH]; cbn [String.append String.length]; lia. }
    lia. }
  pose proof (decimal_value_bound digits Hd) as Hb.
  assert (Hpow : 10 ^ Z.of_nat (String.length digits) <= 10 ^ 9)
    by (apply Z.pow_le_mono_r; lia).
  assert (H9 : 10 ^ 9 < 2 ^ 31) by reflexivity.
  unfold written. destruct (String.eqb sign "-"); lia.
Qed.

(** X12. An operand string that is taken as an immediate has the format of
    one: the sign #, an optional sign + or -, and one decimal digit at
    least and nothing else; the operand is Absolute and holds the number
    written as [atoi] reads it, which is the number itself when it fits
    an [int], as it always does when the immediate has room for nine
    digits at most; and nothing is printed. *)
Theorem immediate_operand_format (operand_str : string) (o o' : operand)
    (c c' : assembler_context) :
  try_parse_immediate_operand operand_str o c = (Parsed o', c') ->
  exists sign digits,
    let written := if String.eqb sign "-" then - decimal_value digits
                   else decimal_value digits in
    operand_str = String "#" (String.append sign digits)
    /\ (sign = EmptyString \/ sign = "+" \/ sign = "-")
    /\ digits <> EmptyString /\ all_chars isdigit digits = true
    /\ op_val o' = U_val (int_of_long (strtol written))
    /\ (- 2 ^ 31 <= written < 2 ^ 31 -> op_val o' = U_val written)
    /\ (MAX_NUM_DIGITS <= 9 -> op_val o' = U_val written)
    /\ op_encoding o' = ABSOLUTE /\ c' = c.
Proof. exact (immediate_parsed_format operand_str o o' c c'). Qed.

Lemma scan_to_stop (stop : ascii) (stepped_over rest : string) :
  all_chars (stepped_over_char stop) stepped_over = true ->
  scan_to stop (String.append stepped_over (String stop rest))
  = Scan stepped_over (String stop rest).
Proof.
  induction stepped_over as [| ch s IH]; cbn [String.append scan_to all_chars].
  - now rewrite Ascii.eqb_refl.
  - intros H. apply andb_prop in H as [Hch Hs]. unfold stepped_over_char in Hch.
    apply andb_prop in Hch as [H1 H2].
    destruct (Ascii.eqb ch stop); [discriminate |].
    destruct (isspace ch); [discriminate |]. now rewrite IH.
Qed.

Lemma scan_to_end (stop : ascii) (stepped_over : string) :
  all_chars (stepped_over_char stop) stepped_over = true ->
  scan_to stop stepped_over = Scan stepped_over EmptyString.
Proof.
  induction stepped_over as [| ch s IH]; cbn [scan_to all_chars]; [reflexivity |].
  intros H. apply andb_prop in H as [Hch Hs]. unfold stepped_over_char in Hch.
  apply andb_prop in Hch as [H1 H2].
  destruct (Ascii.eqb ch stop); [discriminate |].
  destruct (isspace ch); [discriminate |]. now rewrite IH.
Qed.

(** X13. What follows the second pair of brackets of a matrix operand is
    never looked at: the operand is parsed as if it ended there, and with
    two register names in the brackets and a valid name before them it
    is taken, whatever follows. *)
Theorem matrix_operand_ignores_what_follows (label_name temp1 temp2 junk : string)
    (am_file_line : Z) (c : assembler_context) :
  all_chars (stepped_over_char "[") label_name = true ->
  all_chars (stepped_over_char "]") temp1 = true ->
  all_chars (stepped_over_char "]") temp2 = true ->
  let matrix :=
    String.append label_name
      (String "[" (String.append temp1
         (String "]" (String "[" (String.append temp2 (String "]" EmptyString)))))) in
  let followed :=
    String.append label_name
      (String "[" (String.append temp1
         (String "]" (String "[" (String.append temp2 (String "]" junk)))))) in
  try_parse_matrix_operand followed am_file_line c
  = try_parse_matrix_operand matrix am_file_line c
  /\ (is_register temp1 = true -> is_register temp2 = true ->
      is_name_valid label_name = true ->
      try_parse_matrix_operand followed am_file_line c
      = (Parsed {| op_val := U_matrix label_name (get_reg_num temp1) (get_reg_num temp2)
                               ABSOLUTE;
                   op_encoding := UNKNOWN; file_line := am_file_line |}, c)).
Proof.
  intros Hl H1 H2 matrix followed.
  assert (E : forall tail,
             try_parse_matrix_operand
               (String.append label_name
                  (String "[" (String.append temp1
                     (String "]" (String "[" (String.append temp2 (String "]" tail)))))))
               am_file_line c
             = let format_error := false in
               let '(format_error, c) :=
                 if negb (is_register temp1)
                 then (true, print_external_error 110 c) else (format_error, c) in
               let '(format_error, c) :=
                 if negb (is_register temp2)
                 then (true, print_external_error 111 c) else (format_error, c) in
               let '(format_error, c) :=
                 if negb (is_name_valid label_name)
                 then (true, print_external_error 112 c) else (format_error, c) in
               if format_error then (Format_error, c)
               else
                 (Parsed {| op_val := U_matrix label_name (get_reg_num temp1)
                                        (get_reg_num temp2) ABSOLUTE;
                            op_encoding := UNKNOWN; file_line := am_file_line |}, c)).
  { intros tail. unfold try_parse_matrix_operand.
    rewrite (scan_to_stop "[" label_name _ Hl).
    rewrite (scan_to_stop "]" temp1 _ H1).
    cbn [Ascii.eqb Bool.eqb negb].
    rewrite (scan_to_stop "]" temp2 _ H2). reflexivity. }
  unfold matrix, followed. split.
  - now rewrite !E.
  - intros R1 R2 Hn. rewrite E, R1, R2, Hn. reflexivity.
Qed.

Lemma name_char_is_stepped_over (ch : ascii) :
  isalnum ch || Ascii.eqb ch "_" = true -> stepped_over_char "[" ch = true.
Proof. destruct ch as [[] [] [] [] [] [] [] []]; vm_compute; auto. Qed.

Lemma letter_is_no_hash (ch : ascii) : isalpha ch = true -> Ascii.eqb ch "#" = false.
Proof. destruct ch as [[] [] [] [] [] [] [] []]; vm_compute; auto. Qed.

Lemma letter_is_name_char (ch : ascii) :
  isalpha ch = true -> isalnum ch || Ascii.eqb ch "_" = true.
Proof. unfold isalnum. now intros ->. Qed.

Lemma all_chars_impl (test1 test2 : ascii -> bool) (s : string) :
  (forall ch, test1 ch = true -> test2 ch = true) ->
  all_chars test1 s = true -> all_chars test2 s = true.
Proof.
  intros Himpl. induction s as [| ch s IH]; cbn; [reflexivity |].
  intros H. apply andb_prop in H as [H1 H2]. now rewrite (Himpl _ H1), IH.
Qed.

(** X14. A valid name that is not the name of a register is parsed as a label
    operand: it is no immediate and no matrix, and the operand is Unknown
    until the second pass, with the line of the file it was read at. *)
Theorem name_parses_as_label (operand_str : string) (o : operand) (am_file_line : Z)
    (c : assembler_context) :
  is_name_valid operand_str = true -> is_register operand_str = false ->
  parse_operand operand_str o am_file_line c
  = (Parsed {| op_val := U_label operand_str; op_encoding := UNKNOWN;
               file_line := am_file_line |}, c).
Proof.
  intros Hname Hreg. unfold parse_operand, try_parse_reg_operand.
  unfold is_register in Hreg. rewrite Hreg.
  assert (Hchars : exists ch rest,
             operand_str = String ch rest /\ isalpha ch = true
             /\ all_chars (stepped_over_char "[") operand_str = true).
  { unfold is_name_valid in Hname. destruct (_ >? _); [discriminate |].
    destruct operand_str as [| ch rest]; [discriminate |].
    apply andb_prop in Hname as [Ha Hr]. exists ch, rest.
    split; [reflexivity |]. split; [exact Ha |].
    cbn [all_chars].
    rewrite (name_char_is_stepped_over ch (letter_is_name_char ch Ha)).
    apply (all_chars_impl _ _ rest name_char_is_stepped_over Hr). }
  destruct Hchars as (ch & rest & E & Ha & Hall).
  unfold try_parse_immediate_operand. rewrite E at 1.
  rewrite (letter_is_no_hash ch Ha). cbn [negb].
  unfold try_parse_matrix_operand. rewrite (scan_to_end "[" operand_str Hall).
  unfold try_parse_direct_operand. now rewrite Hname.
Qed.

(** X15. Whatever [parse_operand] hands out as parsed is an operand the
    encoder can work with: register numbers are indexes of registers,
    registers and immediates are Absolute, labels and matrices Unknown;
    and nothing was printed on the way. *)
Theorem parse_operand_well_formed (operand_str : string) (o o' : operand)
    (am_file_line : Z) (c c' : assembler_context) :
  parse_operand operand_str o am_file_line c = (Parsed o', c') ->
  well_formed_operand o' /\ c' = c.
Proof.
  unfold parse_operand. intros H.
  destruct (try_parse_reg_operand operand_str o) as [o1 |] eqn:Er.
  - injection H as <- <-. split; [| reflexivity].
    unfold try_parse_reg_operand in Er.
    destruct (negb (get_reg_num operand_str =? -1)) eqn:E; [| discriminate].
    injection Er as <-. unfold well_formed_operand. cbn [op_val op_encoding].
    split; [| reflexivity]. apply register_number. exact E.
  - destruct (try_parse_immediate_operand operand_str o c) as [[o2 | | |] c2] eqn:Ei;
      try discriminate.
    + injection H as <- <-.
      apply immediate_parsed_format in Ei
        as (sign & digits & _ & _ & _ & _ & Hv & _ & _ & He & ->).
      split; [| reflexivity]. unfold well_formed_operand. now rewrite Hv.
    + assert (c2 = c) as ->.
      { unfold try_parse_immediate_operand in Ei.
        destruct operand_str as [| first p]; [now injection Ei as <- |].
        destruct (negb (Ascii.eqb first "#")); [now injection Ei as <- |].
        destruct (match p with String _ _ => _ | EmptyString => _ end) as [buff p0].
        destruct p0; [discriminate |].
        destruct (read_immediate_digits _ _ _) as [| [buff' [| ]]]; try discriminate.
        destruct (_ <? _); discriminate. }
      destruct (try_parse_matrix_operand operand_str am_file_line c)
        as [[o3 | | |] c3] eqn:Em; try discriminate.
      * injection H as <- <-. now apply try_parse_matrix_operand_parsed in Em.
      * assert (c3 = c) as ->.
        { unfold try_parse_matrix_operand in Em.
          repeat match type of Em with
                 | context [match ?x with _ => _ end] => destruct x
                 | context [if ?x then _ else _] => destruct x
                 end; try discriminate; now injection Em as <-. }
        unfold try_parse_direct_operand in H.
        destruct (negb (is_name_valid operand_str)); [discriminate |].
        injection H as <- <-. split; reflexivity.
Qed.

(** ** .extern and .entry lines (directives.c, first_pass.c,
    second_pass.c) *)

(** X16. An .extern line that the first pass accepts has the directive and
    one valid name that was not in use; the name is then in the symbol
    table as an external label without a segment, at address 0, nothing
    else changes, and the external labels keep the form the second pass
    relies on. The entry flag of the new label is not set: it is what the
    allocated cell held, whatever that is. *)
Theorem extern_line_declares_label (line : string) (is_entry_cell : bool)
    (c c' : assembler_context) :
  first_pass_extern_line line is_entry_cell c = (true, c') ->
  exists label_name0,
    let declared :=
      {| label_name := label_name0; label_address := EXTERNAL_TEMP_ADDR;
         label_type := UNKNOWN_ADDR_TYPE; label_definition := EXTERN;
         is_entry := is_entry_cell |} in
    strtok line blanks = [".extern"; label_name0]
    /\ is_name_valid label_name0 = true
    /\ get_label label_name0 (labels c) = None
    /\ labels c' = labels c ++ [declared]
    /\ get_label label_name0 (labels c') = Some declared
    /\ c' = set_labels (labels c') c
    /\ (Forall external_label_ok (labels c) -> Forall external_label_ok (labels c')).
Proof.
  unfold first_pass_extern_line, get_extern_label. intros H.
  destruct (strtok line blanks) as [| token [| label_name0 more]] eqn:Et;
    try discriminate.
  - destruct (negb _); discriminate.
  - destruct (String.eqb_spec token ".extern") as [-> |]; cbn [negb] in H; [| discriminate].
    destruct (is_name_valid label_name0) eqn:Ev; cbn [negb] in H; [| discriminate].
    destruct (can_add_name label_name0 c) eqn:Ea; cbn [negb] in H; [| discriminate].
    destruct more; [| discriminate]. injection H as <-.
    assert (Hnew : get_label label_name0 (labels c) = None).
    { unfold can_add_name, is_used_name, is_label_defined in Ea.
      destruct (get_label label_name0 (labels c)); [| reflexivity].
      rewrite !orb_true_r in Ea. discriminate. }
    exists label_name0. split; [reflexivity |]. split; [exact Ev |].
    split; [exact Hnew |].
    replace (labels (set_labels _ c))
      with (add_label label_name0 EXTERNAL_TEMP_ADDR UNKNOWN_ADDR_TYPE EXTERN
              is_entry_cell (labels c))
      by (destruct c; reflexivity).
    split; [reflexivity |]. split.
    + rewrite get_label_after_add, Hnew, String.eqb_refl. reflexivity.
    + split; [reflexivity |]. intros Hok. unfold add_label. apply Forall_app.
      split; [exact Hok |]. constructor; [| constructor].
      unfold external_label_ok. cbn. auto.
Qed.

Lemma mark_entry_spec (name0 : string) (labels_list : list label) (l : label) :
  get_label name0 labels_list = Some l ->
  get_label name0 (mark_entry name0 labels_list)
  = Some {| label_name := label_name l; label_address := label_address l;
            label_type := label_type l; label_definition := label_definition l;
            is_entry := true |}
  /\ is_entry_label_exist (mark_entry name0 labels_list) = true
  /\ map label_name (mark_entry name0 labels_list) = map label_name labels_list
  /\ map label_address (mark_entry name0 labels_list) = map label_address labels_list
  /\ map label_type (mark_entry name0 labels_list) = map label_type labels_list
  /\ map label_definition (mark_entry name0 labels_list)
     = map label_definition labels_list
  /\ forall other, other <> name0 ->
       get_label other (mark_entry name0 labels_list) = get_label other labels_list.
Proof.
  unfold get_label, is_entry_label_exist.
  induction labels_list as [| x labels_list IH]; cbn [find mark_entry]; [discriminate |].
  destruct (String.eqb_spec (label_name x) name0) as [E | E].
  - intros H. injection H as <-. cbn [find label_name existsb is_entry map].
    rewrite E, String.eqb_refl. repeat split; try reflexivity.
    intros other Hother.
    destruct (String.eqb_spec name0 other); [congruence | reflexivity].
  - intros H. destruct (IH H) as (H1 & H2 & H3 & H4 & H5 & H6 & H7).
    cbn [find existsb map]. rewrite (proj2 (String.eqb_neq _ _) E).
    rewrite H1, H2, H3, H4, H5, H6, orb_true_r. repeat split; try reflexivity.
    intros other Hother. rewrite (H7 other Hother). reflexivity.
Qed.

(** X17. An .entry line of the second pass that holds the directive and one
    valid name. For a label defined in the file
    the first label of that name is marked as an entry, so that an
    entries file is due, and nothing else of the symbol table or the
    context changes and nothing is printed; for a name that is not in
    the table error 141 is printed, for an external label error 142, and
    in both cases the second pass is marked as failed and the table is
    left alone. *)
Theorem entry_line_marks_label (line entry_label : string) (am_file_line : Z)
    (c : assembler_context) :
  strtok line blanks = [".entry"; entry_label] -> is_name_valid entry_label = true ->
  let c' := second_pass_entry_line line am_file_line c in
  match get_label entry_label (labels c) with
  | None =>
      printed c' = printed c ++ [External_error 141]
      /\ second_pass_error c' = true /\ second_pass_error_line c' = am_file_line
      /\ labels c' = labels c
  | Some l =>
      match label_definition l with
      | EXTERN =>
          printed c' = printed c ++ [External_error 142]
          /\ second_pass_error c' = true /\ second_pass_error_line c' = am_file_line
          /\ labels c' = labels c
      | NORMAL =>
          c' = set_labels (mark_entry entry_label (labels c)) c
          /\ get_label entry_label (labels c')
             = Some {| label_name := label_name l; label_address := label_address l;
                       label_type := label_type l; label_definition := NORMAL;
                       is_entry := true |}
          /\ is_entry_label_exist (labels c') = true
          /\ map label_address (labels c') = map label_address (labels c)
      end
  end.
Proof.
  intros Htok Hvalid c'. unfold c', second_pass_entry_line, get_entry_label.
  rewrite Htok, Hvalid. cbn [String.eqb Ascii.eqb Bool.eqb negb andb].
  unfold is_label_defined.
  destruct (get_label entry_label (labels c)) as [l |] eqn:El; cbn [negb].
  - destruct (label_definition l) eqn:Ed.
    + destruct (mark_entry_spec entry_label (labels c) l El)
        as (H1 & H2 & _ & H4 & _).
      replace (labels (set_labels (mark_entry entry_label (labels c)) c))
        with (mark_entry entry_label (labels c)) by (destruct c; reflexivity).
      rewrite H1, H2, H4, Ed. auto.
    + destruct c; cbn. auto.
  - destruct c; cbn. auto.
Qed.

(** ** The words of an instruction and their print (encoder.c, util.c) *)

Lemma main_word_range (op : opcode) (src dest : option operand) :
  In op opcode_table -> 0 <= main_word op src dest < 1024.
Proof.
  intros Hin. unfold main_word.
  assert (0 <= opcode_code op <= 15)
    by (cbn in Hin; repeat (destruct Hin as [<- | Hin]; [cbn; lia |]); contradiction).
  assert (0 <= mode_tag src <= 3) by (destruct src as [[[] ? ?] |]; cbn; lia).
  assert (0 <= mode_tag dest <= 3) by (destruct dest as [[[] ? ?] |]; cbn; lia).
  lia.
Qed.

Lemma operand_words_range (op_type : operand_type) (o : operand) :
  well_formed_operand o ->
  Forall (fun w => 0 <= w < 1024) (operand_words op_type o)
  /\ (1 <= List.length (operand_words op_type o) <= 2)%nat.
Proof.
  unfold well_formed_operand, operand_words. intros Hwf.
  destruct (op_val o) as [nm r1 r2 e | nm | val | reg].
  - split; [| cbn; lia]. repeat constructor; cbn; lia.
  - split; [| cbn; lia]. repeat constructor; cbn; lia.
  - split; [| cbn; lia]. repeat constructor.
    + pose proof (Z.mod_pos_bound val 256). lia.
    + pose proof (Z.mod_pos_bound val 256). lia.
  - split; [| cbn; lia]. destruct op_type; repeat constructor; lia.
Qed.

(** X18. An instruction of the opcode table with operands as the parser fills
    them is encoded in one to five words, each of them a 10-bit word: a
    print of five base-4 letters or more, as [create_obj_file] asks
    [to_base4_str] for, gives the word without loss. *)
Theorem encoder_words_fit_ten_bits (op : opcode) (src dest : option operand)
    (c : assembler_context) :
  In op opcode_table -> encodable op src dest ->
  0 <= IC c -> IC c + 5 < 2 ^ 32 ->
  exists out c',
    instruction_encoder op src dest c = Continue out c'
    /\ (1 <= List.length out <= 5)%nat
    /\ Forall (fun w => 0 <= w < 1024
                        /\ forall word_len, 5 <= word_len ->
                             base4_value (to_base4_str (uint w) word_len) = w) out.
Proof.
  intros Hop Henc Hic0 Hic1.
  rewrite instruction_encoder_closed_form by assumption.
  do 2 eexists. split; [reflexivity |].
  assert (Hw : (1 <= List.length (instruction_words op src dest) <= 5)%nat
               /\ Forall (fun w => 0 <= w < 1024) (instruction_words op src dest)).
  { pose proof (main_word_range op src dest Hop) as Hm.
    unfold encodable, instruction_words in *.
    destruct (operands_amount op) as [| [p | p |] | p]; try contradiction.
    - split; [cbn; lia | repeat constructor; lia].
    - destruct p as [p | p |]; try contradiction.
      destruct src as [s |]; [| contradiction]. destruct dest as [d |]; [| contradiction].
      destruct Henc as (Hs & _ & Hd & _).
      destruct (operand_words_range SOURCE s Hs) as [Fs Ls].
      destruct (operand_words_range DESTINATION d Hd) as [Fd Ld].
      assert (Hgen : (1 <= List.length
                            (main_word op (Some s) (Some d)
                             :: operand_words SOURCE s ++ operand_words DESTINATION d) <= 5)%nat
                     /\ Forall (fun w => 0 <= w < 1024)
                          (main_word op (Some s) (Some d)
                           :: operand_words SOURCE s ++ operand_words DESTINATION d)).
      { split.
        - cbn [List.length]. rewrite length_app. lia.
        - constructor; [exact Hm |]. apply Forall_app. split; assumption. }
      unfold well_formed_operand in Hs, Hd.
      destruct (op_val s) as [| | | rs]; try exact Hgen.
      destruct (op_val d) as [| | | rd]; try exact Hgen.
      split; [cbn; lia |]. repeat constructor; lia.
    - destruct dest as [d |]; [| contradiction]. destruct Henc as [Hd _].
      destruct (operand_words_range DESTINATION d Hd) as [Fd Ld].
      split; [cbn [List.length]; lia |]. constructor; assumption. }
  destruct Hw as [Hlen Hall]. split; [exact Hlen |].
  eapply Forall_impl; [| exact Hall]. intros w Hw. cbv beta in Hw. split; [exact Hw |].
  intros word_len Hlen5.
  destruct (base4_fixed_length (uint w) word_len ltac:(lia)) as (_ & _ & ->).
  assert (H32 : 1024 < 2 ^ 32) by reflexivity.
  assert (H45 : 4 ^ 5 <= 4 ^ word_len) by (apply Z.pow_le_mono_r; lia).
  change (4 ^ 5) with 1024 in H45.
  rewrite uint_small by lia. apply Z.mod_small. lia.
Qed.

(** X19. An immediate outside -128 .. 127 as the first operand the encoder
    comes to (the source of a two-operand instruction, the operand of a
    one-operand instruction) is refused by the encoder with error 143.
    An instruction line whose operands have addressing modes the opcode
    permits, and so reaches the encoder, is rejected with that error and
    nothing is stored or recorded. *)
Theorem immediate_out_of_range_rejected (op : opcode) (src dest : option operand)
    (o : operand) (val : Z) (c : assembler_context) :
  In op opcode_table ->
  (operands_amount op = 1 /\ dest = Some o) \/ (operands_amount op = 2 /\ src = Some o) ->
  op_val o = U_val val -> val < -128 \/ 127 < val ->
  instruction_encoder op src dest c = Return_false (print_external_error 143 c)
  /\ (operand_modes_ok op src dest = true ->
      handle_instruction_line op src dest c = Return_false (print_external_error 143 c)).
Proof.
  intros Hop Hfirst Hval Hout.
  assert (Henc : instruction_encoder op src dest c
                 = Return_false (print_external_error 143 c)).
  { assert (Hr : out_of_range val (MIN_NUM OPERAND_DATA_BITS) (MAX_NUM OPERAND_DATA_BITS)
                 = true).
    { unfold out_of_range. change (MAX_NUM OPERAND_DATA_BITS) with 127.
      change (MIN_NUM OPERAND_DATA_BITS) with (-128).
      apply orb_true_iff. destruct Hout; [right | left]; lia. }
    unfold instruction_encoder. rewrite encode_instruction_word_main by exact Hop.
    destruct Hfirst as [[Ham ->] | [Ham ->]]; rewrite Ham.
    - change (Z.to_nat (ushort 1)) with 1%nat. change (ushort 1) with 1.
      cbn [encode_operands]. unfold encode_operand_iteration.
      cbn [Z.eqb Pos.eqb orb]. unfold encode_operand_data. rewrite Hval, Hr. reflexivity.
    - change (Z.to_nat (ushort 2)) with 2%nat. change (ushort 2) with 2.
      cbn [encode_operands]. unfold encode_operand_iteration.
      cbn [Z.eqb Pos.eqb orb]. unfold encode_operand_data. rewrite Hval, Hr. reflexivity. }
  split; [exact Henc |]. intros Hmodes. unfold handle_instruction_line.
  rewrite check_operand_modes_ok by exact Hmodes. rewrite Henc. reflexivity.
Qed.

(** ** The capacity of the memory

    From here on the capacity is a value an unsigned int holds. *)

Hypothesis capacity_fits : 0 <= MEMORY_AVAILABLE_SPACE < 2 ^ 32.

(** ** Appending to the images *)

Lemma add_instruction_to_memory_ok (w : Z) (c : assembler_context) :
  0 <= memory_usage c < MEMORY_AVAILABLE_SPACE -> 0 <= IC c < 2 ^ 32 - 1 ->
  add_instruction_to_memory w c =
    (true,
     set_memory_usage (memory_usage c + 1)
       (set_IC (IC c + 1)
          (set_instruction_memory
             (instruction_memory c ++ [ {| inst_value := w; inst_address := IC c |} ]) c))).
Proof.
  intros Hm Hi. unfold add_instruction_to_memory.
  destruct (memory_usage c =? MEMORY_AVAILABLE_SPACE) eqn:E.
  - apply Z.eqb_eq in E. lia.
  - rewrite !uint_small by lia. reflexivity.
Qed.

Lemma add_data_to_memory_ok (v : Z) (c : assembler_context) :
  0 <= memory_usage c < MEMORY_AVAILABLE_SPACE -> 0 <= DC c < 2 ^ 32 - 1 ->
  add_data_to_memory v c =
    (true,
     set_memory_usage (memory_usage c + 1)
       (set_DC (DC c + 1)
          (set_data_memory
             (data_memory c ++ [ {| data_value := v; data_address := DC c |} ]) c))).
Proof.
  intros Hm Hd. unfold add_data_to_memory.
  destruct (memory_usage c >=? MEMORY_AVAILABLE_SPACE) eqn:E.
  - apply Z.geb_le in E. lia.
  - rewrite !uint_small by lia. reflexivity.
Qed.

(** C4. Appending a word to the code image or to the data image fails
    exactly when memory_usage has reached the capacity; a failed append
    leaves the context as it was; a successful one gives the word the
    current counter as its address and adds one to that counter and to
    memory_usage, the other image and counter being untouched, so that
    memory_usage = IC + DC is kept. *)
Theorem append_fails_exactly_when_full (w : Z) (c : assembler_context) :
  counters_ok c ->
  (fst (add_instruction_to_memory w c) = false <-> memory_usage c = MEMORY_AVAILABLE_SPACE)
  /\ (fst (add_data_to_memory w c) = false <-> memory_usage c = MEMORY_AVAILABLE_SPACE)
  /\ (fst (add_instruction_to_memory w c) = false -> snd (add_instruction_to_memory w c) = c)
  /\ (fst (add_data_to_memory w c) = false -> snd (add_data_to_memory w c) = c)
  /\ (fst (add_instruction_to_memory w c) = true ->
      let c' := snd (add_instruction_to_memory w c) in
      instruction_memory c' =
        instruction_memory c ++ [ {| inst_value := w; inst_address := IC c |} ]
      /\ IC c' = IC c + 1 /\ memory_usage c' = memory_usage c + 1
      /\ DC c' = DC c /\ data_memory c' = data_memory c /\ counters_ok c')
  /\ (fst (add_data_to_memory w c) = true ->
      let c' := snd (add_data_to_memory w c) in
      data_memory c' = data_memory c ++ [ {| data_value := w; data_address := DC c |} ]
      /\ DC c' = DC c + 1 /\ memory_usage c' = memory_usage c + 1
      /\ IC c' = IC c /\ instruction_memory c' = instruction_memory c /\ counters_ok c').
Proof.
  intros (Hi & Hd & Hsum & Hcap).
  destruct (Z.eq_dec (memory_usage c) MEMORY_AVAILABLE_SPACE) as [Hfull | Hfree].
  - assert (Ei : add_instruction_to_memory w c = (false, c)).
    { unfold add_instruction_to_memory. now rewrite (proj2 (Z.eqb_eq _ _) Hfull). }
    assert (Ed : add_data_to_memory w c = (false, c)).
    { unfold add_data_to_memory.
      destruct (memory_usage c >=? MEMORY_AVAILABLE_SPACE) eqn:E; [reflexivity |].
      rewrite Z.geb_leb in E. apply Z.leb_gt in E. lia. }
    rewrite Ei, Ed. cbn. repeat split; auto; discriminate.
  - rewrite add_instruction_to_memory_ok, add_data_to_memory_ok by lia.
    unfold counters_ok. destruct c; cbn in *.
    repeat split; intros; try discriminate; try reflexivity; try lia.
Qed.

(** ** The encoder *)




Lemma merge_last_two_keeps_head (main w : Z) (rest : list Z) :
  rest <> [] ->
  exists rest', merge_last_two (main :: rest ++ [w]) = main :: rest' /\ rest' <> [].
Proof.
  intros Hne. destruct (rev rest) as [| x front] eqn:E.
  - apply (f_equal (@rev Z)) in E. rewrite rev_involutive in E. now subst.
  - assert (Hr : rest = rev front ++ [x]).
    { rewrite <- (rev_involutive rest), E. reflexivity. }
    subst rest. unfold merge_last_two.
    change (main :: (rev front ++ [x]) ++ [w]) with ((main :: rev front ++ [x]) ++ [w]).
    rewrite rev_app_distr. cbn [rev app].
    rewrite rev_app_distr. cbn [rev app]. rewrite rev_app_distr, rev_involutive.
    cbn [rev app]. eexists. split; [reflexivity |].
    intros Hc. apply app_eq_nil in Hc. destruct Hc. discriminate.
Qed.

Lemma encode_operand_data_buff op_type o l c l' c' :
  encode_operand_data op_type o l c = Continue l' c' ->
  machine_code_buff l' = machine_code_buff l.
Proof.
  unfold encode_operand_data. intros H.
  repeat match type of H with
         | context [match ?x with _ => _ end] => destruct x
         | context [if ?x then _ else _] => destruct x
         end; try discriminate; injection H as <- <-; reflexivity.
Qed.

Lemma encode_operand_iteration_head amount src dest i l c l' c' main rest :
  encode_operand_iteration amount src dest i l c = Continue l' c' ->
  machine_code_buff l = main :: rest -> (i = 1 -> rest <> []) ->
  exists rest', machine_code_buff l' = main :: rest' /\ rest' <> [].
Proof.
  unfold encode_operand_iteration. intros H Hb Hi.
  destruct ((i =? 1) || (amount =? 1)) eqn:Esel;
  match type of H with context [match ?o with Some _ => _ | None => _ end] =>
    destruct o as [o |]; [| discriminate] end;
  match type of H with context [encode_operand_data ?t ?o ?l ?c] =>
    destruct (encode_operand_data t o l c) as [l1 c1 | |] eqn:Ed; try discriminate;
    apply encode_operand_data_buff in Ed; cbn in Ed; rewrite Hb in Ed end;
  destruct (out_of_range _ _ _); try discriminate.
  all: destruct ((i =? 1) && (amount =? 2)) eqn:Em.
  all: rewrite Ed in H; unfold type in H.
  all: repeat match type of H with
              | context [match ?x with Some _ => _ | None => _ end] => is_var x; destruct x
              | context [op_val ?x] => destruct (op_val x)
              end.
  all: cbn in H; injection H as <- <-; cbn [machine_code_buff app].
  all: try (eexists; split; [reflexivity |];
            intros Hc; apply app_eq_nil in Hc; destruct Hc as [_ Hc]; discriminate Hc).
  all: apply andb_prop in Em; destruct Em as [Em _]; apply Z.eqb_eq in Em.
  all: apply merge_last_two_keeps_head; auto.
Qed.

Lemma encode_operands_head remaining : forall amount src dest i l c l' c' main rest,
  encode_operands remaining amount src dest i l c = Continue l' c' ->
  machine_code_buff l = main :: rest -> (i = 1 -> rest <> []) ->
  exists rest', machine_code_buff l' = main :: rest'.
Proof.
  induction remaining as [| n IH]; intros amount src dest i l c l' c' main rest H Hb Hi.
  - cbn in H. injection H as <- <-. eauto.
  - cbn [encode_operands] in H.
    destruct (encode_operand_iteration amount src dest i l c) as [l1 c1 | |] eqn:E;
      try discriminate.
    destruct (encode_operand_iteration_head _ _ _ _ _ _ _ _ _ _ E Hb Hi) as (rest1 & Hb1 & Hne).
    eapply IH; eauto.
Qed.

Lemma instruction_encoder_head op src dest c words c' :
  instruction_encoder op src dest c = Continue words c' ->
  exists main rest,
    words = main :: rest /\ encode_instruction_word op src dest = inl main.
Proof.
  unfold instruction_encoder. intros H.
  destruct (encode_instruction_word op src dest) as [w | code]; [| discriminate].
  match type of H with context [encode_operands ?n ?a ?s ?d ?i ?l ?c] =>
    destruct (encode_operands n a s d i l c) as [l1 c1 | |] eqn:E; try discriminate end.
  injection H as <- <-.
  eapply encode_operands_head in E as (rest & Hr); [| reflexivity | discriminate].
  eauto.
Qed.

Lemma main_word_fields op src dest main :
  In op opcode_table -> encode_instruction_word op src dest = inl main ->
  opcode_field main = opcode_code op /\ src_mode_field main = mode_tag src
  /\ dest_mode_field main = mode_tag dest /\ era_field main = encoding_val ABSOLUTE.
Proof.
  intros Hin H. cbn in Hin.
  repeat (destruct Hin as [<- | Hin]); try contradiction;
  destruct src as [[[] ? ?] |], dest as [[[] ? ?] |];
  vm_compute in H; injection H as <-; vm_compute; auto.
Qed.

Lemma add_instruction_codes_ok out : forall c,
  0 <= memory_usage c ->
  memory_usage c + Z.of_nat (List.length out) <= MEMORY_AVAILABLE_SPACE ->
  0 <= IC c -> IC c + Z.of_nat (List.length out) < 2 ^ 32 ->
  add_instruction_codes out c =
    (true,
     set_memory_usage (memory_usage c + Z.of_nat (List.length out))
       (set_IC (IC c + Z.of_nat (List.length out))
          (set_instruction_memory (instruction_memory c ++ code_nodes (IC c) out) c))).
Proof.
  induction out as [| w out IH]; intros c Hm Hcap Hi Hic.
  - destruct c; cbn. f_equal. f_equal; try lia. now rewrite app_nil_r.
  - cbn [add_instruction_codes List.length] in *.
    rewrite add_instruction_to_memory_ok by lia.
    destruct c; cbn in *. rewrite IH by (cbn; lia). cbn. f_equal.
    f_equal; try lia. now rewrite <- app_assoc.
Qed.

Lemma stop_is_opcode_15 (stop : opcode) :
  get_opcode_info "stop" = Some stop ->
  stop = Build_opcode 15 "stop" 0 NONE NONE ABSOLUTE.
Proof. intros H. vm_compute in H. now injection H as <-. Qed.

Lemma stop_encoding (c : assembler_context) :
  instruction_encoder (Build_opcode 15 "stop" 0 NONE NONE ABSOLUTE) None None c
  = Continue [960] c.
Proof. reflexivity. Qed.



(** C7. The first word the encoder emits for an instruction is the main
    word: opcode in bits 9..6, source addressing mode in bits 5..4 and
    destination addressing mode in bits 3..2 (zero for an absent
    operand), ERA 00; the line [stop] gives IC = 1, DC = 0 and the single
    word with opcode 15 in bits 9..6 and nothing else. *)
Theorem main_word_first :
  forall (op stop : opcode) (src dest : option operand) (c c' : assembler_context)
         (words : list Z),
    In op opcode_table ->
    instruction_encoder op src dest c = Continue words c' ->
    get_opcode_info "stop" = Some stop ->
    1 <= MEMORY_AVAILABLE_SPACE ->
    (exists main rest,
        words = main :: rest
        /\ opcode_field main = opcode_code op
        /\ src_mode_field main = mode_tag src
        /\ dest_mode_field main = mode_tag dest
        /\ era_field main = encoding_val ABSOLUTE)
    /\ (exists c1 word,
          handle_instruction_line stop None None init_assembler = Continue tt c1
          /\ IC c1 = 1 /\ DC c1 = 0
          /\ instruction_memory c1 = [ {| inst_value := word; inst_address := 0 |} ]
          /\ word = Z.shiftl 15 OPCODE_BITS_SHIFT
          /\ opcode_field word = 15 /\ src_mode_field word = 0
          /\ dest_mode_field word = 0 /\ era_field word = 0).
Proof.
  intros op stop src dest c c' words Hop Henc Hstop Hcap. split.
  - destruct (instruction_encoder_head _ _ _ _ _ _ Henc) as (main & rest & -> & Hw).
    exists main, rest. split; [reflexivity |]. now apply main_word_fields.
  - apply stop_is_opcode_15 in Hstop as ->.
    unfold handle_instruction_line.
    rewrite check_operand_modes_ok by reflexivity. rewrite stop_encoding.
    change (memory_usage init_assembler) with 0.
    rewrite (proj2 (Z.leb_le 0 _)) by lia.
    rewrite add_instruction_codes_ok by (cbn; lia).
    eexists. exists 960. cbn. repeat split.
Qed.

(** ** Data directives *)

Lemma insert_data_values_ok (data : list Z) : forall c,
  Forall fits_word data ->
  0 <= memory_usage c ->
  memory_usage c + Z.of_nat (List.length data) <= MEMORY_AVAILABLE_SPACE ->
  0 <= DC c -> DC c + Z.of_nat (List.length data) < 2 ^ 32 ->
  insert_data_values data c =
    (true,
     set_memory_usage (memory_usage c + Z.of_nat (List.length data))
       (set_DC (DC c + Z.of_nat (List.length data))
          (set_data_memory (data_memory c ++ data_nodes (DC c) data) c))).
Proof.
  induction data as [| v data IH]; intros c Hfit Hm Hcap Hd Hdc.
  - destruct c; cbn. f_equal. f_equal; try lia. now rewrite app_nil_r.
  - apply Forall_cons_iff in Hfit as [Hv Hfit].
    cbn [insert_data_values List.length] in *.
    unfold fits_word in Hv. unfold out_of_range.
    destruct (v >? MAX_NUM WORD_BIT_SIZE) eqn:E1; [apply Z.gtb_lt in E1; lia |].
    destruct (v <? MIN_NUM WORD_BIT_SIZE) eqn:E2; [apply Z.ltb_lt in E2; lia |].
    cbn [orb]. rewrite add_data_to_memory_ok by lia.
    destruct c; cbn in *. rewrite IH by (cbn; auto; lia). cbn. f_equal.
    f_equal; try lia. now rewrite <- app_assoc.
Qed.

(** What an insertion that succeeds was given. *)
Lemma insert_data_values_true (data : list Z) : forall c c',
  insert_data_values data c = (true, c') ->
  0 <= memory_usage c <= MEMORY_AVAILABLE_SPACE ->
  Forall fits_word data
  /\ memory_usage c + Z.of_nat (List.length data) <= MEMORY_AVAILABLE_SPACE.
Proof.
  induction data as [| v data IH]; intros c c' H Hm.
  - cbn. split; [constructor | lia].
  - cbn [insert_data_values List.length] in *.
    unfold out_of_range in H.
    destruct (v >? MAX_NUM WORD_BIT_SIZE) eqn:E1; [discriminate |].
    destruct (v <? MIN_NUM WORD_BIT_SIZE) eqn:E2; [discriminate |].
    cbn [orb] in H.
    unfold add_data_to_memory in H.
    destruct (memory_usage c >=? MEMORY_AVAILABLE_SPACE) eqn:E3.
    + destruct (memory_usage c =? MEMORY_AVAILABLE_SPACE); discriminate.
    + rewrite Z.geb_leb in E3. apply Z.leb_gt in E3.
      apply IH in H.
      * destruct c; cbn in *. rewrite uint_small in H by lia.
        destruct H as [Hf Hc]. split; [| lia].
        constructor; [| exact Hf]. unfold fits_word.
        change (MAX_NUM WORD_BIT_SIZE) with 511 in *.
        change (MIN_NUM WORD_BIT_SIZE) with (-512) in *.
        rewrite Z.gtb_ltb in E1. apply Z.ltb_ge in E1. apply Z.ltb_ge in E2. lia.
      * destruct c; cbn in *. rewrite uint_small by lia. lia.
Qed.

Lemma skip_spaces_split (p : string) :
  exists blank, p = String.append blank (skip_spaces p) /\ only_spaces blank = true.
Proof.
  induction p as [| ch p (blank & E & Hb)]; cbn.
  - exists EmptyString. auto.
  - destruct (isspace ch) eqn:Es.
    + exists (String ch blank). cbn. rewrite Es, Hb. split; [now f_equal | reflexivity].
    + exists EmptyString. auto.
Qed.

Lemma only_spaces_append (a b : string) :
  only_spaces a = true -> only_spaces b = true -> only_spaces (String.append a b) = true.
Proof.
  induction a as [| ch a IH]; cbn; [auto |].
  intros H Hb. apply andb_prop in H as [-> H]. cbn. auto.
Qed.

Lemma read_quoted_closed (p : string) : forall buff s rest,
  read_quoted p buff = Closed s rest ->
  exists t, s = String.append buff t
            /\ p = String.append t (String quote_char rest)
            /\ all_chars is_string_char t = true.
Proof.
  induction p as [| ch p IH]; intros buff s rest H; cbn [read_quoted] in H; [discriminate |].
  destruct (Ascii.eqb ch quote_char) eqn:Eq.
  - apply Ascii.eqb_eq in Eq. subst ch. injection H as <- <-.
    exists EmptyString. now rewrite append_empty_r.
  - destruct (isalnum ch || isspace ch) eqn:Ec; [| discriminate].
    apply IH in H as (t & -> & -> & Ht).
    exists (String ch t). rewrite append_assoc. cbn.
    unfold is_string_char at 1. rewrite Ec, Ht. auto.
Qed.

Lemma length_append (a b : string) :
  String.length (String.append a b) = (String.length a + String.length b)%nat.
Proof. induction a as [| ch a IH]; cbn; [reflexivity | now rewrite IH]. Qed.

Lemma list_ascii_length (s : string) :
  List.length (list_ascii_of_string s) = String.length s.
Proof. induction s as [| ch s IH]; cbn; [reflexivity | now rewrite IH]. Qed.

Lemma extract_directive_string_some (line s : string) (c c' : assembler_context) :
  extract_directive_string line c = (Some s, c') ->
  c' = c
  /\ exists blank1 blank2,
       line = String.append blank1 (String.append (quoted_string s) blank2)
       /\ only_spaces blank1 = true /\ only_spaces blank2 = true
       /\ all_chars is_string_char s = true.
Proof.
  unfold extract_directive_string. intros H.
  destruct (skip_spaces_split line) as (blank1 & E & Hb1).
  destruct (skip_spaces line) as [| ch p]; [discriminate |].
  destruct (Ascii.eqb ch quote_char) eqn:Eq; cbn [negb] in H; [| discriminate].
  apply Ascii.eqb_eq in Eq. subst ch.
  destruct (read_quoted p EmptyString) as [buff rest | |] eqn:Er; try discriminate.
  destruct (only_spaces rest) eqn:Eo; [| discriminate].
  injection H as <- <-. split; [reflexivity |].
  apply read_quoted_closed in Er as (t & -> & -> & Ht). cbn [String.append].
  exists blank1, rest. unfold quoted_string. rewrite E. cbn [String.append].
  rewrite append_assoc. cbn [String.append]. auto.
Qed.

(** C9, as the code has it. An accepted .string directive has the form
    of a string of letters, digits and white space between double
    quotes. While memory_usage has not passed the capacity it adds to the
    data image, in order, one word with the code of each character of
    the string and a closing 0 word; "HELLO" adds the six words H, E, L,
    L, O, 0. Once an instruction has overflowed the memory, memory_usage
    is above the capacity and an accepted directive stores nothing. The
    data counter counts words that count in memory_usage, as it does in
    every state of the first pass. *)
Theorem string_directive_words (rest : string) (c c' : assembler_context) :
  0 <= DC c <= memory_usage c ->
  handle_data_directives_line (String_line rest) c = (true, c') ->
  (exists s blank1 blank2,
      rest = String.append blank1 (String.append (quoted_string s) blank2)
      /\ only_spaces blank1 = true /\ only_spaces blank2 = true
      /\ all_chars is_string_char s = true
      /\ (memory_usage c <= MEMORY_AVAILABLE_SPACE ->
          data_memory c'
          = data_memory c
            ++ data_nodes (DC c) (map char_val (list_ascii_of_string s) ++ [0])
          /\ DC c' = DC c + Z.of_nat (String.length s) + 1
          /\ memory_usage c' = memory_usage c + Z.of_nat (String.length s) + 1
          /\ IC c' = IC c /\ instruction_memory c' = instruction_memory c)
      /\ (MEMORY_AVAILABLE_SPACE < memory_usage c -> c' = c))
  /\ (memory_usage c + 6 <= MEMORY_AVAILABLE_SPACE ->
      exists c6,
        handle_data_directives_line (String_line (quoted_string "HELLO")) c = (true, c6)
        /\ data_memory c6 = data_memory c ++ data_nodes (DC c) [72; 69; 76; 76; 79; 0]).
Proof.
  intros [Hd Hdm] H. split.
  - unfold handle_data_directives_line, parse_string_directive in H.
    destruct (extract_directive_string (skip_spaces rest) c) as [[s |] c1] eqn:Ee;
      [| discriminate].
    apply extract_directive_string_some in Ee
      as (-> & blank1 & blank2 & E & Hb1 & Hb2 & Hs).
    destruct (skip_spaces_split rest) as (blank0 & E0 & Hb0).
    exists s, (String.append blank0 blank1), blank2.
    split; [rewrite append_assoc, <- E; exact E0 |].
    split; [now apply only_spaces_append |].
    split; [exact Hb2 |]. split; [exact Hs |].
    unfold insert_to_data_memory in H. split.
    + intros Hcap.
      rewrite (proj2 (Z.leb_le _ _) Hcap) in H.
      pose proof (insert_data_values_true _ _ _ H ltac:(lia)) as [Hfit Hroom].
      rewrite insert_data_values_ok in H by (auto; lia).
      injection H as <-.
      rewrite length_app, length_map, list_ascii_length in *. cbn [List.length] in *.
      destruct c; cbn in *. repeat split; lia.
    + intros Hover.
      rewrite (proj2 (Z.leb_gt _ _) Hover) in H. now injection H as <-.
  - intros Hroom. eexists.
    unfold handle_data_directives_line, parse_string_directive.
    change (extract_directive_string (skip_spaces (quoted_string "HELLO")) c)
      with (Some "HELLO", c).
    change (map char_val (list_ascii_of_string "HELLO") ++ [0])
      with [72; 69; 76; 76; 79; 0].
    unfold insert_to_data_memory.
    rewrite (proj2 (Z.leb_le _ _)) by lia.
    assert (Hfit : Forall fits_word [72; 69; 76; 76; 79; 0]).
    { repeat (constructor; [unfold fits_word; cbn; lia |]). constructor. }
    rewrite (insert_data_values_ok _ _ Hfit) by (cbn [List.length]; lia).
    split; [reflexivity |]. destruct c; reflexivity.
Qed.

Lemma extract_numbers_loop_context (fuel : nat) :
  forall expect_number p arr c result c',
    extract_numbers_loop fuel expect_number p arr c = (Some result, c') -> c' = c.
Proof.
  induction fuel as [| fuel IH]; intros e p arr c result c' H; cbn [extract_numbers_loop] in H;
    [discriminate |].
  destruct p as [| ch p'].
  - destruct e; [discriminate | now injection H as _ <-].
  - destruct e.
    + destruct (Ascii.eqb ch "+" || Ascii.eqb ch "-");
        (destruct (negb (starts_with isdigit _)); [discriminate |]);
        (destruct (span_digits _) as [digits r]);
        (destruct (starts_with (Ascii.eqb ".") r); [discriminate |]);
        (destruct (starts_with isalpha r); [discriminate |]);
        now apply IH in H.
    + destruct (skip_spaces (String ch p')) as [| ch' q]; [now injection H as _ <- |].
      destruct (Ascii.eqb ch' ",") eqn:E.
      * apply Ascii.eqb_eq in E. subst ch'. now apply IH in H.
      * destruct ch' as [[] [] [] [] [] [] [] []]; try discriminate H.
        discriminate E.
Qed.

Lemma extract_directive_numbers_context (line : string) (c c' : assembler_context)
    (result : list Z) :
  extract_directive_numbers line c = (Some result, c') -> c' = c.
Proof.
  unfold extract_directive_numbers.
  destruct (skip_spaces line); [now intros H; injection H as _ <- |].
  apply extract_numbers_loop_context.
Qed.

Lemma int_of_long_range (value : Z) : - 2 ^ 31 <= int_of_long value < 2 ^ 31.
Proof.
  unfold int_of_long. pose proof (Z.mod_pos_bound (value + 2 ^ 31) (2 ^ 32) eq_refl) as H.
  change (2 ^ 32) with (2 * 2 ^ 31) in *. lia.
Qed.

Lemma extract_numbers_loop_ints (fuel : nat) :
  forall expect_number p arr c result c',
    extract_numbers_loop fuel expect_number p arr c = (Some result, c') ->
    Forall (fun v => - 2 ^ 31 <= v < 2 ^ 31) arr ->
    Forall (fun v => - 2 ^ 31 <= v < 2 ^ 31) result.
Proof.
  induction fuel as [| fuel IH]; intros e p arr c result c' H Harr;
    cbn [extract_numbers_loop] in H; [discriminate |].
  destruct p as [| ch p'].
  - destruct e; [discriminate | now injection H as <- _].
  - destruct e.
    + destruct (Ascii.eqb ch "+" || Ascii.eqb ch "-");
        (destruct (negb (starts_with isdigit _)); [discriminate |]);
        (destruct (span_digits _) as [digits r]);
        (destruct (starts_with (Ascii.eqb ".") r); [discriminate |]);
        (destruct (starts_with isalpha r); [discriminate |]);
        (apply IH in H; [exact H |]);
        (apply Forall_app; split; [exact Harr |]);
        (constructor; [apply int_of_long_range | constructor]).
    + destruct (skip_spaces (String ch p')) as [| ch' q]; [now injection H as <- _ |].
      destruct (Ascii.eqb ch' ",") eqn:E.
      * apply Ascii.eqb_eq in E. subst ch'. now apply IH in H.
      * destruct ch' as [[] [] [] [] [] [] [] []]; try discriminate H.
        discriminate E.
Qed.

Lemma extract_directive_numbers_ints (line : string) (c c' : assembler_context)
    (result : list Z) :
  extract_directive_numbers line c = (Some result, c') ->
  Forall (fun v => - 2 ^ 31 <= v < 2 ^ 31) result.
Proof.
  unfold extract_directive_numbers.
  destruct (skip_spaces line); [intros H; injection H as <- _; constructor |].
  intros H. eapply extract_numbers_loop_ints; [exact H | constructor].
Qed.

(** C8, as the code has it. A .mat declaration with a row or column count
    of 0 is rejected with an error. For positive counts and k values
    given: more than rows*cols values are rejected with an error and the
    data image is left as it was; otherwise, when every value fits a
    word and the memory has room, the directive appends exactly rows*cols
    words, the k values in order followed by rows*cols-k zeros. *)
Theorem mat_directive_words (row col : Z) (rest : string) (values : list Z)
    (c c0 : assembler_context) :
  counters_ok c ->
  extract_directive_numbers (skip_spaces rest) c = (Some values, c0) ->
  let k := Z.of_nat (List.length values) in
  (forall rows cols line,
      rows = 0 \/ cols = 0 ->
      handle_data_directives_line (Mat_line (Size rows cols) line) c
      = (false, print_external_error 136 c))
  /\ (0 < row -> 0 < col -> k > row * col ->
      handle_data_directives_line (Mat_line (Size row col) rest) c
      = (false, print_external_error 137 c)
      /\ data_memory (print_external_error 137 c) = data_memory c)
  /\ (0 < row -> 0 < col -> k <= row * col ->
      Forall fits_word values ->
      memory_usage c + row * col <= MEMORY_AVAILABLE_SPACE ->
      exists c',
        handle_data_directives_line (Mat_line (Size row col) rest) c = (true, c')
        /\ data_memory c'
           = data_memory c
             ++ data_nodes (DC c) (values ++ repeat 0 (Z.to_nat (row * col - k)))
        /\ Z.of_nat (List.length (values ++ repeat 0 (Z.to_nat (row * col - k))))
           = row * col
        /\ DC c' = DC c + row * col).
Proof.
  intros (Hi & Hd & Hsum & Hcap) Hex k.
  pose proof (extract_directive_numbers_context _ _ _ _ Hex) as ->.
  split; [| split].
  - intros rows cols line [-> | ->]; unfold handle_data_directives_line, parse_mat_directive;
      cbn [Z.eqb orb]; [reflexivity |].
    now rewrite Bool.orb_true_r.
  - intros Hr Hc Hk. unfold handle_data_directives_line, parse_mat_directive.
    destruct (row =? 0) eqn:E1; [apply Z.eqb_eq in E1; lia |].
    destruct (col =? 0) eqn:E2; [apply Z.eqb_eq in E2; lia |].
    cbn [orb]. rewrite Hex. unfold mat_size. fold k.
    rewrite (proj2 (Z.gtb_lt _ _)) by lia. split; [reflexivity |].
    destruct c; reflexivity.
  - intros Hr Hc Hk Hfit Hroom. unfold handle_data_directives_line, parse_mat_directive.
    destruct (row =? 0) eqn:E1; [apply Z.eqb_eq in E1; lia |].
    destruct (col =? 0) eqn:E2; [apply Z.eqb_eq in E2; lia |].
    cbn [orb]. rewrite Hex. unfold mat_size. fold k.
    destruct (k >? row * col) eqn:E3; [apply Z.gtb_lt in E3; lia |].
    assert (Hlen : Z.of_nat (List.length (values ++ repeat 0 (Z.to_nat (row * col - k))))
                   = row * col).
    { rewrite length_app, repeat_length. fold k. lia. }
    unfold insert_to_data_memory. rewrite (proj2 (Z.leb_le _ _) Hcap).
    rewrite insert_data_values_ok; rewrite ?Hlen; try lia.
    + eexists. split; [reflexivity |]. destruct c; cbn. auto.
    + apply Forall_app. split; [exact Hfit |].
      apply Forall_forall. intros x Hx. apply repeat_spec in Hx. subst x.
      unfold fits_word. cbn. lia.
Qed.

(** ** What an instruction line leaves behind (instructions.c) *)

(** X20. An instruction line whose operands have addressing modes the
    opcode permits, that the encoder takes and that fits the memory is
    accepted: its words are appended at the addresses from IC on, IC
    goes up by their number, its requests are added to the list, and the
    data image, the labels and the printed errors are as before. The
    first-pass invariant is kept: the code image holds the addresses
    0 .. IC-1, and every request points at a word of its own that waits
    for the second pass. *)
Theorem instruction_line_keeps_invariant (op : opcode) (src dest : option operand)
    (c : assembler_context) :
  first_pass_invariant c ->
  In op opcode_table -> encodable op src dest ->
  operand_modes_ok op src dest = true ->
  IC c + 5 < 2 ^ 32 ->
  memory_usage c + Z.of_nat (List.length (instruction_words op src dest))
  <= MEMORY_AVAILABLE_SPACE ->
  exists c',
    handle_instruction_line op src dest c = Continue tt c'
    /\ instruction_memory c'
       = instruction_memory c ++ code_nodes (IC c) (instruction_words op src dest)
    /\ IC c' = IC c + Z.of_nat (List.length (instruction_words op src dest))
    /\ address_update_requests c'
       = address_update_requests c ++ instruction_requests (IC c) op src dest
    /\ data_memory c' = data_memory c /\ DC c' = DC c
    /\ labels c' = labels c /\ printed c' = printed c
    /\ first_pass_invariant c'.
Proof.
  intros ((Hic & Hdc & Hsum & Hcap) & (Himg & Hlen) & (Hreq & Hnd))
    Hop Henc Hmodes Hic5 Hfit.
  unfold handle_instruction_line.
  rewrite check_operand_modes_ok by exact Hmodes.
  rewrite instruction_encoder_closed_form by (assumption || lia).
  set (words := instruction_words op src dest) in *.
  set (requests := instruction_requests (IC c) op src dest).
  set (c1 := set_address_update_requests (address_update_requests c ++ requests) c).
  assert (H1 : memory_usage c1 = memory_usage c /\ IC c1 = IC c
               /\ instruction_memory c1 = instruction_memory c)
    by (destruct c; cbn; auto).
  destruct H1 as (Hm1 & Hi1 & Himg1).
  rewrite Hm1. rewrite (proj2 (Z.leb_le _ _)) by lia.
  rewrite add_instruction_codes_ok by (rewrite ?Hm1, ?Hi1; lia).
  rewrite Hm1, Hi1, Himg1.
  eexists. split; [reflexivity |].
  destruct c as [afl spel dc ic mu pe spe dm im el lb mc reqs lm pr am].
  cbn [instruction_memory IC address_update_requests data_memory DC labels printed
       memory_usage set_memory_usage set_IC set_instruction_memory
       set_address_update_requests] in *.
  subst c1 requests. cbn.
  repeat (split; [reflexivity |]).
  unfold first_pass_invariant, counters_ok, code_image_ok, requests_ok.
  cbn [instruction_memory IC address_update_requests data_memory DC labels printed
       memory_usage].
  split; [lia |]. split.
  - rewrite map_app, code_nodes_values, code_nodes_app, <- Himg, length_map, Hlen,
      length_app, code_nodes_length. split; [reflexivity | lia].
  - destruct (instruction_requests_spec ic op src dest) as [Hnew Hndnew].
    fold words in Hnew. split.
    + apply Forall_app. split.
      * eapply Forall_impl; [| exact Hreq]. cbn beta.
        intros r (Hname & (w & Hw & Hfields) & Haddr).
        split; [exact Hname |]. split; [| lia].
        exists w. split; [| exact Hfields].
        unfold word_at in *. cbn [instruction_memory] in *.
        rewrite find_instruction_node_app.
        destruct (find_instruction_node (req_address r) im); [exact Hw | discriminate].
      * eapply Forall_impl; [| exact Hnew]. cbn beta.
        intros r (Hname & k & Hk & Hnth).
        assert (Hklen : (k < List.length words)%nat)
          by (apply nth_error_Some; congruence).
        split; [exact Hname |]. split; [| lia].
        exists (encoding_val UNKNOWN). split; [| split; reflexivity].
        unfold word_at. cbn [instruction_memory].
        rewrite find_instruction_node_app, Himg.
        rewrite find_code_nodes_outside
          by (right; rewrite length_map; lia).
        rewrite Hk, (find_code_nodes_at _ _ _ _ Hnth). reflexivity.
    + rewrite map_app. apply NoDup_app; [exact Hnd | exact Hndnew |].
      intros a Hold Hin.
      apply in_map_iff in Hold as (r & <- & Hr).
      apply in_map_iff in Hin as (r' & E & Hr').
      rewrite Forall_forall in Hreq, Hnew.
      destruct (Hreq r Hr) as (_ & _ & Hlt).
      destruct (Hnew r' Hr') as (_ & k & Hk & _). lia.
Qed.

(** ** What a data directive line leaves behind (directives.c) *)

Lemma parse_data_directive_some (rest : string) (c c1 : assembler_context) (data : list Z) :
  parse_data_directive rest c = (Some data, c1) ->
  c1 = c /\ data <> []
  /\ extract_directive_numbers (skip_spaces rest) c = (Some data, c).
Proof.
  unfold parse_data_directive.
  destruct (extract_directive_numbers (skip_spaces rest) c) as [[result |] c0] eqn:E;
    [| discriminate].
  pose proof (extract_directive_numbers_context _ _ _ _ E) as ->.
  destruct result as [| v result]; [discriminate |].
  intros H. injection H as <- <-. split; [reflexivity |]. split; [discriminate | reflexivity].
Qed.

Lemma parsed_directive_context (line : data_directive_line) (c c1 : assembler_context)
    (data : list Z) :
  match line with
  | Data_line rest => parse_data_directive rest c
  | Mat_line size rest => parse_mat_directive size rest c
  | String_line rest => parse_string_directive rest c
  end = (Some data, c1) ->
  c1 = c.
Proof.
  destruct line as [rest | rest | size rest].
  - intros H. now apply parse_data_directive_some in H.
  - unfold parse_string_directive.
    destruct (extract_directive_string (skip_spaces rest) c) as [[s |] c0] eqn:E;
      [| discriminate].
    apply extract_directive_string_some in E as [-> _]. intros H. now injection H as _ <-.
  - unfold parse_mat_directive. destruct size as [| | row col]; try discriminate.
    destruct ((row =? 0) || (col =? 0)); [discriminate |].
    destruct (extract_directive_numbers (skip_spaces rest) c) as [[result |] c0] eqn:E;
      [| discriminate].
    pose proof (extract_directive_numbers_context _ _ _ _ E) as ->.
    destruct (_ >? _); [discriminate |]. intros H. now injection H as _ <-.
Qed.

(** X21. A data directive line that is accepted appends words to the data
    image only: each of them fits a 10-bit signed word, they get the
    addresses from DC on, DC and memory_usage go up by their number, and
    the code image, IC and the requests are as before, so that the
    first-pass invariant is kept. *)
Theorem data_line_keeps_invariant (line : data_directive_line)
    (c c' : assembler_context) :
  first_pass_invariant c ->
  handle_data_directives_line line c = (true, c') ->
  (exists values,
      Forall fits_word values
      /\ data_memory c' = data_memory c ++ data_nodes (DC c) values
      /\ DC c' = DC c + Z.of_nat (List.length values)
      /\ memory_usage c' = memory_usage c + Z.of_nat (List.length values))
  /\ instruction_memory c' = instruction_memory c /\ IC c' = IC c
  /\ address_update_requests c' = address_update_requests c
  /\ labels c' = labels c /\ printed c' = printed c
  /\ first_pass_invariant c'.
Proof.
  intros ((Hic & Hdc & Hsum & Hcap) & Himg & Hreq & Hnd) H.
  unfold handle_data_directives_line in H.
  match type of H with
  | match ?parse with _ => _ end = _ => destruct parse as [[data |] c1] eqn:Ep
  end; [| discriminate].
  apply parsed_directive_context in Ep as ->.
  unfold insert_to_data_memory in H.
  rewrite (proj2 (Z.leb_le _ _)) in H by lia.
  destruct (insert_data_values_true data c c' H ltac:(lia)) as [Hfit Hroom].
  rewrite insert_data_values_ok in H by (assumption || lia).
  injection H as <-.
  destruct c as [afl spel dc ic mu pe spe dm im el lb mc reqs lm pr am].
  cbn [instruction_memory IC address_update_requests data_memory DC labels printed
       memory_usage] in *.
  cbn. split; [exists data; auto |].
  repeat (split; [reflexivity |]).
  unfold first_pass_invariant, counters_ok, code_image_ok, requests_ok.
  cbn [instruction_memory IC address_update_requests data_memory DC labels printed
       memory_usage].
  split; [lia |]. split; [exact Himg |]. split; [| exact Hnd].
  eapply Forall_impl; [| exact Hreq]. cbn beta. intros r (Hn & (w & Hw & Hf) & Ha).
  split; [exact Hn |]. split; [| exact Ha]. exists w. split; [exact Hw | exact Hf].
Qed.

(** X22. An accepted .data directive has a list of at least one number.
    The numbers are the [int]s that [atoi] reads from the numerals. While
    memory_usage has not passed the capacity each of them fits a 10-bit
    signed word and they are appended to the data image, in order; once
    memory_usage is above the capacity nothing is stored. The data
    counter counts words that count in memory_usage, as it does in every
    state of the first pass. *)
Theorem data_directive_words (rest : string) (c c' : assembler_context) :
  0 <= DC c <= memory_usage c ->
  handle_data_directives_line (Data_line rest) c = (true, c') ->
  exists values,
    extract_directive_numbers (skip_spaces rest) c = (Some values, c)
    /\ values <> []
    /\ Forall (fun v => - 2 ^ 31 <= v < 2 ^ 31) values
    /\ (memory_usage c <= MEMORY_AVAILABLE_SPACE ->
        Forall fits_word values
        /\ data_memory c' = data_memory c ++ data_nodes (DC c) values
        /\ DC c' = DC c + Z.of_nat (List.length values)
        /\ IC c' = IC c /\ instruction_memory c' = instruction_memory c)
    /\ (MEMORY_AVAILABLE_SPACE < memory_usage c -> c' = c).
Proof.
  intros [Hd Hdm] H.
  unfold handle_data_directives_line in H.
  destruct (parse_data_directive rest c) as [[data |] c1] eqn:Ep; [| discriminate].
  apply parse_data_directive_some in Ep as (-> & Hne & Hex).
  exists data. split; [exact Hex |]. split; [exact Hne |].
  split; [exact (extract_directive_numbers_ints _ _ _ _ Hex) |].
  unfold insert_to_data_memory in H. split.
  - intros Hcap. rewrite (proj2 (Z.leb_le _ _)) in H by lia.
    destruct (insert_data_values_true data c c' H ltac:(lia)) as [Hfit Hroom].
    rewrite insert_data_values_ok in H by (assumption || lia).
    injection H as <-. destruct c; cbn in *. auto 8.
  - intros Hover. rewrite (proj2 (Z.leb_gt _ _) Hover) in H. now injection H as <-.
Qed.

(** ** When the memory is full (instructions.c, directives.c) *)

Lemma add_instruction_codes_overflow (out : list Z) :
  forall c,
    0 <= memory_usage c <= MEMORY_AVAILABLE_SPACE ->
    MEMORY_AVAILABLE_SPACE < memory_usage c + Z.of_nat (List.length out) ->
    MEMORY_AVAILABLE_SPACE + 1 < 2 ^ 32 ->
    0 <= IC c -> IC c + Z.of_nat (List.length out) < 2 ^ 32 ->
    let room := MEMORY_AVAILABLE_SPACE - memory_usage c in
    add_instruction_codes out c
    = (false,
       set_memory_usage (MEMORY_AVAILABLE_SPACE + 1)
         (set_printed (printed c ++ [External_error 103])
            (set_IC (IC c + room)
               (set_instruction_memory
                  (instruction_memory c ++ code_nodes (IC c) (firstn (Z.to_nat room) out))
                  c)))).
Proof.
  induction out as [| w out IH]; intros c Hm Hover Hcap Hic Hic'; cbn zeta.
  - cbn [List.length] in Hover. lia.
  - cbn [add_instruction_codes List.length] in *.
    destruct (Z.eq_dec (memory_usage c) MEMORY_AVAILABLE_SPACE) as [Hfull | Hfree].
    + unfold add_instruction_to_memory. rewrite (proj2 (Z.eqb_eq _ _) Hfull).
      rewrite (proj2 (Z.eqb_eq _ _) Hfull). unfold print_external_error.
      rewrite Hfull, Z.sub_diag, uint_small by lia. cbn [Z.to_nat firstn code_nodes].
      destruct c; cbn. rewrite app_nil_r, Z.add_0_r. reflexivity.
    + rewrite add_instruction_to_memory_ok by lia.
      rewrite IH by (destruct c; cbn in *; lia).
      destruct c as [afl spel dc ic mu pe spe dm im el lb mc reqs lm pr am].
      cbn in *.
      replace (Z.to_nat (MEMORY_AVAILABLE_SPACE - mu))
        with (S (Z.to_nat (MEMORY_AVAILABLE_SPACE - (mu + 1)))) by lia.
      cbn [firstn code_nodes]. rewrite <- app_assoc. cbn [app].
      do 2 f_equal. lia.
Qed.

(** X23. An instruction with operands of permitted addressing modes that
    does not fit the memory any more: the words that still fit are
    stored, the memory-full error is printed once, the line is rejected,
    and memory_usage is set one above the capacity. The requests of the
    instruction stay in the list. *)
Theorem instruction_line_overflow (op : opcode) (src dest : option operand)
    (c : assembler_context) :
  counters_ok c -> In op opcode_table -> encodable op src dest ->
  operand_modes_ok op src dest = true ->
  IC c + 5 < 2 ^ 32 -> MEMORY_AVAILABLE_SPACE + 1 < 2 ^ 32 ->
  MEMORY_AVAILABLE_SPACE
  < memory_usage c + Z.of_nat (List.length (instruction_words op src dest)) ->
  let room := MEMORY_AVAILABLE_SPACE - memory_usage c in
  exists c',
    handle_instruction_line op src dest c = Return_false c'
    /\ printed c' = printed c ++ [External_error 103]
    /\ memory_usage c' = MEMORY_AVAILABLE_SPACE + 1
    /\ instruction_memory c'
       = instruction_memory c
         ++ code_nodes (IC c) (firstn (Z.to_nat room) (instruction_words op src dest))
    /\ IC c' = IC c + room
    /\ data_memory c' = data_memory c /\ DC c' = DC c
    /\ address_update_requests c'
       = address_update_requests c ++ instruction_requests (IC c) op src dest.
Proof.
  intros (Hic & Hdc & Hsum & Hcap) Hop Henc Hmodes Hic5 Hcap1 Hover room.
  unfold handle_instruction_line.
  rewrite check_operand_modes_ok by exact Hmodes.
  rewrite instruction_encoder_closed_form by (assumption || lia).
  set (words := instruction_words op src dest) in *.
  assert (Hlen : (List.length words <= 5)%nat).
  { unfold words, instruction_words, operand_words.
    destruct (operands_amount op) as [| [[| |] | [| |] |] |]; cbn; try lia;
      destruct src as [s |], dest as [d |]; cbn; try lia;
      try destruct (op_val s); try destruct (op_val d); cbn; lia. }
  set (c1 := set_address_update_requests _ c).
  assert (H1 : memory_usage c1 = memory_usage c /\ IC c1 = IC c
               /\ instruction_memory c1 = instruction_memory c
               /\ printed c1 = printed c)
    by (destruct c; cbn; auto).
  destruct H1 as (Hm1 & Hi1 & Himg1 & Hp1).
  rewrite Hm1. rewrite (proj2 (Z.leb_le _ _)) by lia.
  rewrite add_instruction_codes_overflow by (rewrite ?Hm1, ?Hi1; lia).
  rewrite Hm1, Hi1, Himg1, Hp1. fold room.
  eexists. split; [reflexivity |].
  unfold c1. destruct c; cbn. auto 8.
Qed.

(** X24. Once memory_usage is above the capacity, the overflow is not reported
    again: an instruction line with operands of permitted addressing
    modes that the encoder takes and a data directive line that parses
    are both accepted, and nothing is stored and nothing printed. *)
Theorem lines_after_overflow_are_dropped (c : assembler_context) :
  MEMORY_AVAILABLE_SPACE < memory_usage c ->
  (forall op src dest,
      In op opcode_table -> encodable op src dest ->
      operand_modes_ok op src dest = true ->
      0 <= IC c -> IC c + 5 < 2 ^ 32 ->
      exists c',
        handle_instruction_line op src dest c = Continue tt c'
        /\ instruction_memory c' = instruction_memory c /\ IC c' = IC c
        /\ memory_usage c' = memory_usage c /\ printed c' = printed c)
  /\ (forall line data,
        match line with
        | Data_line rest => parse_data_directive rest c
        | Mat_line size rest => parse_mat_directive size rest c
        | String_line rest => parse_string_directive rest c
        end = (Some data, c) ->
        handle_data_directives_line line c = (true, c)).
Proof.
  intros Hover. split.
  - intros op src dest Hop Henc Hmodes Hic Hic5.
    unfold handle_instruction_line.
    rewrite check_operand_modes_ok by exact Hmodes.
    rewrite instruction_encoder_closed_form by (assumption || lia).
    set (c1 := set_address_update_requests _ c).
    assert (H1 : memory_usage c1 = memory_usage c /\ IC c1 = IC c
                 /\ instruction_memory c1 = instruction_memory c
                 /\ printed c1 = printed c)
      by (destruct c; cbn; auto).
    destruct H1 as (Hm1 & Hi1 & Himg1 & Hp1).
    rewrite Hm1. rewrite (proj2 (Z.leb_gt _ _)) by lia.
    exists c1. auto.
  - intros line data Hparse. unfold handle_data_directives_line. rewrite Hparse.
    unfold insert_to_data_memory. now rewrite (proj2 (Z.leb_gt _ _)) by lia.
Qed.

End Memory.

(** * The statements at work on concrete programs

    The capacity is 156 words, the memory offset 100 and the longest name
    31 characters. *)

(** The scenario contexts are what the first pass builds, line by line,
    in a run where the cells of the new labels hold zero in [is_entry]. *)
Lemma extern_scenario_first_pass :
  and_then
    (handle_instruction_line 156 mov_opcode (Some (label_operand "X" 2))
       (Some (register_operand 1 2))
       (set_labels (add_label "X" EXTERNAL_TEMP_ADDR UNKNOWN_ADDR_TYPE EXTERN false [])
          init_assembler))
    (fun c1 =>
       and_then
         (handle_instruction_line 156 stop_opcode None None
            (set_labels (add_label "MAIN" 0 CODE NORMAL false (labels c1)) c1))
         (fun c2 =>
            match handle_data_directives_line 156 (Data_line "6, -9") c2 with
            | (true, c3) =>
                Continue tt (set_labels (add_label "LIST" (DC c2) DATA NORMAL false
                                           (labels c3)) c3)
            | (false, c3) => Return_false c3
            end))
  = Continue tt extern_scenario.
Proof. vm_compute. reflexivity. Qed.

Lemma undefined_label_scenario_first_pass :
  and_then
    (handle_instruction_line 156 mov_opcode (Some (label_operand "X" 2))
       (Some (register_operand 1 2))
       (set_labels (add_label "X" EXTERNAL_TEMP_ADDR UNKNOWN_ADDR_TYPE EXTERN false [])
          init_assembler))
    (fun c1 =>
       and_then
         (handle_instruction_line 156 mov_opcode (Some (label_operand "Y" 3))
            (Some (register_operand 1 3)) c1)
         (fun c2 =>
            and_then
              (handle_instruction_line 156 mov_opcode (Some (label_operand "X" 4))
                 (Some (register_operand 2 4)) c2)
              (handle_instruction_line 156 stop_opcode None None)))
  = Continue tt undefined_label_scenario.
Proof. vm_compute. reflexivity. Qed.

(** C4 at the empty images: the first append goes through. *)
Lemma append_fails_exactly_when_full_witness :
  counters_ok 156 init_assembler
  /\ (fst (add_instruction_to_memory 156 60 init_assembler) = false
      <-> memory_usage init_assembler = 156).
Proof.
  assert (H : counters_ok 156 init_assembler) by (unfold counters_ok; cbn; lia).
  split; [exact H |].
  apply (append_fails_exactly_when_full 156 ltac:(lia) 60 init_assembler H).
Defined.


(** [lea r3, r4]: lea takes a label or a matrix as its source, so the
    line is refused with error 115 and nothing is stored, although the
    encoder, asked directly, packs the two registers like those of any
    other two-operand opcode. *)
Lemma lea_with_register_source_is_refused :
  let lea := Build_opcode 4 "lea" 2 AM_1_2 AM_1_2_3 ABSOLUTE in
  handle_instruction_line 156 lea (Some (register_operand 3 1))
    (Some (register_operand 4 1)) init_assembler
  = Return_false (print_external_error 115 init_assembler)
  /\ instruction_encoder lea (Some (register_operand 3 1))
       (Some (register_operand 4 1)) init_assembler
     = Continue [316; 208] init_assembler.
Proof. split; vm_compute; reflexivity. Qed.

(** C7 at [stop]. *)
Lemma main_word_first_witness :
  (exists main rest,
      [960] = main :: rest
      /\ opcode_field main = opcode_code stop_opcode
      /\ src_mode_field main = mode_tag None
      /\ dest_mode_field main = mode_tag None
      /\ era_field main = encoding_val ABSOLUTE)
  /\ (exists c1 word,
        handle_instruction_line 156 stop_opcode None None init_assembler = Continue tt c1
        /\ IC c1 = 1 /\ DC c1 = 0
        /\ instruction_memory c1 = [ {| inst_value := word; inst_address := 0 |} ]
        /\ word = Z.shiftl 15 OPCODE_BITS_SHIFT
        /\ opcode_field word = 15 /\ src_mode_field word = 0
        /\ dest_mode_field word = 0 /\ era_field word = 0).
Proof.
  apply (main_word_first 156 ltac:(lia) stop_opcode stop_opcode None None
           init_assembler init_assembler [960]).
  - vm_compute. tauto.
  - reflexivity.
  - reflexivity.
  - lia.
Defined.

(** C2 at the scenario with an external, a code and a data label. *)
Lemma relocation_shifts_addresses_witness :
  exists c',
    context_of (execute_second_pass 100 extern_scenario) = Some c'
    /\ relocation_fits 100 extern_scenario
    /\ Forall external_label_ok (labels extern_scenario)
    /\ map inst_address (instruction_memory c')
       = map (fun n => inst_address n + 100) (instruction_memory extern_scenario)
    /\ map data_address (data_memory c')
       = map (fun n => data_address n + (100 + IC extern_scenario))
           (data_memory extern_scenario)
    /\ map data_value (data_memory c') = map data_value (data_memory extern_scenario)
    /\ Forall2 (relocated_label 100 (IC extern_scenario)) (labels extern_scenario) (labels c')
    /\ IC c' = IC extern_scenario.
Proof.
  assert (Hrun : exists c', context_of (execute_second_pass 100 extern_scenario) = Some c')
    by (eexists; vm_compute; reflexivity).
  destruct Hrun as [c' Hrun].
  assert (Hfit : relocation_fits 100 extern_scenario).
  { unfold relocation_fits, fits_uint. cbn.
    repeat first [ split | constructor ]; cbn; lia. }
  assert (Hext : Forall external_label_ok (labels extern_scenario)).
  { unfold external_label_ok. cbn.
    repeat constructor; cbn; intros; try discriminate. }
  exists c'. split; [exact Hrun |]. split; [exact Hfit |]. split; [exact Hext |].
  apply (relocation_shifts_addresses 100 extern_scenario c' Hrun Hfit Hext).
Defined.


(** C10 at the scenario with the undefined label Y between two uses of
    X: the word of the second use, at address 107, stays as it was. *)
Lemma undefined_label_stops_fixups_witness :
  exists c2,
    execute_second_pass 100 undefined_label_scenario = Return_false c2
    /\ second_pass_error c2 = true
    /\ printed c2 = printed undefined_label_scenario ++ [External_error 146]
    /\ second_pass_error_line c2 = 3
    /\ Forall (deferred_word_at c2)
         [ {| req_operand := label_operand "X" 4; req_address := 107 |} ].
Proof.
  apply (undefined_label_stops_fixups 100 undefined_label_scenario
           [ {| req_operand := label_operand "X" 2; req_address := 101 |} ]
           [ {| req_operand := label_operand "X" 4; req_address := 107 |} ]
           {| req_operand := label_operand "Y" 3; req_address := 104 |} "Y").
  - reflexivity.
  - cbn. repeat constructor; cbn; intros H; repeat destruct H as [H | H]; lia.
  - repeat constructor; eexists; (split; [vm_compute; reflexivity |]); split; reflexivity.
  - repeat constructor. exists "X", (extern_label "X"), 1. split; reflexivity.
  - reflexivity.
  - reflexivity.
Defined.

(** C9 at "HELLO". *)
Lemma string_directive_words_witness :
  exists c',
    handle_data_directives_line 156 (String_line (quoted_string "HELLO")) init_assembler
    = (true, c')
    /\ data_memory c' = data_nodes 0 [72; 69; 76; 76; 79; 0]
    /\ DC c' = 6.
Proof.
  assert (Hc : 0 <= DC init_assembler <= memory_usage init_assembler) by (cbn; lia).
  assert (Hrun : exists c',
             handle_data_directives_line 156 (String_line (quoted_string "HELLO"))
               init_assembler = (true, c'))
    by (eexists; vm_compute; reflexivity).
  destruct Hrun as [c' Hrun].
  destruct (string_directive_words 156 ltac:(lia) (quoted_string "HELLO")
              init_assembler c' Hc Hrun) as [_ Hhello].
  destruct (Hhello ltac:(cbn; lia)) as (c6 & Hrun6 & Hdata).
  exists c6. split; [exact Hrun6 |]. split; [exact Hdata |].
  rewrite Hrun6 in Hrun. injection Hrun as <-.
  vm_compute in Hrun6. injection Hrun6 as <-. reflexivity.
Defined.

(** C8 at a 2 by 2 matrix with three values. *)
Lemma mat_directive_words_witness :
  exists c',
    handle_data_directives_line 156 (Mat_line (Size 2 2) "1, 2,3") init_assembler
    = (true, c')
    /\ data_memory c' = data_nodes 0 [1; 2; 3; 0]
    /\ DC c' = 4.
Proof.
  assert (Hc : counters_ok 156 init_assembler) by (unfold counters_ok; cbn; lia).
  assert (Hex : extract_directive_numbers (skip_spaces "1, 2,3") init_assembler
                = (Some [1; 2; 3], init_assembler)) by reflexivity.
  destruct (mat_directive_words 156 ltac:(lia) 2 2 "1, 2,3" [1; 2; 3]
              init_assembler init_assembler Hc Hex) as (_ & _ & Hpad).
  destruct Hpad as (c' & Hrun & Hdata & _ & Hdc).
  - lia.
  - lia.
  - cbn. lia.
  - repeat constructor; unfold fits_word; cbn; lia.
  - cbn. lia.
  - exists c'. split; [exact Hrun |]. split; [exact Hdata | exact Hdc].
Defined.

(** The claim C9 as the spec words it fails once the memory has
    overflowed. With room for two words, [mov X, r1] needs three: two
    are stored, error 103 is printed, the line is refused and
    memory_usage is set to 3. The first pass goes on, and the directive
    [.string "HELLO"] that follows is accepted and adds no word to the
    data image. *)
Lemma string_after_overflow_counterexample :
  exists c1,
    handle_instruction_line 2 mov_opcode (Some (label_operand "X" 1))
      (Some (register_operand 1 1)) init_assembler = Return_false c1
    /\ memory_usage c1 = 3 /\ printed c1 = [External_error 103]
    /\ handle_data_directives_line 2 (String_line (quoted_string "HELLO")) c1 = (true, c1)
    /\ data_memory c1 = [] /\ DC c1 = 0.
Proof.
  eexists. split; [vm_compute; reflexivity |]. vm_compute. repeat split.
Qed.

(** The claim C8 as the spec words it fails in two ways. A .mat
    declaration with a negative row count and a negative column count is
    not rejected: [.mat [-2][-3] 1, 2,3] goes through without an error and
    appends six words. And a declaration with no more values than cells
    is rejected when one of the values does not fit a word:
    [.mat [1][2] 1, 1000] fails. *)
Lemma mat_size_and_values_counterexample :
  (exists c',
      handle_data_directives_line 156 (Mat_line (Size (-2) (-3)) "1, 2,3") init_assembler
      = (true, c')
      /\ data_memory c' = data_nodes 0 [1; 2; 3; 0; 0; 0]
      /\ printed c' = [])
  /\ fst (handle_data_directives_line 156 (Mat_line (Size 1 2) "1, 1000") init_assembler)
     = false.
Proof. split; [eexists; vm_compute; repeat split | reflexivity]. Qed.

(** A value out of the range of a word is found while the values are
    appended: the directive fails, but the values before it are already
    in the data image. *)
Lemma out_of_range_mat_value_is_appended_in_part :
  handle_data_directives_line 156 (Mat_line (Size 1 2) "1, 1000") init_assembler
  = (false,
     set_printed [External_error 123]
       (set_memory_usage 1 (set_DC 1 (set_data_memory (data_nodes 0 [1]) init_assembler)))).
Proof. vm_compute. reflexivity. Qed.

(** The addressing modes are tested before the line is encoded: an
    immediate as the destination of mov and as the operand of inc is
    refused with error 116, whatever its value, and nothing is stored. *)
Lemma mode_tests_come_before_the_encoder :
  let inc := Build_opcode 7 "inc" 1 NONE AM_1_2_3 ABSOLUTE in
  let immediate (val : Z) :=
    {| op_val := U_val val; op_encoding := ABSOLUTE; file_line := 1 |} in
  handle_instruction_line 156 mov_opcode (Some (register_operand 1 1))
    (Some (immediate 5)) init_assembler
  = Return_false (print_external_error 116 init_assembler)
  /\ handle_instruction_line 156 inc None (Some (immediate 200)) init_assembler
     = Return_false (print_external_error 116 init_assembler).
Proof. split; vm_compute; reflexivity. Qed.

(** A numeral that does not fit an [int] is stored as [atoi] reads it:
    [.data 4294967297] is accepted and stores the word 1. *)
Lemma data_numeral_beyond_int :
  handle_data_directives_line 156 (Data_line "4294967297") init_assembler
  = (true,
     set_memory_usage 1 (set_DC 1 (set_data_memory (data_nodes 0 [1]) init_assembler))).
Proof. vm_compute. reflexivity. Qed.

(** An error that the preprocessor does flag stops the pipeline: a macro
    without mcroend gives no expanded file and no first pass. *)
Lemma missing_mcroend_halts :
  let r := run_assembler 31 (map source_line ["mcro A"; "inc r1"]) in
  fst r = [PREPROCESSOR] /\ am_file (snd r) = None
  /\ printed (snd r) = [External_error 152].
Proof. vm_compute. auto. Qed.

(** * The further properties at work *)

(** X1 at 100 in four letters. *)
Lemma to_base4_str_fixed_length_witness :
  let s := to_base4_str 100 4 in
  Z.of_nat (String.length s) = 4
  /\ all_chars is_base4_letter s = true
  /\ base4_value s = 100 mod 4 ^ 4.
Proof. apply (to_base4_str_fixed_length 100 4). lia. Defined.

(** X2 at 27. *)
Lemma to_base4_str_shortest_witness :
  let s := to_base4_str 27 (-1) in
  base4_value s = 27
  /\ all_chars is_base4_letter s = true
  /\ (1 <= String.length s)%nat
  /\ (String.length s = 1%nat \/ 4 ^ (Z.of_nat (String.length s) - 1) <= 27).
Proof. apply (to_base4_str_shortest 27). lia. Defined.

(** X3 at the data word -9 in five letters. *)
Lemma to_base4_str_of_signed_word_witness :
  let v := base4_value (to_base4_str (uint (-9)) 5) in
  v = (-9) mod 4 ^ 5
  /\ (- 4 ^ 5 <= 2 * (-9) < 4 ^ 5 ->
      (if 2 * v >=? 4 ^ 5 then v - 4 ^ 5 else v) = -9).
Proof. apply (to_base4_str_of_signed_word (-9) 5). lia. Defined.

(** X4 at the relocated address 104. *)
Lemma encode_label_address_round_trip_witness :
  (104 <= 255 ->
   exists w, encode_label_address 104 RELOCATABLE = inl w
             /\ 0 <= w < 1024
             /\ data_field w = 104
             /\ era_field w = encoding_val RELOCATABLE)
  /\ (255 < 104 -> encode_label_address 104 RELOCATABLE = inr 10).
Proof. apply (encode_label_address_round_trip 104 RELOCATABLE). lia. Defined.

(** X5 at the scenario with the data label LIST, after relocation: the
    word of LIST at address 101. *)
Lemma internal_fixups_witness :
  let c := relocate_images 100 internal_scenario in
  let r := {| req_operand := label_operand "LIST" 1; req_address := 101 |} in
  exists c',
    process_addr_update_requests 100 c = Continue tt c'
    /\ (exists w, word_at (req_address r) c' = Some w
                  /\ data_field w = 104
                  /\ era_field w = encoding_val RELOCATABLE)
    /\ filter (fun e => mem_address e =? req_address r) (external_labels c')
       = filter (fun e => mem_address e =? req_address r) (external_labels c).
Proof.
  intros c r.
  assert (Hrun : exists c', process_addr_update_requests 100 c = Continue tt c')
    by (eexists; vm_compute; reflexivity).
  destruct Hrun as [c' Hrun]. exists c'. split; [exact Hrun |].
  apply (internal_fixups 100 c c' Hrun
           ltac:(cbn; repeat constructor; intros [])
           r "LIST"
           {| label_name := "LIST"; label_address := 104; label_type := DATA;
              label_definition := NORMAL; is_entry := false |}).
  - left. reflexivity.
  - reflexivity.
  - reflexivity.
  - cbn. lia.
Defined.

(** X7 at a source of two lines. *)
Lemma preprocessor_copies_plain_source_witness :
  let as_file := map source_line ["MAIN: mov r1, r2"; "stop"] in
  let r := execute_preprocessor 31 as_file init_assembler in
  fst r = true
  /\ am_file (snd r) = Some (body_text as_file)
  /\ printed (snd r) = [] /\ macros (snd r) = []
  /\ forall i, 1 <= i <= Z.of_nat (List.length as_file) ->
               get_origin_file_line i (lines_maper (snd r)) = i.
Proof.
  intros as_file.
  apply (preprocessor_copies_plain_source 31 as_file).
  repeat constructor.
Defined.

(** X8 at the macro GREET with a body of two lines. *)
Lemma macro_call_expands_to_body_witness :
  let body := map source_line ["mov r1, r2"; "add r1, r2"] in
  let r := execute_preprocessor 31
             (source_line "mcro GREET" :: body ++ [source_line "mcroend"; source_line "GREET"])
             init_assembler in
  fst r = true
  /\ am_file (snd r) = Some (body_text body)
  /\ forall i, 1 <= i <= Z.of_nat (List.length body) ->
               get_origin_file_line i (lines_maper (snd r)) = i + 1.
Proof.
  intros body.
  apply (macro_call_expands_to_body 31 "GREET").
  - reflexivity.
  - repeat constructor.
  - discriminate.
  - reflexivity.
  - reflexivity.
  - discriminate.
  - discriminate.
Defined.

(** X9 at [mov X, r1] in the empty context. *)
Lemma instruction_encoder_words_witness :
  instruction_encoder mov_opcode (Some (label_operand "X" 2)) (Some (register_operand 1 2))
    init_assembler
  = Continue [28; 3; 4]
      (set_address_update_requests
         [ {| req_operand := label_operand "X" 2; req_address := 1 |} ] init_assembler).
Proof.
  apply (instruction_encoder_words mov_opcode (Some (label_operand "X" 2))
           (Some (register_operand 1 2)) init_assembler).
  - left. reflexivity.
  - cbn. repeat split; lia.
  - cbn. lia.
  - cbn. lia.
Defined.

(** X10 at the scenario with the external label X. *)
Lemma first_pass_invariant_serves_second_pass_witness :
  let requests := update_request_list_addresses 100 (address_update_requests extern_scenario) in
  NoDup (map req_address requests)
  /\ Forall (deferred_word_at (relocate_images 100 extern_scenario)) requests
  /\ Forall (fun r => request_label_name (req_operand r) <> None) requests.
Proof.
  apply (first_pass_invariant_serves_second_pass 156 100 extern_scenario).
  - unfold first_pass_invariant, counters_ok, code_image_ok, requests_ok. cbn.
    repeat split; try lia; try reflexivity.
    + repeat constructor; try discriminate; try lia.
      eexists. split; [vm_compute; reflexivity | split; reflexivity].
    + repeat constructor. intros [].
  - unfold relocation_fits, fits_uint. cbn.
    repeat first [ split | constructor ]; cbn; lia.
Defined.

(** X11 at the scenario with the external label X. *)
Lemma second_pass_resolves_requests_witness :
  exists c',
    execute_second_pass 100 extern_scenario = Continue tt c'
    /\ printed c' = printed extern_scenario /\ second_pass_error c' = false.
Proof.
  destruct (second_pass_resolves_requests 156 100 extern_scenario)
    as (c' & Hrun & Hp & He & _).
  - unfold first_pass_invariant, counters_ok, code_image_ok, requests_ok. cbn.
    repeat split; try lia; try reflexivity.
    + repeat constructor; try discriminate; try lia.
      eexists. split; [vm_compute; reflexivity | split; reflexivity].
    + repeat constructor. intros [].
  - unfold relocation_fits, fits_uint. cbn.
    repeat first [ split | constructor ]; cbn; lia.
  - reflexivity.
  - repeat constructor. exists "X", (extern_label "X"), 1. split; reflexivity.
  - exists c'. auto.
Defined.

(** X12 at the operand #-5, with room for four digits. *)
Lemma immediate_operand_format_witness :
  let o' := {| op_val := U_val (-5); op_encoding := ABSOLUTE; file_line := 7 |} in
  exists sign digits,
    "#-5" = String "#" (String.append sign digits)
    /\ (sign = EmptyString \/ sign = "+" \/ sign = "-")
    /\ digits <> EmptyString /\ all_chars isdigit digits = true
    /\ op_val o' = U_val (if String.eqb sign "-" then - decimal_value digits
                          else decimal_value digits)
    /\ op_encoding o' = ABSOLUTE /\ init_assembler = init_assembler.
Proof.
  intros o'.
  assert (Hparse : try_parse_immediate_operand 4 "#-5" (register_operand 0 7)
                     init_assembler = (Parsed o', init_assembler)) by reflexivity.
  pose proof (immediate_operand_format 4 "#-5" (register_operand 0 7) o'
                init_assembler init_assembler Hparse) as H.
  cbv zeta in H.
  destruct H as (sign & digits & H1 & H2 & H3 & H4 & _ & _ & H7 & H8 & H9).
  exists sign, digits. repeat (split; [assumption |]).
  split; [apply H7; lia |]. split; assumption.
Defined.

(** X13 at the operand M1[r2][r7]+5. *)
Lemma matrix_operand_ignores_what_follows_witness :
  try_parse_matrix_operand 31 "M1[r2][r7]+5" 3 init_assembler
  = try_parse_matrix_operand 31 "M1[r2][r7]" 3 init_assembler
  /\ (is_register "r2" = true -> is_register "r7" = true ->
      is_name_valid 31 "M1" = true ->
      try_parse_matrix_operand 31 "M1[r2][r7]+5" 3 init_assembler
      = (Parsed {| op_val := U_matrix "M1" (get_reg_num "r2") (get_reg_num "r7") ABSOLUTE;
                   op_encoding := UNKNOWN; file_line := 3 |}, init_assembler)).
Proof.
  apply (matrix_operand_ignores_what_follows 31 "M1" "r2" "r7" "+5" 3 init_assembler);
    reflexivity.
Defined.

(** X14 at the operand LIST. *)
Lemma name_parses_as_label_witness :
  parse_operand 31 4 "LIST" (register_operand 0 7) 3 init_assembler
  = (Parsed {| op_val := U_label "LIST"; op_encoding := UNKNOWN; file_line := 3 |},
     init_assembler).
Proof.
  apply (name_parses_as_label 31 4 "LIST" (register_operand 0 7) 3 init_assembler);
    reflexivity.
Defined.

(** X15 at the operand M1[r2][r7]. *)
Lemma parse_operand_well_formed_witness :
  let o' := {| op_val := U_matrix "M1" 2 7 ABSOLUTE; op_encoding := UNKNOWN;
               file_line := 3 |} in
  well_formed_operand o' /\ init_assembler = init_assembler.
Proof.
  intros o'.
  apply (parse_operand_well_formed 31 4 "M1[r2][r7]" (register_operand 0 7) o' 3
           init_assembler init_assembler).
  reflexivity.
Defined.

(** X16 at the line [.extern X] in the empty context, the cell of the
    new label holding a value that is not zero. *)
Lemma extern_line_declares_label_witness :
  let declared_X :=
    {| label_name := "X"; label_address := EXTERNAL_TEMP_ADDR;
       label_type := UNKNOWN_ADDR_TYPE; label_definition := EXTERN;
       is_entry := true |} in
  let c' := set_labels [declared_X] init_assembler in
  exists label_name0,
    let declared :=
      {| label_name := label_name0; label_address := EXTERNAL_TEMP_ADDR;
         label_type := UNKNOWN_ADDR_TYPE; label_definition := EXTERN;
         is_entry := true |} in
    strtok (source_line ".extern X") blanks = [".extern"; label_name0]
    /\ is_name_valid 31 label_name0 = true
    /\ get_label label_name0 (labels init_assembler) = None
    /\ labels c' = labels init_assembler ++ [declared]
    /\ get_label label_name0 (labels c') = Some declared
    /\ c' = set_labels (labels c') init_assembler
    /\ (Forall external_label_ok (labels init_assembler) ->
        Forall external_label_ok (labels c')).
Proof.
  intros declared_X c'.
  apply (extern_line_declares_label 31 (source_line ".extern X") true
           init_assembler c').
  reflexivity.
Defined.

(** X17 at the line [.entry LIST] of the scenario with the data label
    LIST. *)
Lemma entry_line_marks_label_witness :
  let c' := second_pass_entry_line 31 (source_line ".entry LIST") 4 internal_scenario in
  c' = set_labels (mark_entry "LIST" (labels internal_scenario)) internal_scenario
  /\ get_label "LIST" (labels c')
     = Some {| label_name := "LIST"; label_address := 0; label_type := DATA;
               label_definition := NORMAL; is_entry := true |}
  /\ is_entry_label_exist (labels c') = true
  /\ map label_address (labels c') = map label_address (labels internal_scenario).
Proof.
  apply (entry_line_marks_label 31 (source_line ".entry LIST") "LIST" 4 internal_scenario);
    reflexivity.
Defined.

(** X18 at [mov X, r1] in the empty context. *)
Lemma encoder_words_fit_ten_bits_witness :
  exists out c',
    instruction_encoder mov_opcode (Some (label_operand "X" 2)) (Some (register_operand 1 2))
      init_assembler = Continue out c'
    /\ (1 <= List.length out <= 5)%nat
    /\ Forall (fun w => 0 <= w < 1024
                        /\ forall word_len, 5 <= word_len ->
                             base4_value (to_base4_str (uint w) word_len) = w) out.
Proof.
  apply (encoder_words_fit_ten_bits mov_opcode (Some (label_operand "X" 2))
           (Some (register_operand 1 2)) init_assembler).
  - left. reflexivity.
  - cbn. repeat split; lia.
  - cbn. lia.
  - cbn. lia.
Defined.

(** X19 at [mov #200, r1]. *)
Lemma immediate_out_of_range_rejected_witness :
  let o := {| op_val := U_val 200; op_encoding := ABSOLUTE; file_line := 2 |} in
  instruction_encoder mov_opcode (Some o) (Some (register_operand 1 2)) init_assembler
  = Return_false (print_external_error 143 init_assembler)
  /\ handle_instruction_line 156 mov_opcode (Some o) (Some (register_operand 1 2))
       init_assembler
     = Return_false (print_external_error 143 init_assembler).
Proof.
  intros o.
  destruct (immediate_out_of_range_rejected 156 mov_opcode (Some o)
              (Some (register_operand 1 2)) o 200 init_assembler)
    as [Hencoder Hline].
  - left. reflexivity.
  - right. split; reflexivity.
  - reflexivity.
  - right. lia.
  - split; [exact Hencoder |]. apply Hline. reflexivity.
Defined.

(** X20 at [mov X, r1] in the empty context. *)
Lemma instruction_line_keeps_invariant_witness :
  exists c',
    handle_instruction_line 156 mov_opcode (Some (label_operand "X" 2))
      (Some (register_operand 1 2)) init_assembler = Continue tt c'
    /\ instruction_memory c' = code_nodes 0 [28; 3; 4]
    /\ address_update_requests c'
       = [ {| req_operand := label_operand "X" 2; req_address := 1 |} ]
    /\ first_pass_invariant 156 c'.
Proof.
  destruct (instruction_line_keeps_invariant 156 ltac:(lia) mov_opcode
              (Some (label_operand "X" 2)) (Some (register_operand 1 2)) init_assembler)
    as (c' & Hrun & Hmem & _ & Hreq & _ & _ & _ & _ & Hinv).
  - unfold first_pass_invariant, counters_ok, code_image_ok, requests_ok. cbn.
    repeat split; try lia; constructor.
  - left. reflexivity.
  - cbn. repeat split; lia.
  - reflexivity.
  - cbn. lia.
  - cbn. lia.
  - exists c'. auto.
Defined.

(** X21 at [.data 6, -9] in the empty context. *)
Lemma data_line_keeps_invariant_witness :
  exists c',
    handle_data_directives_line 156 (Data_line "6, -9") init_assembler = (true, c')
    /\ instruction_memory c' = instruction_memory init_assembler
    /\ first_pass_invariant 156 c'.
Proof.
  assert (Hrun : exists c', handle_data_directives_line 156 (Data_line "6, -9")
                              init_assembler = (true, c'))
    by (eexists; vm_compute; reflexivity).
  destruct Hrun as [c' Hrun]. exists c'. split; [exact Hrun |].
  destruct (data_line_keeps_invariant 156 ltac:(lia) (Data_line "6, -9") init_assembler c')
    as (_ & Hmem & _ & _ & _ & _ & Hinv).
  - unfold first_pass_invariant, counters_ok, code_image_ok, requests_ok. cbn.
    repeat split; try lia; constructor.
  - exact Hrun.
  - auto.
Defined.

(** X22 at [.data 6, -9] in the empty context. *)
Lemma data_directive_words_witness :
  exists c' values,
    handle_data_directives_line 156 (Data_line "6, -9") init_assembler = (true, c')
    /\ extract_directive_numbers (skip_spaces "6, -9") init_assembler
       = (Some values, init_assembler)
    /\ data_memory c' = data_memory init_assembler ++ data_nodes 0 values.
Proof.
  assert (Hrun : exists c', handle_data_directives_line 156 (Data_line "6, -9")
                              init_assembler = (true, c'))
    by (eexists; vm_compute; reflexivity).
  destruct Hrun as [c' Hrun].
  destruct (data_directive_words 156 ltac:(lia) "6, -9" init_assembler c')
    as (values & Hex & _ & _ & Hstored & _).
  - cbn. lia.
  - exact Hrun.
  - destruct (Hstored ltac:(cbn; lia)) as (_ & Hmem & _).
    exists c', values. auto.
Defined.

(** X23 at [mov X, r1] with room for two words. *)
Lemma instruction_line_overflow_witness :
  exists c',
    handle_instruction_line 2 mov_opcode (Some (label_operand "X" 2))
      (Some (register_operand 1 2)) init_assembler = Return_false c'
    /\ printed c' = [External_error 103]
    /\ memory_usage c' = 3
    /\ instruction_memory c' = code_nodes 0 [28; 3].
Proof.
  destruct (instruction_line_overflow 2 ltac:(lia) mov_opcode
              (Some (label_operand "X" 2)) (Some (register_operand 1 2)) init_assembler)
    as (c' & Hrun & Hp & Hm & Hmem & _).
  - unfold counters_ok. cbn. lia.
  - left. reflexivity.
  - cbn. repeat split; lia.
  - reflexivity.
  - cbn. lia.
  - lia.
  - cbn. lia.
  - exists c'. auto.
Defined.

(** X24 at a context that is past a capacity of two words. *)
Lemma lines_after_overflow_are_dropped_witness :
  let c := set_memory_usage 3 init_assembler in
  handle_data_directives_line 2 (Data_line "6, -9") c = (true, c).
Proof.
  intros c.
  apply (proj2 (lines_after_overflow_are_dropped 2 c ltac:(cbn; lia))
           (Data_line "6, -9") [6; -9]).
  reflexivity.
Defined.
